(** * turing-chat: the session and message routing engine of server.js

    A shallow embedding of the in-memory session store, the message log with
    its process-wide sequence counter, the polling route, the operator inbox
    and the operator reply route.  Two revisions of server.js are in the
    tree: [src/backend/server.js] (module [Backend]) and the later revision
    with a fixed system prompt, [src/unnamed/part_000] (module [Part000]).
    The functions both revisions spell the same way are embedded once.

    Every route handler is embedded as one run to completion: a function of
    the store, the request and what the outside world answers during the run
    (identifier generator, random source, clock, remote model).  The chat
    route awaits the responder: it is embedded as its two segments, before
    and after the await, and [post_chat] is the run in which no other
    request is served in between.  [step] interleaves the segments of
    overlapping requests.  The access gate in front of the operator routes
    is taken as passed. *)

From Stdlib Require Import Ascii String.
From Stdlib Require Import ZArith QArith List Bool Lia.
From Stdlib Require Import Permutation Sorted.
Import ListNotations.
Local Open Scope Z_scope.

(* ------------------------------------------------------------------ *)
(** ** JavaScript values as the handlers observe them *)

(** A JS string is a sequence of UTF-16 code units; [.length] counts them. *)
Definition code_unit := N.
Definition jsstring := list code_unit.

(** An ASCII literal of the source, one code unit per character. *)
Definition lit (s : string) : jsstring := map N_of_ascii (list_ascii_of_string s).

Definition jsstring_eq_dec : forall a b : jsstring, {a = b} + {a <> b} :=
  list_eq_dec N.eq_dec.

(** [a === b] on strings. *)
Definition str_eqb (a b : jsstring) : bool :=
  if jsstring_eq_dec a b then true else false.

(** [str.slice(a, b)] for indices [0 <= a <= b]. *)
Definition slice (str : jsstring) (a b : nat) : jsstring :=
  firstn (b - a) (skipn a str).

(** A field of [req.query] or of the JSON body.  A value that is neither
    absent nor a string (null, a boolean, a number, an array, an object) is
    observed by the handlers only through ToBoolean and through [String(v)],
    which is [None] when the conversion throws a TypeError. *)
Inductive jsval : Type :=
| JUndefined
| JString (s : jsstring)
| JOther (toBoolean : bool) (toStr : option jsstring).

(** ToBoolean: [!v] is [negb (truthy v)]. *)
Definition truthy (v : jsval) : bool :=
  match v with
  | JUndefined => false
  | JString s => match s with [] => false | _ :: _ => true end
  | JOther b _ => b
  end.

(** [String(v)], also the conversion of [v] inside a template literal. *)
Definition to_String (v : jsval) : option jsstring :=
  match v with
  | JUndefined => Some (lit "undefined")
  | JString s => Some s
  | JOther _ r => r
  end.

(** [a || b]. *)
Definition js_or (a b : jsval) : jsval := if truthy a then a else b.

(** A JS number used as a polling cursor: a finite double is a rational. *)
Inductive jsnum : Type :=
| JNum (q : Q)
| JNaN
| JPosInf
| JNegInf.

Definition Qlt_bool (x y : Q) : bool := negb (Qle_bool y x).

(** [i > a] and [i <= a] for an integer [i] and a JS number [a]; every
    comparison with NaN is false. *)
Definition num_gt (i : Z) (a : jsnum) : bool :=
  match a with
  | JNum q => Qlt_bool q (inject_Z i)
  | JNaN => false
  | JPosInf => false
  | JNegInf => true
  end.

Definition num_le (i : Z) (a : jsnum) : bool :=
  match a with
  | JNum q => Qle_bool (inject_Z i) q
  | JNaN => false
  | JPosInf => true
  | JNegInf => false
  end.

(** A timestamp: the instant, in epoch milliseconds, whose ISO-8601 text
    [new Date().toISOString()] returns and [new Date(text)] reads back. *)
Definition isotime := Z.

(* ------------------------------------------------------------------ *)
(** ** Data model *)

(** [role: 'user' | 'ai' | 'human']. *)
Inductive Role : Type := user | ai | human.

(** [condition: 'AI' | 'human']. *)
Inductive Condition : Type := CondAI | CondHuman.

Definition Role_eqb (a b : Role) : bool :=
  match a, b with
  | user, user | ai, ai | human, human => true
  | _, _ => false
  end.

(** A message [{ i, role, text, t }]. *)
Record Message : Type := mkMessage {
  m_i : Z;
  m_role : Role;
  m_text : jsstring;
  m_t : isotime
}.

(** A session [{ id, condition, createdAt, systemPrompt, messages,
    awaitingOperator }].  [systemPrompt] exists in part_000 only; a session
    of backend/server.js has no such property and carries [None]. *)
Record Session : Type := mkSession {
  s_id : jsstring;
  s_condition : Condition;
  s_createdAt : isotime;
  s_systemPrompt : option jsstring;
  s_messages : list Message;
  s_awaitingOperator : bool
}.

(** [const sessions = new Map(); let globalIndex = 0;]
    The Map keeps its entries in insertion order.  [globalIndex] is a JS
    number that only [++globalIndex] changes; it is an integer, and exact as
    long as it stays below 2^53. *)
Record Store : Type := mkStore {
  sessions : list (jsstring * Session);
  globalIndex : Z
}.

Definition initial_store : Store := {| sessions := []; globalIndex := 0 |}.

(** [Map.prototype.get]. *)
Fixpoint Map_get (k : jsstring) (m : list (jsstring * Session)) : option Session :=
  match m with
  | [] => None
  | (k', v) :: m' => if jsstring_eq_dec k k' then Some v else Map_get k m'
  end.

(** [Map.prototype.set]: an existing key keeps its place, a new key goes last. *)
Fixpoint Map_set (k : jsstring) (v : Session) (m : list (jsstring * Session))
  : list (jsstring * Session) :=
  match m with
  | [] => [(k, v)]
  | (k', v') :: m' =>
      if jsstring_eq_dec k k' then (k, v) :: m' else (k', v') :: Map_set k v m'
  end.

(** [sessions.values()]. *)
Definition Map_values (m : list (jsstring * Session)) : list Session := map snd m.

(** [sessions.get(sessionId)] for a request field: the keys are strings, so
    any other value finds nothing. *)
Definition sessions_get (st : Store) (sessionId : jsval) : option (jsstring * Session) :=
  match sessionId with
  | JString k => option_map (pair k) (Map_get k (sessions st))
  | _ => None
  end.

(** The handlers mutate the session object they fetched from the Map, and the
    counter; [commit] is the store in which the object under key [k] has
    become [s] and the counter [g]. *)
Definition commit (st : Store) (k : jsstring) (s : Session) (g : Z) : Store :=
  {| sessions := Map_set k s (sessions st); globalIndex := g |}.

(** [session.messages.push(msg)] and [s.awaitingOperator = b]. *)
Definition push (s : Session) (msg : Message) : Session :=
  {| s_id := s_id s; s_condition := s_condition s; s_createdAt := s_createdAt s;
     s_systemPrompt := s_systemPrompt s;
     s_messages := s_messages s ++ [msg];
     s_awaitingOperator := s_awaitingOperator s |}.

Definition set_awaitingOperator (s : Session) (b : bool) : Session :=
  {| s_id := s_id s; s_condition := s_condition s; s_createdAt := s_createdAt s;
     s_systemPrompt := s_systemPrompt s;
     s_messages := s_messages s;
     s_awaitingOperator := b |}.

(** [function pushMessage(session, role, text)]: [g] is [globalIndex] before
    the call and [now] the clock reading; the result is the message, the
    session after the push and [globalIndex] after [++globalIndex]. *)
Definition pushMessage (session : Session) (role : Role) (text : jsstring)
    (now : isotime) (g : Z) : Message * Session * Z :=
  let msg := {| m_i := g + 1; m_role := role; m_text := text; m_t := now |} in
  (msg, push session msg, g + 1).

(** [function isAwaitingOperator(session)]. *)
Definition isAwaitingOperator (session : Session) : bool :=
  match s_condition session with
  | CondAI => false
  | CondHuman =>
      match nth_error (s_messages session) (length (s_messages session) - 1) with
      | Some last => Role_eqb (m_role last) user
      | None => false
      end
  end.

(* ------------------------------------------------------------------ *)
(** ** Requests, the environment and responses *)

(** [req.query]: the fields the routes read.  [q_after] is the number
    [Number(req.query.after || 0)] the polling route computes from the
    query text. *)
Record Query : Type := mkQuery {
  q_sessionId : jsval;
  q_session : jsval;
  q_mode : jsval;
  q_after : jsnum
}.

(** The parsed JSON body: the fields the routes read. *)
Record Body : Type := mkBody {
  b_sessionId : jsval;
  b_session : jsval;
  b_text : jsval
}.

(** [req]; [body] is [None] when [req.body] is undefined. *)
Record Req : Type := mkReq {
  query : Query;
  body : option Body
}.

(** The request body sent to the remote model: [contents] with the role
    ['user'] or ['model'] and the text of each part, and the system
    instruction (part_000). *)
Inductive GeminiRole : Type := g_user | g_model.

Record GeminiRequest : Type := mkGeminiRequest {
  g_key : jsstring;
  g_contents : list (GeminiRole * jsval);
  g_systemInstruction : option jsstring
}.

(** What [fetch] and the reading of its response come to:
    the promise rejects or the reading throws; the status is not ok and
    [r.text()] is [txt]; or the status is ok and
    [data?.candidates?.[0]?.content?.parts?.[0]?.text?.trim()] is
    [extracted] ([None] for undefined). *)
Inductive FetchOutcome : Type :=
| FetchThrows
| FetchNotOk (status : Z) (txt : jsstring)
| FetchOk (extracted : option jsstring).

(** What a handler can throw. *)
Inductive Exn : Type :=
| TypeError
| GeminiHTTP (status : Z) (txt : jsstring)
| FetchFailure.

(** The process environment, the constant [DEFAULT_SYSTEM_PROMPT] that
    part_000 computes from it at start-up, and the built-in
    [String.prototype.toUpperCase] the session route relies on. *)
Record Env : Type := mkEnv {
  SESSION_MODE : option jsstring;
  GEMINI_API_KEY : option jsstring;
  DEFAULT_SYSTEM_PROMPT : option jsstring;
  toUpperCase : jsstring -> jsstring
}.

(** What the outside world answers during one run of a handler:
    [nanoid(10)], [Math.random()], the clock at the first and at the second
    [new Date()], and the remote model. *)
Record Oracle : Type := mkOracle {
  nanoid : jsstring;
  random : Q;
  now : isotime;
  later : isotime;
  fetch : GeminiRequest -> FetchOutcome
}.

(** One call of the responder adapter [askGemini(prompt, history,
    systemPrompt)], as the chat route issues it. *)
Record AdapterCall : Type := mkCall {
  call_prompt : jsval;
  call_history : list Message;
  call_systemPrompt : option jsstring
}.

(** The [error] texts of the routes: 'sessionId y text son requeridos',
    'Sesión no encontrada', 'La sesión no es humana', 'Texto requerido' and
    'Error procesando el mensaje'. *)
Inductive ErrorText : Type :=
| sessionId_y_text_son_requeridos
| Sesion_no_encontrada
| La_sesion_no_es_humana
| Texto_requerido
| Error_procesando_el_mensaje.

(** An entry of the operator inbox. *)
Record InboxItem : Type := mkInboxItem {
  sessionId : jsstring;
  lastUserText : jsstring;
  lastAt : isotime
}.

(** What a route sends: [res.json(...)], [res.status(n).json({ error })], or
    nothing of its own when an exception leaves the handler uncaught. *)
Inductive Response : Type :=
| RespSession (sessionId : jsstring) (condition : Condition)
| RespReply (reply : jsstring) (replyIndex : option Z) (queued : bool)
| RespQueued (queued : bool)
| RespItems (items : list Message) (awaitingOperator : bool)
| RespInbox (items : list InboxItem)
| RespOk (ok : bool)
| RespError (status : Z) (error : ErrorText)
| Uncaught (e : Exn).

(** The result of one run: the response, the store afterwards and the calls
    of the responder adapter the run made, in order. *)
Record Run : Type := mkRun {
  response : Response;
  store : Store;
  calls : list AdapterCall
}.

(** The error taxonomy of the specification, read off status and text. *)
Inductive SpecError : Type :=
| MissingFields | NotFound | InvalidState | InvalidInput | Internal.

Definition spec_error (r : Response) : option SpecError :=
  match r with
  | RespError 400 sessionId_y_text_son_requeridos => Some MissingFields
  | RespError 404 Sesion_no_encontrada => Some NotFound
  | RespError 400 La_sesion_no_es_humana => Some InvalidState
  | RespError 400 Texto_requerido => Some InvalidInput
  | RespError 500 Error_procesando_el_mensaje => Some Internal
  | _ => None
  end.

(* ------------------------------------------------------------------ *)
(** ** Routes both revisions share *)

(** [const getSid = (req) => req.query.sessionId || req.query.session ||
    (req.body && (req.body.sessionId || req.body.session))]. *)
Definition getSid (req : Req) : jsval :=
  js_or (q_sessionId (query req))
    (js_or (q_session (query req))
       (match body req with
        | None => JUndefined
        | Some b => js_or (b_sessionId b) (b_session b)
        end)).

(** [const { text } = req.body || {}]. *)
Definition body_text (req : Req) : jsval :=
  match body req with
  | None => JUndefined
  | Some b => b_text b
  end.

(** [const { sessionId } = req.body || {}]. *)
Definition body_sessionId (req : Req) : jsval :=
  match body req with
  | None => JUndefined
  | Some b => b_sessionId b
  end.

(** [s.messages.filter((m) => m.i > a)]. *)
Definition since (s : Session) (a : jsnum) : list Message :=
  filter (fun m => num_gt (m_i m) a) (s_messages s).

(** [app.get('/api/messages')]. *)
Definition get_messages (req : Req) (st : Store) : Run :=
  let sessionId := getSid req in
  let a := q_after (query req) in
  match sessions_get st sessionId with
  | None => mkRun (RespError 404 Sesion_no_encontrada) st []
  | Some (_, s) =>
      let news := since s a in
      mkRun (RespItems news (isAwaitingOperator s)) st []
  end.

(** The comparator [(a, b) => new Date(b.lastAt) - new Date(a.lastAt)]. *)
Definition compare_lastAt (a b : InboxItem) : Z := lastAt b - lastAt a.

(** [items.sort(compare)]: the sort is stable, an item moves behind another
    only when the comparator is positive. *)
Fixpoint sort_insert (x : InboxItem) (l : list InboxItem) : list InboxItem :=
  match l with
  | [] => [x]
  | y :: l' => if 0 <? compare_lastAt x y then y :: sort_insert x l' else x :: l
  end.

Definition sort_items (l : list InboxItem) : list InboxItem :=
  fold_right sort_insert [] l.

(** [[...s.messages].reverse().find((m) => m.role === 'user')]. *)
Definition lastUser (s : Session) : option Message :=
  find (fun m => Role_eqb (m_role m) user) (rev (s_messages s)).

(** The item pushed for a session: [lastUser?.text || ''] and
    [lastUser?.t || s.createdAt] (a timestamp text is never empty). *)
Definition inbox_item (s : Session) : InboxItem :=
  {| sessionId := s_id s;
     lastUserText := match lastUser s with
                     | Some m => match m_text m with [] => [] | _ :: _ => m_text m end
                     | None => []
                     end;
     lastAt := match lastUser s with
               | Some m => m_t m
               | None => s_createdAt s
               end |}.

(** The loop [for (const s of sessions.values())] of the inbox route. *)
Fixpoint inbox_loop (ss : list Session) : list InboxItem :=
  match ss with
  | [] => []
  | s :: rest =>
      match s_condition s with
      | CondAI => inbox_loop rest
      | CondHuman =>
          if isAwaitingOperator s then inbox_item s :: inbox_loop rest
          else inbox_loop rest
      end
  end.

(** [app.get('/api/operator/inbox')], past the access gate. *)
Definition get_operator_inbox (st : Store) : Run :=
  let items := inbox_loop (Map_values (sessions st)) in
  mkRun (RespInbox (sort_items items)) st [].

(** [app.post('/api/operator/reply')], past the access gate: it reads
    [sessionId] and [text] from the body alone and has no try/catch. *)
Definition post_operator_reply (o : Oracle) (req : Req) (st : Store) : Run :=
  let sessionId := body_sessionId req in
  let text := body_text req in
  match sessions_get st sessionId with
  | None => mkRun (RespError 404 Sesion_no_encontrada) st []
  | Some (k, s) =>
      match s_condition s with
      | CondAI => mkRun (RespError 400 La_sesion_no_es_humana) st []
      | CondHuman =>
          if negb (truthy text) then mkRun (RespError 400 Texto_requerido) st []
          else
            match to_String text with
            | None => mkRun (Uncaught TypeError) st []
            | Some str =>
                let '(_, s1, g1) := pushMessage s human (slice str 0 2000) (now o) (globalIndex st) in
                let s2 := set_awaitingOperator s1 false in
                mkRun (RespOk true) (commit st k s2 g1) []
            end
      end
  end.

(** [createSession]'s choice of the condition from the mode text. *)
Definition pick (env : Env) (mode : jsstring) (rnd : Q) : Condition :=
  if str_eqb (toUpperCase env mode) (lit "AI") then CondAI
  else if str_eqb (toUpperCase env mode) (lit "HUMAN") then CondHuman
  else if Qlt_bool rnd (1 # 2) then CondAI
  else CondHuman.

(** The mode text of the session route:
    [(req.query.mode || process.env.SESSION_MODE || 'mixed').toString()]. *)
Definition mode_of (env : Env) (req : Req) : option jsstring :=
  to_String
    (js_or (q_mode (query req))
       (js_or (match SESSION_MODE env with Some m => JString m | None => JUndefined end)
          (JString (lit "mixed")))).

(** The reply text [askGemini] returns for an ok response:
    [extracted || 'No obtuve respuesta del modelo.']. *)
Definition reply_or_fallback (extracted : option jsstring) : jsstring :=
  match extracted with
  | Some (c :: r) => c :: r
  | _ => lit "No obtuve respuesta del modelo."
  end.

(** [history.map((h) => ({ role: h.role === 'user' ? 'user' : 'model',
    parts: [{ text: h.text }] }))] followed by the prompt as a user part. *)
Definition contents_of (prompt : jsval) (history : list Message)
  : list (GeminiRole * jsval) :=
  map (fun h => (if Role_eqb (m_role h) user then g_user else g_model,
                 JString (m_text h))) history
  ++ [(g_user, prompt)].

(** The test [!process.env.GEMINI_API_KEY]. *)
Definition api_key (env : Env) : option jsstring :=
  match GEMINI_API_KEY env with
  | Some (c :: r) => Some (c :: r)
  | _ => None
  end.

(** The first characters of both stub replies: the test-tube sign (a
    surrogate pair) and [ (Stub IA) ]; and the quotation mark. *)
Definition stub_marker : jsstring := [55358%N; 56810%N] ++ lit " (Stub IA) ".
Definition quote : jsstring := [34%N].

(** The routes embedded here. *)
Inductive Route : Type :=
| POST_api_session
| POST_api_chat
| GET_api_messages
| GET_api_operator_inbox
| POST_api_operator_reply.

(** What a run of the chat route holds while it awaits the responder: the
    key under which it fetched the session object [s], and the call
    [askGemini(...)] it made. *)
Record Awaiting : Type := mkAwaiting {
  aw_key : jsstring;
  aw_call : AdapterCall
}.

(** How far the chat route gets before the event loop can serve anything
    else: it has answered, or it is suspended at [await askGemini(...)],
    with the store as its push left it. *)
Inductive ChatStep : Type :=
| Answered (run : Run)
| Suspended (st1 : Store) (held : Awaiting).

(* ------------------------------------------------------------------ *)
(** ** src/backend/server.js *)

Module Backend.

(** [function createSession(mode)]. *)
Definition createSession (env : Env) (o : Oracle) (mode : jsstring) (st : Store)
  : Session * Store :=
  let id := nanoid o in
  let s := {| s_id := id;
              s_condition := pick env mode (random o);
              s_createdAt := now o;
              s_systemPrompt := None;
              s_messages := [];
              s_awaitingOperator := false |} in
  (s, {| sessions := Map_set id s (sessions st); globalIndex := globalIndex st |}).

(** [app.post('/api/session')]. *)
Definition post_session (env : Env) (o : Oracle) (req : Req) (st : Store) : Run :=
  match mode_of env req with
  | None => mkRun (Uncaught TypeError) st []
  | Some mode =>
      let '(s, st') := createSession env o mode st in
      mkRun (RespSession (s_id s) (s_condition s)) st' []
  end.

(** The stub reply: the marker, [Me pediste: ], the prompt between quotation
    marks, and the hint to configure the key. *)
Definition stub (prompt : jsstring) : jsstring :=
  stub_marker ++ lit "Me pediste: " ++ quote ++ prompt ++ quote
  ++ lit ". Configura GEMINI_API_KEY para usar Gemini.".

(** [async function askGemini(prompt, history = [])]: the error thrown, or
    the text returned. *)
Definition askGemini (env : Env) (o : Oracle) (prompt : jsval) (history : list Message)
  : Exn + jsstring :=
  match api_key env with
  | None =>
      match to_String prompt with
      | Some p => inr (stub p)
      | None => inl TypeError
      end
  | Some apiKey =>
      match fetch o {| g_key := apiKey;
                       g_contents := contents_of prompt history;
                       g_systemInstruction := None |} with
      | FetchThrows => inl FetchFailure
      | FetchNotOk status txt => inl (GeminiHTTP status txt)
      | FetchOk extracted => inr (reply_or_fallback extracted)
      end
  end.

(** [app.post('/api/chat')] up to [await askGemini(text, history)]:
    everything runs inside [try], and [catch] answers 500. *)
Definition post_chat_begin (env : Env) (o : Oracle) (req : Req) (st : Store) : ChatStep :=
  let sessionId := getSid req in
  let text := body_text req in
  if negb (truthy sessionId) || negb (truthy text)
  then Answered (mkRun (RespError 400 sessionId_y_text_son_requeridos) st [])
  else
    match sessions_get st sessionId with
    | None => Answered (mkRun (RespError 404 Sesion_no_encontrada) st [])
    | Some (k, s) =>
        match to_String text with
        | None => Answered (mkRun (RespError 500 Error_procesando_el_mensaje) st [])
        | Some str =>
            let '(_, s1, g1) := pushMessage s user (slice str 0 2000) (now o) (globalIndex st) in
            match s_condition s1 with
            | CondAI =>
                let history := filter (fun m => negb (Role_eqb (m_role m) ai)) (s_messages s1) in
                Suspended (commit st k s1 g1) (mkAwaiting k (mkCall text history None))
            | CondHuman =>
                let s2 := set_awaitingOperator s1 true in
                Answered (mkRun (RespQueued true) (commit st k s2 g1) [])
            end
        end
    end.

(** The route from the moment the awaited call settles: [askGemini] is given
    the arguments of the call the run holds; [st] is the store at that
    moment; [s] is the session object the run fetched, in its state at that
    moment, when it is still the object in the Map, and [None] when a later
    [sessions.set] has put another object under its key (the push then
    reaches an object outside the Map, and the counter). *)
Definition post_chat_resume (env : Env) (o : Oracle) (held : Awaiting)
    (s : option Session) (st : Store) : Run :=
  let call := aw_call held in
  match askGemini env o (call_prompt call) (call_history call) with
  | inl _ => mkRun (RespError 500 Error_procesando_el_mensaje) st [call]
  | inr reply =>
      match s with
      | Some s =>
          let '(_, s2, g2) := pushMessage s ai reply (later o) (globalIndex st) in
          mkRun (RespReply reply None false) (commit st (aw_key held) s2 g2) [call]
      | None =>
          mkRun (RespReply reply None false)
            {| sessions := sessions st; globalIndex := globalIndex st + 1 |} [call]
      end
  end.

(** The run of the route when no other request is served while it awaits. *)
Definition post_chat (env : Env) (o : Oracle) (req : Req) (st : Store) : Run :=
  match post_chat_begin env o req st with
  | Answered run => run
  | Suspended st1 held =>
      post_chat_resume env o held (Map_get (aw_key held) (sessions st1)) st1
  end.

Definition handle (r : Route) (env : Env) (o : Oracle) (req : Req) (st : Store) : Run :=
  match r with
  | POST_api_session => post_session env o req st
  | POST_api_chat => post_chat env o req st
  | GET_api_messages => get_messages req st
  | GET_api_operator_inbox => get_operator_inbox st
  | POST_api_operator_reply => post_operator_reply o req st
  end.

End Backend.

(* ------------------------------------------------------------------ *)
(** ** src/unnamed/part_000: the revision with a system prompt *)

Module Part000.

(** [function createSession(mode)]: the session also records
    [systemPrompt: DEFAULT_SYSTEM_PROMPT]. *)
Definition createSession (env : Env) (o : Oracle) (mode : jsstring) (st : Store)
  : Session * Store :=
  let id := nanoid o in
  let s := {| s_id := id;
              s_condition := pick env mode (random o);
              s_createdAt := now o;
              s_systemPrompt := DEFAULT_SYSTEM_PROMPT env;
              s_messages := [];
              s_awaitingOperator := false |} in
  (s, {| sessions := Map_set id s (sessions st); globalIndex := globalIndex st |}).

(** [app.post('/api/session')]. *)
Definition post_session (env : Env) (o : Oracle) (req : Req) (st : Store) : Run :=
  match mode_of env req with
  | None => mkRun (Uncaught TypeError) st []
  | Some mode =>
      let '(s, st') := createSession env o mode st in
      mkRun (RespSession (s_id s) (s_condition s)) st' []
  end.

(** [systemPrompt || x] and the test [if (systemPrompt)]. *)
Definition nonempty (systemPrompt : option jsstring) : option jsstring :=
  match systemPrompt with
  | Some (c :: r) => Some (c :: r)
  | _ => None
  end.

(** The stub reply: the marker, [[system=], the system prompt or a dash
    between quotation marks, [] ], and the prompt. *)
Definition stub (systemPrompt : option jsstring) (prompt : jsstring) : jsstring :=
  stub_marker ++ lit "[system=" ++ quote
  ++ match nonempty systemPrompt with Some sp => sp | None => [8212%N] end
  ++ quote ++ lit "] " ++ prompt.

(** [async function askGemini(prompt, history = [], systemPrompt = null)]. *)
Definition askGemini (env : Env) (o : Oracle) (prompt : jsval) (history : list Message)
    (systemPrompt : option jsstring) : Exn + jsstring :=
  match api_key env with
  | None =>
      match to_String prompt with
      | Some p => inr (stub systemPrompt p)
      | None => inl TypeError
      end
  | Some apiKey =>
      match fetch o {| g_key := apiKey;
                       g_contents := contents_of prompt history;
                       g_systemInstruction := nonempty systemPrompt |} with
      | FetchThrows => inl FetchFailure
      | FetchNotOk status txt => inl (GeminiHTTP status txt)
      | FetchOk extracted => inr (reply_or_fallback extracted)
      end
  end.

(** [app.post('/api/chat')] up to [await askGemini(text, history,
    s.systemPrompt)]. *)
Definition post_chat_begin (env : Env) (o : Oracle) (req : Req) (st : Store) : ChatStep :=
  let sessionId := getSid req in
  let text := body_text req in
  if negb (truthy sessionId) || negb (truthy text)
  then Answered (mkRun (RespError 400 sessionId_y_text_son_requeridos) st [])
  else
    match sessions_get st sessionId with
    | None => Answered (mkRun (RespError 404 Sesion_no_encontrada) st [])
    | Some (k, s) =>
        match to_String text with
        | None => Answered (mkRun (RespError 500 Error_procesando_el_mensaje) st [])
        | Some str =>
            let '(_, s1, g1) := pushMessage s user (slice str 0 2000) (now o) (globalIndex st) in
            match s_condition s1 with
            | CondAI =>
                let history := filter (fun m => negb (Role_eqb (m_role m) ai)) (s_messages s1) in
                Suspended (commit st k s1 g1)
                  (mkAwaiting k (mkCall text history (s_systemPrompt s1)))
            | CondHuman =>
                let s2 := set_awaitingOperator s1 true in
                Answered (mkRun (RespQueued true) (commit st k s2 g1) [])
            end
        end
    end.

(** The route from the moment the awaited call settles, as in
    backend/server.js, with the sequence number of the reply returned. *)
Definition post_chat_resume (env : Env) (o : Oracle) (held : Awaiting)
    (s : option Session) (st : Store) : Run :=
  let call := aw_call held in
  match askGemini env o (call_prompt call) (call_history call) (call_systemPrompt call) with
  | inl _ => mkRun (RespError 500 Error_procesando_el_mensaje) st [call]
  | inr reply =>
      match s with
      | Some s =>
          let '(msg, s2, g2) := pushMessage s ai reply (later o) (globalIndex st) in
          mkRun (RespReply reply (Some (m_i msg)) false) (commit st (aw_key held) s2 g2) [call]
      | None =>
          mkRun (RespReply reply (Some (globalIndex st + 1)) false)
            {| sessions := sessions st; globalIndex := globalIndex st + 1 |} [call]
      end
  end.

(** The run of the route when no other request is served while it awaits. *)
Definition post_chat (env : Env) (o : Oracle) (req : Req) (st : Store) : Run :=
  match post_chat_begin env o req st with
  | Answered run => run
  | Suspended st1 held =>
      post_chat_resume env o held (Map_get (aw_key held) (sessions st1)) st1
  end.

Definition handle (r : Route) (env : Env) (o : Oracle) (req : Req) (st : Store) : Run :=
  match r with
  | POST_api_session => post_session env o req st
  | POST_api_chat => post_chat env o req st
  | GET_api_messages => get_messages req st
  | GET_api_operator_inbox => get_operator_inbox st
  | POST_api_operator_reply => post_operator_reply o req st
  end.

End Part000.

(* ------------------------------------------------------------------ *)
(** ** Runs of the server *)

(** The two revisions of the server, and the dispatch of each. *)
Inductive Revision : Type := backend_server_js | unnamed_part_000.

Definition serve (rev : Revision) : Route -> Env -> Oracle -> Req -> Store -> Run :=
  match rev with
  | backend_server_js => Backend.handle
  | unnamed_part_000 => Part000.handle
  end.

(** The responder adapter of a revision, with the arguments the chat route
    gives it (backend/server.js passes no system prompt). *)
Definition adapter (rev : Revision) (env : Env) (o : Oracle) (prompt : jsval)
    (history : list Message) (systemPrompt : option jsstring) : Exn + jsstring :=
  match rev with
  | backend_server_js => Backend.askGemini env o prompt history
  | unnamed_part_000 => Part000.askGemini env o prompt history systemPrompt
  end.

(** The two segments of the chat route of a revision. *)
Definition chat_begin (rev : Revision) : Env -> Oracle -> Req -> Store -> ChatStep :=
  match rev with
  | backend_server_js => Backend.post_chat_begin
  | unnamed_part_000 => Part000.post_chat_begin
  end.

Definition chat_resume (rev : Revision)
  : Env -> Oracle -> Awaiting -> option Session -> Store -> Run :=
  match rev with
  | backend_server_js => Backend.post_chat_resume
  | unnamed_part_000 => Part000.post_chat_resume
  end.

(** A suspended run of the chat route: the world it runs in, what it holds,
    and whether the session object it holds is still the one in the Map. *)
Record Waiting : Type := mkWaiting {
  wt_oracle : Oracle;
  wt_held : Awaiting;
  wt_attached : bool
}.

(** The server between two turns of the event loop: the store and the runs
    of the chat route that are suspended, the latest first. *)
Record World : Type := mkWorld {
  w_store : Store;
  w_waiting : list Waiting
}.

Definition initial_world : World := {| w_store := initial_store; w_waiting := [] |}.

(** A turn of the event loop: a request arrives and its handler runs to its
    end or to its await, or the [n]-th suspended run resumes. *)
Inductive Event : Type :=
| Request (r : Route) (o : Oracle) (req : Req)
| Resume (n : nat).

(** [sessions.set(id, s)] leaves the runs that hold the object stored under
    [id] before with an object that is no longer in the Map. *)
Definition detach (id : jsstring) (ws : list Waiting) : list Waiting :=
  map (fun wt =>
         if jsstring_eq_dec (aw_key (wt_held wt)) id
         then mkWaiting (wt_oracle wt) (wt_held wt) false
         else wt) ws.

(** The session object a suspended run holds, as the store has it now. *)
Definition held_now (st : Store) (wt : Waiting) : option Session :=
  if wt_attached wt then Map_get (aw_key (wt_held wt)) (sessions st) else None.

Definition remove_nth {A : Type} (n : nat) (l : list A) : list A :=
  firstn n l ++ skipn (S n) l.

(** One turn of the event loop. *)
Definition step (rev : Revision) (env : Env) (e : Event) (w : World) : World :=
  match e with
  | Request POST_api_chat o req =>
      match chat_begin rev env o req (w_store w) with
      | Answered run => mkWorld (store run) (w_waiting w)
      | Suspended st1 held => mkWorld st1 (mkWaiting o held true :: w_waiting w)
      end
  | Request POST_api_session o req =>
      let run := serve rev POST_api_session env o req (w_store w) in
      mkWorld (store run)
        (match response run with
         | RespSession id _ => detach id (w_waiting w)
         | _ => w_waiting w
         end)
  | Request r o req =>
      mkWorld (store (serve rev r env o req (w_store w))) (w_waiting w)
  | Resume n =>
      match nth_error (w_waiting w) n with
      | None => w
      | Some wt =>
          mkWorld
            (store (chat_resume rev env (wt_oracle wt) (wt_held wt)
                      (held_now (w_store w) wt) (w_store w)))
            (remove_nth n (w_waiting w))
      end
  end.

(** The worlds the server can be in when requests overlap: the world at
    start-up, and the world after any turn from such a world.  Every order
    of turns is taken; the event loop takes some of them only (with no API
    key [askGemini] settles at once and its run resumes before another
    request is served), so what holds of all these worlds holds of the
    server's. *)
Inductive overlapping (rev : Revision) (env : Env) : World -> Prop :=
| over_start : overlapping rev env initial_world
| over_step : forall e w, overlapping rev env w -> overlapping rev env (step rev env e w).

(** The world after a list of turns. *)
Definition steps (rev : Revision) (env : Env) (es : list Event) (w : World) : World :=
  fold_left (fun w e => step rev env e w) es w.

(** The system prompt the chat route of a revision hands to the adapter, and
    the sequence number it returns with the reply. *)
Definition prompt_passed (rev : Revision) (s : Session) : option jsstring :=
  match rev with
  | backend_server_js => None
  | unnamed_part_000 => s_systemPrompt s
  end.

Definition index_returned (rev : Revision) (i : Z) : option Z :=
  match rev with
  | backend_server_js => None
  | unnamed_part_000 => Some i
  end.

(** The stores a server can be in: the store at start-up, and the store
    after any route has run on such a store. *)
Inductive reachable (rev : Revision) (env : Env) : Store -> Prop :=
| reach_start : reachable rev env initial_store
| reach_route : forall st r o req,
    reachable rev env st -> reachable rev env (store (serve rev r env o req st)).

(** All messages of all sessions of a store. *)
Definition all_messages (st : Store) : list Message :=
  flat_map s_messages (Map_values (sessions st)).

(** The rule the specification gives for the operator-pending flag, in its
    own words: the session is Human-conditioned, its log is not empty and
    the last message of the log has role user. *)
Definition awaiting_rule (s : Session) : Prop :=
  s_condition s = CondHuman /\
  s_messages s <> [] /\
  exists earlier last, s_messages s = earlier ++ [last] /\ m_role last = user.

(** [i > a] and [i <= a] as propositions. *)
Definition above (i : Z) (a : jsnum) : Prop :=
  match a with
  | JNum q => (q < inject_Z i)%Q
  | JNegInf => True
  | JNaN | JPosInf => False
  end.

Definition at_most (i : Z) (a : jsnum) : Prop :=
  match a with
  | JNum q => (inject_Z i <= q)%Q
  | JPosInf => True
  | JNaN | JNegInf => False
  end.

(** [m] is the most recent message of role user in the log of [s]. *)
Definition most_recent_user (s : Session) (m : Message) : Prop :=
  exists before after,
    s_messages s = before ++ m :: after /\
    m_role m = user /\
    Forall (fun x => m_role x <> user) after.

(** The sessions the inbox is to list, in the words of the specification:
    the condition is Human and the stored flag is true. *)
Definition pending (s : Session) : bool :=
  match s_condition s with
  | CondHuman => s_awaitingOperator s
  | CondAI => false
  end.

(** Entries in descending order of [lastAt]. *)
Definition descending (items : list InboxItem) : Prop :=
  StronglySorted (fun a b => lastAt b <= lastAt a) items.

(* ------------------------------------------------------------------ *)
(** ** Invariants of the store *)

(** What holds of a message log when the counter is [g]: the sequence
    numbers are positive, at most [g] and strictly increasing in append
    order, and a text that came in through a request is at most 2000 code
    units long. *)
Definition log_ok (g : Z) (l : list Message) : Prop :=
  Forall (fun m => 0 < m_i m <= g) l /\
  StronglySorted (fun a b => m_i a < m_i b) l /\
  Forall (fun m => m_role m <> ai -> (length (m_text m) <= 2000)%nat) l.

Definition session_ok (g : Z) (s : Session) : Prop :=
  log_ok g (s_messages s) /\
  s_awaitingOperator s = isAwaitingOperator s.

Definition store_ok (st : Store) : Prop :=
  0 <= globalIndex st /\
  Forall (session_ok (globalIndex st)) (Map_values (sessions st)).

(** How a route leaves the flag of the session it pushed a message to:
    the chat route sets it on a Human session and does not touch it on an AI
    session; the reply route clears it. *)
Definition flag_written (s : Session) (role : Role) (b : bool) : Prop :=
  match s_condition s, role with
  | CondHuman, user => b = true
  | CondHuman, human => b = false
  | CondAI, user | CondAI, ai => b = s_awaitingOperator s
  | _, _ => False
  end.

(** One mutation of the store by a route: a fresh session is put in the Map,
    or one message is pushed to a stored session. *)
Inductive mutation (st : Store) : Store -> Prop :=
| mut_set : forall s,
    s_messages s = [] -> s_awaitingOperator s = false ->
    mutation st {| sessions := Map_set (s_id s) s (sessions st);
                   globalIndex := globalIndex st |}
| mut_push : forall k s role text t b,
    Map_get k (sessions st) = Some s ->
    (role <> ai -> (length text <= 2000)%nat) ->
    flag_written s role b ->
    mutation st
      (commit st k
         (set_awaitingOperator (push s (mkMessage (globalIndex st + 1) role text t)) b)
         (globalIndex st + 1)).

Inductive mutations : Store -> Store -> Prop :=
| muts_none : forall st, mutations st st
| muts_more : forall st mid st',
    mutation st mid -> mutations mid st' -> mutations st st'.

(* ------------------------------------------------------------------ *)
(** ** A concrete environment and concrete runs *)

Definition ascii_upper (s : jsstring) : jsstring :=
  map (fun c => if ((97 <=? c) && (c <=? 122))%N then (c - 32)%N else c) s.

(** No remote credential, no default mode, no system prompt. *)
Definition env0 : Env :=
  {| SESSION_MODE := None; GEMINI_API_KEY := None; DEFAULT_SYSTEM_PROMPT := None;
     toUpperCase := ascii_upper |}.

(** A remote credential is configured. *)
Definition env_remote : Env :=
  {| SESSION_MODE := None; GEMINI_API_KEY := Some (lit "key");
     DEFAULT_SYSTEM_PROMPT := None; toUpperCase := ascii_upper |}.

(** The world answers [id] for the identifier, the clock reads [t] and then
    [t + 1], and the remote model is out of reach. *)
Definition world (id : string) (t : Z) : Oracle :=
  {| nanoid := lit id; random := 0; now := t; later := t + 1;
     fetch := fun _ => FetchThrows |}.

Definition req_session (mode : string) : Req :=
  mkReq (mkQuery JUndefined JUndefined (JString (lit mode)) (JNum 0)) None.

Definition req_text (sid : string) (text : jsval) : Req :=
  mkReq (mkQuery JUndefined JUndefined JUndefined (JNum 0))
        (Some (mkBody (JString (lit sid)) JUndefined text)).

Definition req_poll (sid : string) (after : jsnum) : Req :=
  mkReq (mkQuery (JString (lit sid)) JUndefined JUndefined after) None.

(** A Human session [h1] and an AI session [a1] are created, then the user
    of [h1] says hola. *)
Definition store_1 (rev : Revision) : Store :=
  store (serve rev POST_api_session env0 (world "h1" 100) (req_session "human") initial_store).

Definition store_2 (rev : Revision) : Store :=
  store (serve rev POST_api_session env0 (world "a1" 101) (req_session "ai") (store_1 rev)).

Definition store_3 (rev : Revision) : Store :=
  store (serve rev POST_api_chat env0 (world "" 102)
           (req_text "h1" (JString (lit "hola"))) (store_2 rev)).

(** Then the user of [a1] sends 2000 times the letter a. *)
Definition long_text : jsstring := repeat 97%N 2000.

Definition store_4 (rev : Revision) : Store :=
  store (serve rev POST_api_chat env0 (world "" 104)
           (req_text "a1" (JString long_text)) (store_3 rev)).

(** The chat route gets past its checks: the request names the stored
    session [s] under key [k] and carries a text whose string form is
    [str]. *)
Definition chat_accepts (st : Store) (req : Req) (k : jsstring) (s : Session)
    (str : jsstring) : Prop :=
  truthy (getSid req) = true /\
  truthy (body_text req) = true /\
  sessions_get st (getSid req) = Some (k, s) /\
  to_String (body_text req) = Some str.

(** The sessions of [store_2] and [store_3]. *)
Definition session_h1_idle : Session :=
  mkSession (lit "h1") CondHuman 100 None [] false.

Definition session_h1 : Session :=
  mkSession (lit "h1") CondHuman 100 None [mkMessage 1 user (lit "hola") 102] true.

Definition session_a1 : Session :=
  mkSession (lit "a1") CondAI 101 None [] false.

(** The remote model answers 503. *)
Definition world_503 : Oracle :=
  {| nanoid := []; random := 0; now := 200; later := 201;
     fetch := fun _ => FetchNotOk 503 (lit "unavailable") |}.

(* ------------------------------------------------------------------ *)
(** ** The access gate *)

(** [str.split(sep)] for a separator of one code unit. *)
Fixpoint split (sep : code_unit) (str : jsstring) : list jsstring :=
  match str with
  | [] => [[]]
  | c :: r =>
      if N.eqb c sep then [] :: split sep r
      else
        match split sep r with
        | p :: ps => (c :: p) :: ps
        | [] => [[c]]
        end
  end.

(** [process.env.X || null]: an unset or empty variable gives null. *)
Definition or_null (v : option jsstring) : option jsstring :=
  match v with
  | Some (c :: r) => Some (c :: r)
  | _ => None
  end.

(** The credentials of the process environment. *)
Record AuthEnv : Type := mkAuthEnv {
  BASIC_AUTH_USER : option jsstring;
  BASIC_AUTH_PASS : option jsstring
}.

(** What the gate does: [next()], or status 401 with one of its two texts,
    'Auth requerida' and 'Credenciales inválidas'. *)
Inductive Gate : Type :=
| next
| Auth_requerida
| Credenciales_invalidas.

(** The space and the colon. *)
Definition space : code_unit := 32%N.
Definition colon : code_unit := 58%N.

(** [function requireBasicAuth(req, res, next)].  [authorization] is
    [req.headers.authorization]; [decode b64] stands for the built-in
    [Buffer.from(b64, 'base64').toString()]. *)
Definition requireBasicAuth (decode : jsstring -> jsstring) (aenv : AuthEnv)
    (authorization : option jsstring) : Gate :=
  match or_null (BASIC_AUTH_USER aenv), or_null (BASIC_AUTH_PASS aenv) with
  | Some BASIC_USER, Some BASIC_PASS =>
      let header := match authorization with Some h => h | None => [] end in
      let parts := split space header in
      let type := nth_error parts 0 in
      let b64 := nth_error parts 1 in
      match type, b64 with
      | Some ty, Some (c :: r) =>
          if str_eqb ty (lit "Basic") then
            let fields := split colon (decode (c :: r)) in
            match nth_error fields 0, nth_error fields 1 with
            | Some u, Some p =>
                if str_eqb u BASIC_USER && str_eqb p BASIC_PASS then next
                else Credenciales_invalidas
            | _, _ => Credenciales_invalidas
            end
          else Auth_requerida
      | _, _ => Auth_requerida
      end
  | _, _ => next
  end.

(* ------------------------------------------------------------------ *)
(** ** The read-only views *)

(** A row of [/api/_debug/sessions]. *)
Record DebugRow : Type := mkDebugRow {
  d_id : jsstring;
  d_condition : Condition;
  d_msgs : nat;
  d_awaitingOperator : bool
}.

(** What a view sends. *)
Inductive View : Type :=
| ViewDebrief (sessionId : jsstring) (condition : Condition) (createdAt : isotime)
    (transcript : list Message)
| ViewMessages (sessionId : jsstring) (messages : list Message) (condition : Condition)
| ViewDebug (rows : list DebugRow)
| ViewNotFound.

(** [app.get('/debrief/:id')]; [id] is [req.params.id]. *)
Definition get_debrief (id : jsstring) (st : Store) : View :=
  match Map_get id (sessions st) with
  | None => ViewNotFound
  | Some s => ViewDebrief (s_id s) (s_condition s) (s_createdAt s) (s_messages s)
  end.

(** [app.get('/api/operator/messages')], past the access gate: it reads
    [sessionId] from the query alone. *)
Definition get_operator_messages (req : Req) (st : Store) : View :=
  match sessions_get st (q_sessionId (query req)) with
  | None => ViewNotFound
  | Some (_, s) => ViewMessages (s_id s) (s_messages s) (s_condition s)
  end.

(** [app.get('/api/_debug/sessions')]. *)
Definition get_debug_sessions (st : Store) : View :=
  ViewDebug
    (map (fun s => {| d_id := s_id s;
                      d_condition := s_condition s;
                      d_msgs := length (s_messages s);
                      d_awaitingOperator := s_awaitingOperator s |})
       (Map_values (sessions st))).

(* ------------------------------------------------------------------ *)
(** ** More about the store *)

(** The keys of the Map are distinct and each session is stored under its
    own id. *)
Definition keys_ok (st : Store) : Prop :=
  NoDup (map fst (sessions st)) /\
  Forall (fun ks => s_id (snd ks) = fst ks) (sessions st).

(** The request the adapter of a revision sends to the remote model for a
    prompt, a history and a system prompt, under the key [apiKey]. *)
Definition remote_request (rev : Revision) (apiKey : jsstring) (prompt : jsval)
    (history : list Message) (systemPrompt : option jsstring) : GeminiRequest :=
  {| g_key := apiKey;
     g_contents := contents_of prompt history;
     g_systemInstruction :=
       match rev with
       | backend_server_js => None
       | unnamed_part_000 => Part000.nonempty systemPrompt
       end |}.

(** [sub] occurs in [str]. *)
Definition occurs_in (sub str : jsstring) : Prop :=
  exists before after, str = before ++ sub ++ after.

(** A gate with credentials, and a stand-in for the decoder that returns
    its argument. *)
Definition auth0 : AuthEnv :=
  {| BASIC_AUTH_USER := Some (lit "ana"); BASIC_AUTH_PASS := Some (lit "clave") |}.

Definition auth_colon : AuthEnv :=
  {| BASIC_AUTH_USER := Some (lit "ana"); BASIC_AUTH_PASS := Some (lit "cla:ve") |}.

Definition plain (b64 : jsstring) : jsstring := b64.

(** The first two pieces of [str.split(sep)] are [a] and [b]: in the words
    of the text itself, [str] is [a], the separator, [b], and then nothing or
    the separator and anything. *)
Definition first_two (sep : code_unit) (str a b : jsstring) : Prop :=
  exists tail,
    str = a ++ sep :: b ++ tail /\
    ~ In sep a /\ ~ In sep b /\
    (tail = [] \/ exists t, tail = sep :: t).

(** The session [s'] is the session [s] with the messages [news] pushed:
    the id, the condition, the creation time and the system prompt are the
    same and the log is the old log followed by [news]. *)
Definition extends (s s' : Session) (news : list Message) : Prop :=
  s_id s' = s_id s /\
  s_condition s' = s_condition s /\
  s_createdAt s' = s_createdAt s /\
  s_systemPrompt s' = s_systemPrompt s /\
  s_messages s' = s_messages s ++ news.

(** The session [createSession] builds in a revision. *)
Definition fresh_session (rev : Revision) (env : Env) (o : Oracle) (mode : jsstring)
  : Session :=
  {| s_id := nanoid o;
     s_condition := pick env mode (random o);
     s_createdAt := now o;
     s_systemPrompt := match rev with
                       | backend_server_js => None
                       | unnamed_part_000 => DEFAULT_SYSTEM_PROMPT env
                       end;
     s_messages := [];
     s_awaitingOperator := false |}.

(* ------------------------------------------------------------------ *)
(** ** Overlapping requests *)

(** What holds of a world: the store is well formed, and a suspended run
    whose session object is still in the Map holds an AI-conditioned
    session stored under its key. *)
Definition world_ok (w : World) : Prop :=
  store_ok (w_store w) /\
  keys_ok (w_store w) /\
  Forall (fun wt =>
            wt_attached wt = true ->
            exists s, Map_get (aw_key (wt_held wt)) (sessions (w_store w)) = Some s /\
                      s_condition s = CondAI)
         (w_waiting w).

(** The remote model answers [text]; the clock reads [t] and later
    [t + 10]. *)
Definition answering (t : Z) (text : string) : Oracle :=
  {| nanoid := []; random := 0; now := t; later := t + 10;
     fetch := fun _ => FetchOk (Some (lit text)) |}.

(** An AI session [a1] is created, and two chats on it arrive one after the
    other before either call of the model has settled. *)
Definition world_two_chats (rev : Revision) : World :=
  steps rev env_remote
    [Request POST_api_session (world "a1" 100) (req_session "ai");
     Request POST_api_chat (answering 101 "uno") (req_text "a1" (JString (lit "A")));
     Request POST_api_chat (answering 102 "dos") (req_text "a1" (JString (lit "B")))]
    initial_world.

(** After [store_3] the user of [a1] says hola and the stub answers. *)
Definition store_5 (rev : Revision) : Store :=
  store (serve rev POST_api_chat env0 (world "" 104)
           (req_text "a1" (JString (lit "hola"))) (store_3 rev)).

Definition session_a1_answered : Session :=
  mkSession (lit "a1") CondAI 101 None
    [mkMessage 2 user (lit "hola") 104;
     mkMessage 3 ai (Backend.stub (lit "hola")) 105] false.

(** After [store_3] two more Human sessions are created; the user of [h2]
    writes at the instant the user of [h1] wrote, the user of [h3] later. *)
Definition store_6 (rev : Revision) : Store :=
  store (serve rev POST_api_chat env0 (world "" 200) (req_text "h3" (JString (lit "urgente")))
    (store (serve rev POST_api_session env0 (world "h3" 150) (req_session "human")
      (store (serve rev POST_api_chat env0 (world "" 102) (req_text "h2" (JString (lit "buenas")))
        (store (serve rev POST_api_session env0 (world "h2" 102) (req_session "human")
          (store_3 rev)))))))).

(* ------------------------------------------------------------------ *)
(** ** The Map *)

Lemma Map_get_In (k : jsstring) (m : list (jsstring * Session)) (v : Session) :
  Map_get k m = Some v -> In v (Map_values m).
Proof.
  induction m as [|[k' v'] m IH]; simpl; [discriminate|].
  destruct (jsstring_eq_dec k k'); intros H.
  - injection H as ->. now left.
  - right. now apply IH.
Qed.

Lemma Map_get_set_same (k : jsstring) (v : Session) (m : list (jsstring * Session)) :
  Map_get k (Map_set k v m) = Some v.
Proof.
  induction m as [|[k' v'] m IH]; simpl.
  - destruct (jsstring_eq_dec k k); congruence.
  - destruct (jsstring_eq_dec k k') as [E|N]; simpl.
    + destruct (jsstring_eq_dec k k); congruence.
    + destruct (jsstring_eq_dec k k'); congruence.
Qed.

Lemma Map_get_set_other (k k' : jsstring) (v : Session) (m : list (jsstring * Session)) :
  k' <> k -> Map_get k' (Map_set k v m) = Map_get k' m.
Proof.
  intros N. induction m as [|[k1 v1] m IH]; simpl.
  - destruct (jsstring_eq_dec k' k); congruence.
  - destruct (jsstring_eq_dec k k1) as [E|N1]; simpl.
    + subst k1. destruct (jsstring_eq_dec k' k); congruence.
    + destruct (jsstring_eq_dec k' k1); congruence.
Qed.

Lemma Map_set_set (k : jsstring) (v w : Session) (m : list (jsstring * Session)) :
  Map_set k w (Map_set k v m) = Map_set k w m.
Proof.
  induction m as [|[k' v'] m IH]; simpl.
  - destruct (jsstring_eq_dec k k); congruence.
  - destruct (jsstring_eq_dec k k') as [E|N]; simpl.
    + destruct (jsstring_eq_dec k k); congruence.
    + destruct (jsstring_eq_dec k k'); [congruence | now rewrite IH].
Qed.

Lemma Map_values_set (k : jsstring) (v : Session) (m : list (jsstring * Session)) (x : Session) :
  In x (Map_values (Map_set k v m)) -> x = v \/ In x (Map_values m).
Proof.
  induction m as [|[k' v'] m IH]; simpl.
  - intros [H|[]]. now left.
  - destruct (jsstring_eq_dec k k'); simpl.
    + intros [H|H]; [now left | right; now right].
    + intros [H|H]; [right; now left|].
      destruct (IH H); [now left | right; now right].
Qed.

(** After [Map_set] on a stored key the values are the old ones, the one
    under the key replaced in place. *)
Lemma Map_values_set_stored (k : jsstring) (s v : Session) (m : list (jsstring * Session)) :
  Map_get k m = Some s ->
  exists front back,
    Map_values m = front ++ s :: back /\
    Map_values (Map_set k v m) = front ++ v :: back.
Proof.
  induction m as [|[k' v'] m IH]; simpl; [discriminate|].
  destruct (jsstring_eq_dec k k'); intros H.
  - injection H as ->. now exists [], (Map_values m).
  - destruct (IH H) as (front & back & E1 & E2).
    exists (v' :: front), back. simpl. now rewrite E1, E2.
Qed.

Lemma Forall_values_set (P : Session -> Prop) (k : jsstring) (v : Session)
    (m : list (jsstring * Session)) :
  Forall P (Map_values m) -> P v -> Forall P (Map_values (Map_set k v m)).
Proof.
  intros H Hv. apply Forall_forall. intros x Hx.
  destruct (Map_values_set _ _ _ _ Hx) as [->|Hin]; [assumption|].
  rewrite Forall_forall in H. now apply H.
Qed.

Lemma commit_commit (st : Store) (k : jsstring) (s1 s2 : Session) (g1 g2 : Z) :
  commit (commit st k s1 g1) k s2 g2 = commit st k s2 g2.
Proof. unfold commit; simpl. now rewrite Map_set_set. Qed.

Lemma sessions_get_Some (st : Store) (v : jsval) (k : jsstring) (s : Session) :
  sessions_get st v = Some (k, s) -> v = JString k /\ Map_get k (sessions st) = Some s.
Proof.
  destruct v as [|k'|]; simpl; try discriminate.
  destruct (Map_get k' (sessions st)) eqn:E; simpl; [|discriminate].
  intros H. injection H as -> ->. now split.
Qed.

(* ------------------------------------------------------------------ *)
(** ** The operator-pending rule *)

Lemma last_cases {A : Type} (l : list A) :
  l = [] \/ exists earlier last, l = earlier ++ [last].
Proof.
  induction l as [|x l _] using rev_ind; [now left | right; now exists l, x].
Qed.

Lemma nth_error_last {A : Type} (l : list A) (x : A) :
  nth_error (l ++ [x]) (length (l ++ [x]) - 1) = Some x.
Proof.
  rewrite length_app; simpl.
  replace (length l + 1 - 1)%nat with (length l) by lia.
  rewrite nth_error_app2 by lia.
  now rewrite Nat.sub_diag.
Qed.

Lemma isAwaitingOperator_push (s : Session) (m : Message) (b : bool) :
  isAwaitingOperator (set_awaitingOperator (push s m) b) =
  match s_condition s with
  | CondAI => false
  | CondHuman => Role_eqb (m_role m) user
  end.
Proof.
  unfold isAwaitingOperator; simpl.
  destruct (s_condition s); [reflexivity|].
  now rewrite nth_error_last.
Qed.

Lemma isAwaitingOperator_empty (s : Session) :
  s_messages s = [] -> isAwaitingOperator s = false.
Proof.
  unfold isAwaitingOperator. intros ->. now destruct (s_condition s).
Qed.

Lemma Role_eqb_eq (a b : Role) : Role_eqb a b = true <-> a = b.
Proof. destruct a, b; simpl; split; congruence. Qed.

Lemma isAwaitingOperator_rule (s : Session) :
  isAwaitingOperator s = true <-> awaiting_rule s.
Proof.
  unfold isAwaitingOperator, awaiting_rule.
  destruct (s_condition s).
  - split; [discriminate | intros [H _]; discriminate].
  - destruct (last_cases (s_messages s)) as [E|(earlier & last & E)]; rewrite E.
    + simpl. split; [discriminate | intros (_ & H & _); now destruct H].
    + rewrite nth_error_last, Role_eqb_eq. split.
      * intros H. split; [reflexivity|]. split; [now destruct earlier|].
        now exists earlier, last.
      * intros (_ & _ & e' & l' & E' & H).
        apply app_inj_tail in E'. destruct E' as [_ <-]. assumption.
Qed.

(* ------------------------------------------------------------------ *)
(** ** The invariant is kept by every mutation *)

Lemma StronglySorted_snoc {A : Type} (R : A -> A -> Prop) (l : list A) (x : A) :
  StronglySorted R l -> Forall (fun a => R a x) l -> StronglySorted R (l ++ [x]).
Proof.
  induction 1 as [|a l Hs IH Ha]; intros Hx; simpl.
  - constructor; constructor.
  - inversion Hx; subst. constructor.
    + now apply IH.
    + apply Forall_app. split; [assumption | now constructor].
Qed.

Lemma log_ok_mono (g g' : Z) (l : list Message) :
  g <= g' -> log_ok g l -> log_ok g' l.
Proof.
  intros Hg (Hb & Hs & Hl). repeat split; try assumption.
  eapply Forall_impl; [|exact Hb]. simpl. intros m Hm. lia.
Qed.

Lemma log_ok_push (g : Z) (l : list Message) (role : Role) (text : jsstring) (t : isotime) :
  0 <= g -> log_ok g l ->
  (role <> ai -> (length text <= 2000)%nat) ->
  log_ok (g + 1) (l ++ [mkMessage (g + 1) role text t]).
Proof.
  intros Hg (Hb & Hs & Hl) Ht. repeat split.
  - apply Forall_app. split.
    + eapply Forall_impl; [|exact Hb]. simpl. intros m Hm. lia.
    + constructor; [simpl; lia | constructor].
  - apply StronglySorted_snoc; [assumption|].
    eapply Forall_impl; [|exact Hb]. simpl. intros m Hm. lia.
  - apply Forall_app. split; [assumption|].
    constructor; [exact Ht | constructor].
Qed.

Lemma session_ok_mono (g g' : Z) (s : Session) :
  g <= g' -> session_ok g s -> session_ok g' s.
Proof. intros Hg [Hl Hf]. split; [eapply log_ok_mono; eassumption | assumption]. Qed.

Lemma stored_ok (st : Store) (k : jsstring) (s : Session) :
  store_ok st -> Map_get k (sessions st) = Some s -> session_ok (globalIndex st) s.
Proof.
  intros [_ H] Hk. rewrite Forall_forall in H. apply H. eapply Map_get_In; eassumption.
Qed.

Lemma mutation_ok (st st' : Store) : store_ok st -> mutation st st' -> store_ok st'.
Proof.
  intros Hok Hm. pose proof Hok as [Hg Hall].
  destruct Hm as [s Hmsgs Hflag | k s role text t b Hk Hlen Hw].
  - split; [assumption|]. simpl. apply Forall_values_set; [assumption|].
    split.
    + rewrite Hmsgs. repeat split; constructor.
    + now rewrite isAwaitingOperator_empty.
  - pose proof (stored_ok _ _ _ Hok Hk) as [Hlog Hf].
    split; simpl; [lia|]. apply Forall_values_set.
    + eapply Forall_impl; [|exact Hall]. intros x. apply session_ok_mono. lia.
    + split.
      * simpl. now apply log_ok_push.
      * rewrite isAwaitingOperator_push. simpl.
        unfold flag_written in Hw. unfold isAwaitingOperator in Hf.
        destruct (s_condition s), role; simpl; congruence || contradiction.
Qed.

Lemma mutations_ok (st st' : Store) : store_ok st -> mutations st st' -> store_ok st'.
Proof.
  intros Hok Hm. induction Hm as [|st mid st' H1 _ IH]; [assumption|].
  apply IH. eapply mutation_ok; eassumption.
Qed.

Lemma initial_store_ok : store_ok initial_store.
Proof. split; simpl; [lia | constructor]. Qed.

(* ------------------------------------------------------------------ *)
(** ** Every route is a sequence of mutations *)

Lemma slice_length (str : jsstring) (n : nat) : (length (slice str 0 n) <= n)%nat.
Proof.
  unfold slice. rewrite Nat.sub_0_r. simpl. apply firstn_le_length.
Qed.

Lemma get_messages_store (req : Req) (st : Store) : store (get_messages req st) = st.
Proof.
  unfold get_messages. destruct (sessions_get st (getSid req)) as [[k s]|]; reflexivity.
Qed.

Lemma post_operator_reply_mutations (o : Oracle) (req : Req) (st : Store) :
  mutations st (store (post_operator_reply o req st)).
Proof.
  unfold post_operator_reply.
  destruct (sessions_get st _) as [[k s]|] eqn:E; [|constructor].
  apply sessions_get_Some in E. destruct E as [_ Hk].
  destruct (s_condition s) eqn:Hc; [constructor|].
  destruct (negb (truthy (body_text req))); [constructor|].
  destruct (to_String (body_text req)) as [str|]; [|constructor].
  simpl. econstructor; [|constructor].
  apply mut_push; [assumption | intros _; apply slice_length |].
  unfold flag_written. now rewrite Hc.
Qed.

Lemma createSession_mutation (s : Session) (st st' : Store) :
  s_messages s = [] -> s_awaitingOperator s = false ->
  st' = {| sessions := Map_set (s_id s) s (sessions st); globalIndex := globalIndex st |} ->
  mutations st st'.
Proof. intros H1 H2 ->. apply muts_more with (1 := mut_set st s H1 H2). constructor. Qed.

Lemma Backend_post_session_mutations (env : Env) (o : Oracle) (req : Req) (st : Store) :
  mutations st (store (Backend.post_session env o req st)).
Proof.
  unfold Backend.post_session. destruct (mode_of env req) as [mode|]; [|constructor].
  apply (createSession_mutation (fst (Backend.createSession env o mode st))); reflexivity.
Qed.

Lemma Part000_post_session_mutations (env : Env) (o : Oracle) (req : Req) (st : Store) :
  mutations st (store (Part000.post_session env o req st)).
Proof.
  unfold Part000.post_session. destruct (mode_of env req) as [mode|]; [|constructor].
  apply (createSession_mutation (fst (Part000.createSession env o mode st))); reflexivity.
Qed.

(** The stores the chat route can end in, told apart by what the adapter
    answered. *)
Lemma chat_mutations (st : Store) (k : jsstring) (s : Session) (str : jsstring)
    (t t' : isotime) (answer : option jsstring) :
  Map_get k (sessions st) = Some s ->
  let g := globalIndex st in
  let s1 := push s (mkMessage (g + 1) user (slice str 0 2000) t) in
  mutations st
    (match s_condition s with
     | CondHuman => commit st k (set_awaitingOperator s1 true) (g + 1)
     | CondAI =>
         match answer with
         | None => commit st k s1 (g + 1)
         | Some reply => commit st k (push s1 (mkMessage (g + 1 + 1) ai reply t')) (g + 1 + 1)
         end
     end).
Proof.
  intros Hk g s1.
  assert (Hu : forall b, flag_written s user b ->
            mutation st (commit st k (set_awaitingOperator s1 b) (g + 1))).
  { intros b Hb. apply mut_push; [assumption | intros _; apply slice_length | assumption]. }
  destruct (s_condition s) eqn:Hc.
  - assert (H1 : mutation st (commit st k s1 (g + 1))).
    { apply (Hu (s_awaitingOperator s)). unfold flag_written. now rewrite Hc. }
    destruct answer as [reply|].
    + econstructor; [exact H1|]. econstructor; [|constructor].
      pose (mid := commit st k s1 (g + 1)).
      replace (commit st k (push s1 (mkMessage (g + 1 + 1) ai reply t')) (g + 1 + 1))
        with (commit mid k
                (set_awaitingOperator
                   (push s1 (mkMessage (globalIndex mid + 1) ai reply t'))
                   (s_awaitingOperator s1))
                (globalIndex mid + 1))
        by (unfold mid; rewrite commit_commit; reflexivity).
      apply mut_push.
      * simpl. apply Map_get_set_same.
      * intros H; now destruct H.
      * unfold flag_written. simpl. now rewrite Hc.
    + econstructor; [exact H1 | constructor].
  - econstructor; [|constructor]. apply Hu. unfold flag_written. now rewrite Hc.
Qed.

(** The chat route on a request that names a stored session and carries a
    text: the run, case by case. *)
Lemma chat_run (rev : Revision) (env : Env) (o : Oracle) (req : Req) (st : Store)
    (k : jsstring) (s : Session) (str : jsstring) :
  truthy (getSid req) = true ->
  truthy (body_text req) = true ->
  sessions_get st (getSid req) = Some (k, s) ->
  to_String (body_text req) = Some str ->
  let g := globalIndex st in
  let s1 := push s (mkMessage (g + 1) user (slice str 0 2000) (now o)) in
  let history := filter (fun m => negb (Role_eqb (m_role m) ai)) (s_messages s1) in
  let call := mkCall (body_text req) history (prompt_passed rev s) in
  serve rev POST_api_chat env o req st =
  match s_condition s with
  | CondHuman => mkRun (RespQueued true) (commit st k (set_awaitingOperator s1 true) (g + 1)) []
  | CondAI =>
      match adapter rev env o (body_text req) history (s_systemPrompt s) with
      | inl _ => mkRun (RespError 500 Error_procesando_el_mensaje) (commit st k s1 (g + 1)) [call]
      | inr reply =>
          mkRun (RespReply reply (index_returned rev (g + 1 + 1)) false)
            (commit st k (push s1 (mkMessage (g + 1 + 1) ai reply (later o))) (g + 1 + 1))
            [call]
      end
  end.
Proof.
  intros Hsid Htext Hget Hstr g s1 history call. subst call history s1 g.
  destruct rev; simpl;
    unfold Backend.post_chat, Part000.post_chat,
           Backend.post_chat_begin, Part000.post_chat_begin;
    rewrite Hsid, Htext, Hget, Hstr; simpl;
    destruct (s_condition s); try reflexivity;
    unfold Backend.post_chat_resume, Part000.post_chat_resume; simpl;
    rewrite Map_get_set_same;
    match goal with |- context [match ?a with inl _ => _ | inr _ => _ end] => destruct a end;
    simpl; try reflexivity; unfold commit; simpl; now rewrite Map_set_set.
Qed.

(** The chat route on any other request answers an error and leaves the
    store alone. *)
Lemma chat_refused (rev : Revision) (env : Env) (o : Oracle) (req : Req) (st : Store) :
  truthy (getSid req) = false \/ truthy (body_text req) = false \/
  sessions_get st (getSid req) = None \/ to_String (body_text req) = None ->
  store (serve rev POST_api_chat env o req st) = st /\
  calls (serve rev POST_api_chat env o req st) = [].
Proof.
  intros H.
  destruct rev; simpl; unfold Backend.post_chat, Part000.post_chat,
      Backend.post_chat_begin, Part000.post_chat_begin;
    destruct (truthy (getSid req)); simpl; auto;
    destruct (truthy (body_text req)); simpl; auto;
    destruct (sessions_get st (getSid req)) as [[k s]|]; simpl; auto;
    destruct (to_String (body_text req)); simpl; auto;
    intuition discriminate.
Qed.

Lemma serve_mutations (rev : Revision) (r : Route) (env : Env) (o : Oracle)
    (req : Req) (st : Store) :
  mutations st (store (serve rev r env o req st)).
Proof.
  destruct r.
  - destruct rev; [apply Backend_post_session_mutations | apply Part000_post_session_mutations].
  - destruct (truthy (getSid req)) eqn:Hsid;
      [|rewrite (proj1 (chat_refused rev env o req st (or_introl Hsid))); constructor].
    destruct (truthy (body_text req)) eqn:Htext;
      [|rewrite (proj1 (chat_refused rev env o req st (or_intror (or_introl Htext)))); constructor].
    destruct (sessions_get st (getSid req)) as [[k s]|] eqn:Hget;
      [|rewrite (proj1 (chat_refused rev env o req st (or_intror (or_intror (or_introl Hget)))));
        constructor].
    destruct (to_String (body_text req)) as [str|] eqn:Hstr;
      [|rewrite (proj1 (chat_refused rev env o req st (or_intror (or_intror (or_intror Hstr)))));
        constructor].
    rewrite (chat_run rev env o req st k s str Hsid Htext Hget Hstr).
    apply sessions_get_Some in Hget. destruct Hget as [_ Hk].
    pose proof (chat_mutations st k s str (now o) (later o)) as Hm.
    destruct (s_condition s).
    + destruct (adapter rev env o _ _ _) as [e|reply].
      * exact (Hm None Hk).
      * exact (Hm (Some reply) Hk).
    + exact (Hm None Hk).
  - destruct rev; simpl; rewrite get_messages_store; constructor.
  - destruct rev; simpl; constructor.
  - destruct rev; simpl; apply post_operator_reply_mutations.
Qed.

Lemma reachable_ok (rev : Revision) (env : Env) (st : Store) :
  reachable rev env st -> store_ok st.
Proof.
  induction 1 as [|st r o req _ IH].
  - apply initial_store_ok.
  - eapply mutations_ok; [exact IH | apply serve_mutations].
Qed.

(* ------------------------------------------------------------------ *)
(** ** The concrete runs *)

Lemma store_3_reachable (rev : Revision) : reachable rev env0 (store_3 rev).
Proof. unfold store_3, store_2, store_1. repeat apply reach_route. apply reach_start. Qed.

Lemma store_4_reachable (rev : Revision) : reachable rev env0 (store_4 rev).
Proof. unfold store_4. apply reach_route. apply store_3_reachable. Qed.

Lemma store_6_reachable (rev : Revision) : reachable rev env0 (store_6 rev).
Proof. unfold store_6. do 4 apply reach_route. apply store_3_reachable. Qed.

Lemma store_3_sessions (rev : Revision) :
  sessions (store_3 rev) = [(lit "h1", session_h1); (lit "a1", session_a1)].
Proof. destruct rev; reflexivity. Qed.

(* ------------------------------------------------------------------ *)
(** ** The operator-pending flag *)

(** C1: in every store the server can be in - the store at start-up and the
    store after any run of the session, chat, polling, inbox or reply route,
    in either revision - every session has [awaitingOperator] false when its
    condition is AI; when its condition is Human the flag is true exactly
    when the log is not empty and its last message has role user; and the
    stored flag equals what [isAwaitingOperator] recomputes from the log. *)
Theorem awaitingOperator_consistent (rev : Revision) (env : Env) (st : Store) :
  reachable rev env st ->
  forall s, In s (Map_values (sessions st)) ->
    (s_condition s = CondAI -> s_awaitingOperator s = false) /\
    (s_condition s = CondHuman ->
     (s_awaitingOperator s = true <->
      s_messages s <> [] /\
      exists earlier last, s_messages s = earlier ++ [last] /\ m_role last = user)) /\
    s_awaitingOperator s = isAwaitingOperator s /\
    (s_awaitingOperator s = true <-> awaiting_rule s).
Proof.
  intros Hr s Hin.
  destruct (reachable_ok _ _ _ Hr) as [_ Hall].
  rewrite Forall_forall in Hall. destruct (Hall s Hin) as [_ Hflag].
  pose proof (isAwaitingOperator_rule s) as Hrule. rewrite <- Hflag in Hrule.
  split; [|split; [|split]].
  - intros Hc. rewrite Hflag. unfold isAwaitingOperator. now rewrite Hc.
  - intros Hc. rewrite Hrule. unfold awaiting_rule. tauto.
  - assumption.
  - exact Hrule.
Qed.

Lemma awaitingOperator_consistent_witness :
  reachable backend_server_js env0 (store_3 backend_server_js) /\
  In session_h1 (Map_values (sessions (store_3 backend_server_js))) /\
  (s_awaitingOperator session_h1 = true <-> awaiting_rule session_h1).
Proof.
  split; [apply store_3_reachable|].
  assert (Hin : In session_h1 (Map_values (sessions (store_3 backend_server_js)))).
  { rewrite store_3_sessions. simpl. now left. }
  split; [exact Hin|].
  apply (awaitingOperator_consistent backend_server_js env0 (store_3 backend_server_js)
           (store_3_reachable backend_server_js) session_h1 Hin).
Defined.

(* ------------------------------------------------------------------ *)
(** ** The chat route *)

Lemma replayed_roles (l : list Message) :
  Forall (fun m => m_role m = user \/ m_role m = human)
         (filter (fun m => negb (Role_eqb (m_role m) ai)) l).
Proof.
  apply Forall_forall. intros m Hm. apply filter_In in Hm. destruct Hm as [_ Hm].
  destruct (m_role m); simpl in Hm; [now left | discriminate | now right].
Qed.

Lemma chat_accepts_witness_a1 (rev : Revision) :
  chat_accepts (store_3 rev) (req_text "a1" (JString (lit "hola")))
    (lit "a1") session_a1 (lit "hola").
Proof.
  unfold chat_accepts, sessions_get. rewrite store_3_sessions. repeat split.
Qed.

(** C6: when the responder adapter fails while the chat route handles a text
    for an AI-conditioned session, in either revision, the route answers
    status 500 (Internal), the adapter has been called exactly once, and
    the store afterwards is the store before with the user message pushed to
    the session and nothing else: the log is the old log followed by the
    user message, no message of role ai was pushed, and the counter moved by
    one. *)
Theorem adapter_failure_keeps_user_turn (rev : Revision) (env : Env) (o : Oracle)
    (req : Req) (st : Store) (k : jsstring) (s : Session) (str : jsstring) (e : Exn) :
  chat_accepts st req k s str ->
  s_condition s = CondAI ->
  let turn := mkMessage (globalIndex st + 1) user (slice str 0 2000) (now o) in
  let history := filter (fun m => negb (Role_eqb (m_role m) ai)) (s_messages s ++ [turn]) in
  adapter rev env o (body_text req) history (s_systemPrompt s) = inl e ->
  let run := serve rev POST_api_chat env o req st in
  response run = RespError 500 Error_procesando_el_mensaje /\
  spec_error (response run) = Some Internal /\
  calls run = [mkCall (body_text req) history (prompt_passed rev s)] /\
  store run = commit st k (push s turn) (globalIndex st + 1) /\
  (exists s', Map_get k (sessions (store run)) = Some s' /\
              s_messages s' = s_messages s ++ [turn] /\
              s_awaitingOperator s' = s_awaitingOperator s) /\
  (forall k', k' <> k -> Map_get k' (sessions (store run)) = Map_get k' (sessions st)) /\
  globalIndex (store run) = globalIndex st + 1.
Proof.
  intros (Hsid & Htext & Hget & Hstr) Hc turn history Hfail run.
  unfold run. rewrite (chat_run rev env o req st k s str Hsid Htext Hget Hstr), Hc.
  simpl. fold turn history. rewrite Hfail. simpl.
  repeat split.
  - exists (push s turn). split; [apply Map_get_set_same | now split].
  - intros k' Hk'. now apply Map_get_set_other.
Qed.

Lemma adapter_failure_keeps_user_turn_witness :
  let req := req_text "a1" (JString (lit "hola")) in
  let st := store_3 backend_server_js in
  let run := serve backend_server_js POST_api_chat env_remote world_503 req st in
  adapter backend_server_js env_remote world_503 (JString (lit "hola"))
    [mkMessage 2 user (lit "hola") 200] None = inl (GeminiHTTP 503 (lit "unavailable")) /\
  response run = RespError 500 Error_procesando_el_mensaje /\
  store run = commit st (lit "a1") (push session_a1 (mkMessage 2 user (lit "hola") 200)) 2.
Proof.
  intros req st run.
  split; [reflexivity|].
  destruct (adapter_failure_keeps_user_turn backend_server_js env_remote world_503 req st
              (lit "a1") session_a1 (lit "hola") (GeminiHTTP 503 (lit "unavailable"))
              (chat_accepts_witness_a1 backend_server_js) eq_refl eq_refl)
    as (Hresp & _ & _ & Hstore & _).
  split; [exact Hresp | exact Hstore].
Defined.

(** C7: when the text of the body is missing or empty (or any other falsy
    value), the chat route of either revision answers status 400 with the
    text for missing fields, calls nothing, and returns the store it was
    given: no message is pushed to any session and the counter is the
    same. *)
Theorem chat_missing_text (rev : Revision) (env : Env) (o : Oracle) (req : Req) (st : Store) :
  truthy (body_text req) = false ->
  let run := serve rev POST_api_chat env o req st in
  run = mkRun (RespError 400 sessionId_y_text_son_requeridos) st [] /\
  spec_error (response run) = Some MissingFields /\
  sessions (store run) = sessions st /\
  globalIndex (store run) = globalIndex st.
Proof.
  intros Htext run.
  assert (E : run = mkRun (RespError 400 sessionId_y_text_son_requeridos) st []).
  { unfold run. destruct rev; simpl; unfold Backend.post_chat, Part000.post_chat,
      Backend.post_chat_begin, Part000.post_chat_begin;
      rewrite Htext; simpl; now rewrite orb_true_r. }
  rewrite E. repeat split.
Qed.

Lemma chat_missing_text_witness :
  (let req := mkReq (mkQuery (JString (lit "h1")) JUndefined JUndefined (JNum 0)) None in
   body_text req = JUndefined /\
   serve backend_server_js POST_api_chat env0 (world "" 103) req (store_3 backend_server_js)
   = mkRun (RespError 400 sessionId_y_text_son_requeridos) (store_3 backend_server_js) []) /\
  (let req := req_text "h1" (JString []) in
   serve unnamed_part_000 POST_api_chat env0 (world "" 103) req (store_3 unnamed_part_000)
   = mkRun (RespError 400 sessionId_y_text_son_requeridos) (store_3 unnamed_part_000) []).
Proof.
  split.
  - intros req. split; [reflexivity|].
    apply (chat_missing_text backend_server_js env0 (world "" 103) req
             (store_3 backend_server_js) eq_refl).
  - intros req.
    apply (chat_missing_text unnamed_part_000 env0 (world "" 103) req
             (store_3 unnamed_part_000) eq_refl).
Defined.

(* ------------------------------------------------------------------ *)
(** ** Sequence numbers and polling *)

Lemma num_gt_above (i : Z) (a : jsnum) : num_gt i a = true <-> above i a.
Proof.
  destruct a as [q| | |]; simpl; try (split; [discriminate | contradiction]);
    [|split; trivial].
  unfold Qlt_bool. rewrite negb_true_iff, <- not_true_iff_false, Qle_bool_iff.
  split; [apply Qnot_le_lt | apply Qlt_not_le].
Qed.

Lemma num_le_at_most (i : Z) (a : jsnum) : num_le i a = true <-> at_most i a.
Proof.
  destruct a as [q| | |]; simpl; try (split; [discriminate | contradiction]);
    [apply Qle_bool_iff | split; trivial].
Qed.

Lemma above_not_at_most (i : Z) (a : jsnum) : above i a -> ~ at_most i a.
Proof.
  destruct a as [q| | |]; simpl; try tauto. intros H1 H2.
  exact (Qlt_not_le _ _ H1 H2).
Qed.

Lemma StronglySorted_filter {A : Type} (R : A -> A -> Prop) (f : A -> bool) (l : list A) :
  StronglySorted R l -> StronglySorted R (filter f l).
Proof.
  induction 1 as [|a l Hs IH Ha]; simpl; [constructor|].
  destruct (f a); [|assumption].
  constructor; [assumption|].
  apply Forall_forall. intros x Hx. apply filter_In in Hx.
  rewrite Forall_forall in Ha. now apply Ha.
Qed.

Lemma In_all_messages (st : Store) (m : Message) :
  In m (all_messages st) <->
  exists s, In s (Map_values (sessions st)) /\ In m (s_messages s).
Proof. unfold all_messages. apply in_flat_map. Qed.

Lemma store_ok_messages (st : Store) (m : Message) :
  store_ok st -> In m (all_messages st) -> 0 < m_i m <= globalIndex st.
Proof.
  intros [_ Hall] Hm. apply In_all_messages in Hm. destruct Hm as (s & Hs & Hm).
  rewrite Forall_forall in Hall. destruct (Hall s Hs) as [(Hb & _) _].
  rewrite Forall_forall in Hb. now apply Hb.
Qed.

(** A mutation never lowers the counter, and a message it leaves in the
    store was there before or carries a number above the old counter. *)
Lemma mutation_messages (st st' : Store) :
  mutation st st' ->
  globalIndex st <= globalIndex st' /\
  forall m, In m (all_messages st') ->
    In m (all_messages st) \/ globalIndex st < m_i m <= globalIndex st'.
Proof.
  intros [s Hmsgs Hflag | k s role text t b Hk Hlen Hw]; simpl; (split; [lia|]);
    intros m Hm; apply In_all_messages in Hm; destruct Hm as (x & Hx & Hm);
    simpl in Hx; apply Map_values_set in Hx; destruct Hx as [->|Hx].
  - rewrite Hmsgs in Hm. destruct Hm.
  - left. apply In_all_messages. now exists x.
  - simpl in Hm. apply in_app_or in Hm. destruct Hm as [Hm|[<-|[]]].
    + left. apply In_all_messages. exists s. split; [eapply Map_get_In; eassumption | assumption].
    + right. simpl. lia.
  - left. apply In_all_messages. now exists x.
Qed.

Lemma mutations_messages (st st' : Store) :
  mutations st st' ->
  globalIndex st <= globalIndex st' /\
  forall m, In m (all_messages st') ->
    In m (all_messages st) \/ globalIndex st < m_i m <= globalIndex st'.
Proof.
  induction 1 as [st|st mid st' H1 _ [IHg IH]].
  - split; [lia | intros m Hm; now left].
  - destruct (mutation_messages _ _ H1) as [Hg Hmid].
    split; [lia|]. intros m Hm.
    destruct (IH m Hm) as [Hin|Hnew]; [|right; lia].
    destruct (Hmid m Hin) as [Hold|Hnew]; [now left | right; lia].
Qed.

(** C3: in every store the server can be in, in either revision:
    every number assigned so far is positive and at most the counter, and
    the numbers of a log increase strictly in append order;
    [pushMessage] run at the counter assigns the counter plus one, a number
    strictly above every number in any session, and leaves the counter at
    that number; a run of any route never lowers the counter, and every
    message it leaves in the store was there before or has a number above
    the counter before the run; and the polling route answers exactly the
    messages of the session whose number is above the cursor, in append
    order, none of them with a number at most the cursor. *)
Theorem sequence_numbers_increase (rev : Revision) (env : Env) (st : Store) :
  reachable rev env st ->
  (forall m, In m (all_messages st) -> 0 < m_i m <= globalIndex st) /\
  (forall s, In s (Map_values (sessions st)) ->
     StronglySorted (fun a b => m_i a < m_i b) (s_messages s)) /\
  (forall session role text t,
     let '(msg, _, g') := pushMessage session role text t (globalIndex st) in
     g' = m_i msg /\ m_i msg = globalIndex st + 1 /\
     forall m, In m (all_messages st) -> m_i m < m_i msg) /\
  (forall r o req,
     let st' := store (serve rev r env o req st) in
     globalIndex st <= globalIndex st' /\
     forall m, In m (all_messages st') ->
       In m (all_messages st) \/ globalIndex st < m_i m <= globalIndex st') /\
  (forall o req k s,
     sessions_get st (getSid req) = Some (k, s) ->
     let a := q_after (query req) in
     exists items,
       response (serve rev GET_api_messages env o req st)
         = RespItems items (isAwaitingOperator s) /\
       items = filter (fun m => num_gt (m_i m) a) (s_messages s) /\
       (forall m, In m items <-> In m (s_messages s) /\ above (m_i m) a) /\
       (forall m, In m items -> ~ at_most (m_i m) a) /\
       StronglySorted (fun x y => m_i x < m_i y) items).
Proof.
  intros Hr. pose proof (reachable_ok _ _ _ Hr) as Hok.
  assert (Hsorted : forall s, In s (Map_values (sessions st)) ->
            StronglySorted (fun a b => m_i a < m_i b) (s_messages s)).
  { intros s Hs. destruct Hok as [_ Hall]. rewrite Forall_forall in Hall.
    now destruct (Hall s Hs) as [(_ & Hsort & _) _]. }
  split; [|split; [|split; [|split]]].
  - intros m. now apply store_ok_messages.
  - exact Hsorted.
  - intros session role text t. simpl. repeat split.
    intros m Hm. pose proof (store_ok_messages _ _ Hok Hm). lia.
  - intros r o req. apply mutations_messages, serve_mutations.
  - intros o req k s Hget a.
    exists (filter (fun m => num_gt (m_i m) a) (s_messages s)).
    assert (Hin : forall m, In m (filter (fun m => num_gt (m_i m) a) (s_messages s)) <->
                            In m (s_messages s) /\ above (m_i m) a).
    { intros m. rewrite filter_In, num_gt_above. reflexivity. }
    split; [|split; [reflexivity|split; [exact Hin|split]]].
    + destruct rev; simpl; unfold get_messages; rewrite Hget; reflexivity.
    + intros m Hm. apply above_not_at_most. now apply Hin.
    + apply StronglySorted_filter. apply Hsorted.
      apply sessions_get_Some in Hget. destruct Hget as [_ Hk].
      eapply Map_get_In; eassumption.
Qed.

Lemma sequence_numbers_increase_witness :
  reachable backend_server_js env0 (store_3 backend_server_js) /\
  (let '(msg, _, g') := pushMessage session_a1 user (lit "hola") 104
                          (globalIndex (store_3 backend_server_js)) in
   g' = m_i msg /\ m_i msg = globalIndex (store_3 backend_server_js) + 1 /\
   forall m, In m (all_messages (store_3 backend_server_js)) -> m_i m < m_i msg).
Proof.
  split; [apply store_3_reachable|].
  apply (sequence_numbers_increase backend_server_js env0 (store_3 backend_server_js)
           (store_3_reachable backend_server_js)).
Defined.

(** C8: the polling route of either revision returns the store it was
    given, and polling again with the same request on the store the first
    poll returned gives the same answer: the same items and the same
    [awaitingOperator]. *)
Theorem poll_idempotent (rev : Revision) (env : Env) (o1 o2 : Oracle) (req : Req) (st : Store) :
  let first := serve rev GET_api_messages env o1 req st in
  let second := serve rev GET_api_messages env o2 req (store first) in
  store first = st /\
  store second = st /\
  response second = response first /\
  calls first = [] /\ calls second = [].
Proof.
  intros first second.
  assert (E1 : store first = st) by (unfold first; destruct rev; apply get_messages_store).
  assert (E2 : second = first) by (unfold second; rewrite E1; destruct rev; reflexivity).
  rewrite E2. repeat split; try assumption;
    unfold first; destruct rev; simpl; unfold get_messages;
    destruct (sessions_get st (getSid req)) as [[k s]|]; reflexivity.
Qed.

(* ------------------------------------------------------------------ *)
(** ** The bound on stored texts *)

Lemma store_4_backend_messages :
  all_messages (store_4 backend_server_js) =
  [mkMessage 1 user (lit "hola") 102;
   mkMessage 2 user long_text 104;
   mkMessage 3 ai (Backend.stub long_text) 105].
Proof. vm_compute. reflexivity. Qed.

(** C4, as stated, fails: after a Human and an AI session are created and
    the user of the AI session sends 2000 letters, with no remote credential
    configured, the log of the AI session holds the stub reply as a message
    of role ai, and its text is longer than 2000 code units. *)
Lemma ai_text_exceeds_2000 :
  reachable backend_server_js env0 (store_4 backend_server_js) /\
  exists m,
    In m (all_messages (store_4 backend_server_js)) /\
    m_role m = ai /\
    (2000 < length (m_text m))%nat.
Proof.
  split; [apply store_4_reachable|].
  exists (mkMessage 3 ai (Backend.stub long_text) 105).
  split; [|split].
  - rewrite store_4_backend_messages. simpl. auto.
  - reflexivity.
  - apply Nat.ltb_lt. vm_compute. reflexivity.
Qed.

(** C4, amended: in every store the server can be in, in either revision,
    every stored message of role user or human has a text of at most 2000
    code units; and when the chat route handles a text for an AI session
    and the adapter answers, the message of role ai it pushes carries the
    adapter's reply as returned, whatever its length. *)
Theorem intake_text_bounded (rev : Revision) (env : Env) (st : Store) :
  reachable rev env st ->
  (forall m, In m (all_messages st) ->
     m_role m = user \/ m_role m = human -> (length (m_text m) <= 2000)%nat) /\
  (forall o req k s str reply,
     chat_accepts st req k s str ->
     s_condition s = CondAI ->
     let turn := mkMessage (globalIndex st + 1) user (slice str 0 2000) (now o) in
     adapter rev env o (body_text req)
       (filter (fun m => negb (Role_eqb (m_role m) ai)) (s_messages s ++ [turn]))
       (s_systemPrompt s) = inr reply ->
     exists s',
       Map_get k (sessions (store (serve rev POST_api_chat env o req st))) = Some s' /\
       s_messages s' =
         s_messages s ++ [turn; mkMessage (globalIndex st + 1 + 1) ai reply (later o)]).
Proof.
  intros Hr. split.
  - intros m Hm Hrole.
    destruct (reachable_ok _ _ _ Hr) as [_ Hall].
    apply In_all_messages in Hm. destruct Hm as (s & Hs & Hm).
    rewrite Forall_forall in Hall. destruct (Hall s Hs) as [(_ & _ & Hlen) _].
    rewrite Forall_forall in Hlen. apply Hlen; [assumption|].
    destruct Hrole as [E|E]; rewrite E; discriminate.
  - intros o req k s str reply (Hsid & Htext & Hget & Hstr) Hc turn Hreply.
    rewrite (chat_run rev env o req st k s str Hsid Htext Hget Hstr), Hc.
    simpl. fold turn. rewrite Hreply. simpl.
    eexists. split; [apply Map_get_set_same|].
    simpl. now rewrite <- app_assoc.
Qed.

Lemma intake_text_bounded_witness :
  reachable backend_server_js env0 (store_4 backend_server_js) /\
  In (mkMessage 2 user long_text 104) (all_messages (store_4 backend_server_js)) /\
  (length long_text <= 2000)%nat.
Proof.
  split; [apply store_4_reachable|].
  assert (Hin : In (mkMessage 2 user long_text 104) (all_messages (store_4 backend_server_js))).
  { rewrite store_4_backend_messages. simpl. auto. }
  split; [exact Hin|].
  exact (proj1 (intake_text_bounded backend_server_js env0 (store_4 backend_server_js)
                  (store_4_reachable backend_server_js))
               (mkMessage 2 user long_text 104) Hin (or_introl eq_refl)).
Defined.

(* ------------------------------------------------------------------ *)
(** ** The operator reply route *)

(** The reply route on a Human session with a text: the run. *)
Lemma reply_run (rev : Revision) (env : Env) (o : Oracle) (req : Req) (st : Store)
    (k : jsstring) (s : Session) (str : jsstring) :
  sessions_get st (body_sessionId req) = Some (k, s) ->
  s_condition s = CondHuman ->
  truthy (body_text req) = true ->
  to_String (body_text req) = Some str ->
  serve rev POST_api_operator_reply env o req st =
  mkRun (RespOk true)
    (commit st k
       (set_awaitingOperator
          (push s (mkMessage (globalIndex st + 1) human (slice str 0 2000) (now o))) false)
       (globalIndex st + 1))
    [].
Proof.
  intros Hget Hc Htext Hstr.
  destruct rev; simpl; unfold post_operator_reply;
    rewrite Hget, Hc, Htext, Hstr; reflexivity.
Qed.

(** C5: the operator reply route of either revision answers 404 (NotFound)
    when the session id of the body names no stored session; 400 with the
    text for a session that is not human (InvalidState) when the session is
    not Human-conditioned; 400 with the text for a required text
    (InvalidInput) when the session is Human-conditioned and the text is
    empty or missing; each time with the store as it was.  When the session
    is Human-conditioned and the text converts to a string, it answers
    [{ ok: true }] and nothing else, pushes exactly one message, of role
    human, to that session, leaves the flag false, moves the counter by
    one and leaves every other session as it was. *)
Theorem operator_reply_cases (rev : Revision) (env : Env) (o : Oracle) (req : Req) (st : Store) :
  let run := serve rev POST_api_operator_reply env o req st in
  (sessions_get st (body_sessionId req) = None ->
     spec_error (response run) = Some NotFound /\ store run = st) /\
  (forall k s,
     sessions_get st (body_sessionId req) = Some (k, s) ->
     s_condition s <> CondHuman ->
     spec_error (response run) = Some InvalidState /\ store run = st) /\
  (forall k s,
     sessions_get st (body_sessionId req) = Some (k, s) ->
     s_condition s = CondHuman ->
     truthy (body_text req) = false ->
     spec_error (response run) = Some InvalidInput /\ store run = st) /\
  (forall k s str,
     sessions_get st (body_sessionId req) = Some (k, s) ->
     s_condition s = CondHuman ->
     truthy (body_text req) = true ->
     to_String (body_text req) = Some str ->
     response run = RespOk true /\
     calls run = [] /\
     globalIndex (store run) = globalIndex st + 1 /\
     (exists s',
        Map_get k (sessions (store run)) = Some s' /\
        s_messages s' =
          s_messages s ++ [mkMessage (globalIndex st + 1) human (slice str 0 2000) (now o)] /\
        s_awaitingOperator s' = false /\
        isAwaitingOperator s' = false) /\
     (forall k', k' <> k -> Map_get k' (sessions (store run)) = Map_get k' (sessions st))).
Proof.
  intros run. split; [|split; [|split]].
  - intros Hget. unfold run. destruct rev; simpl; unfold post_operator_reply;
      rewrite Hget; now split.
  - intros k s Hget Hc. unfold run. destruct rev; simpl; unfold post_operator_reply;
      rewrite Hget; destruct (s_condition s); try congruence; now split.
  - intros k s Hget Hc Htext. unfold run. destruct rev; simpl; unfold post_operator_reply;
      rewrite Hget, Hc, Htext; now split.
  - intros k s str Hget Hc Htext Hstr. unfold run.
    rewrite (reply_run rev env o req st k s str Hget Hc Htext Hstr). simpl.
    repeat split.
    + eexists. split; [apply Map_get_set_same|]. simpl. repeat split.
      rewrite isAwaitingOperator_push. now rewrite Hc.
    + intros k' Hk'. now apply Map_get_set_other.
Qed.

Lemma operator_reply_cases_witness :
  let st := store_3 backend_server_js in
  let reply := req_text "h1" (JString (lit "hola, soy el operador")) in
  let run := serve backend_server_js POST_api_operator_reply env0 (world "" 110) reply st in
  sessions_get st (body_sessionId reply) = Some (lit "h1", session_h1) /\
  response run = RespOk true /\
  spec_error (response (serve backend_server_js POST_api_operator_reply env0 (world "" 110)
                          (req_text "a1" (JString (lit "hola"))) st)) = Some InvalidState.
Proof.
  intros st reply run.
  assert (Hget : sessions_get st (body_sessionId reply) = Some (lit "h1", session_h1)).
  { vm_compute. reflexivity. }
  split; [exact Hget|]. split.
  - destruct (operator_reply_cases backend_server_js env0 (world "" 110) reply st)
      as (_ & _ & _ & Hok).
    exact (proj1 (Hok (lit "h1") session_h1 (lit "hola, soy el operador")
                    Hget eq_refl eq_refl eq_refl)).
  - destruct (operator_reply_cases backend_server_js env0 (world "" 110)
                (req_text "a1" (JString (lit "hola"))) st) as (_ & Hstate & _).
    refine (proj1 (Hstate (lit "a1") session_a1 _ _)).
    + vm_compute. reflexivity.
    + discriminate.
Defined.

(** C10: on a Human-conditioned session whose flag is false, the operator
    reply route of either revision, given a text, answers [{ ok: true }]:
    it pushes the message of role human to the session and the flag is
    false afterwards, stored and recomputed. *)
Theorem operator_reply_when_idle (rev : Revision) (env : Env) (o : Oracle) (req : Req)
    (st : Store) (k : jsstring) (s : Session) (str : jsstring) :
  sessions_get st (body_sessionId req) = Some (k, s) ->
  s_condition s = CondHuman ->
  s_awaitingOperator s = false ->
  truthy (body_text req) = true ->
  to_String (body_text req) = Some str ->
  let run := serve rev POST_api_operator_reply env o req st in
  response run = RespOk true /\
  spec_error (response run) = None /\
  exists s',
    Map_get k (sessions (store run)) = Some s' /\
    s_messages s' =
      s_messages s ++ [mkMessage (globalIndex st + 1) human (slice str 0 2000) (now o)] /\
    s_awaitingOperator s' = false /\
    isAwaitingOperator s' = false.
Proof.
  intros Hget Hc _ Htext Hstr run. unfold run.
  rewrite (reply_run rev env o req st k s str Hget Hc Htext Hstr). simpl.
  split; [reflexivity|]. split; [reflexivity|].
  eexists. split; [apply Map_get_set_same|]. simpl. repeat split.
  rewrite isAwaitingOperator_push. now rewrite Hc.
Qed.

Lemma operator_reply_when_idle_witness :
  let st := store_2 unnamed_part_000 in
  let req := req_text "h1" (JString (lit "hola")) in
  sessions_get st (body_sessionId req) = Some (lit "h1", session_h1_idle) /\
  s_messages session_h1_idle = [] /\
  response (serve unnamed_part_000 POST_api_operator_reply env0 (world "" 110) req st)
    = RespOk true.
Proof.
  intros st req.
  assert (Hget : sessions_get st (body_sessionId req) = Some (lit "h1", session_h1_idle)).
  { vm_compute. reflexivity. }
  split; [exact Hget|]. split; [reflexivity|].
  exact (proj1 (operator_reply_when_idle unnamed_part_000 env0 (world "" 110) req st
                  (lit "h1") session_h1_idle (lit "hola") Hget eq_refl eq_refl eq_refl eq_refl)).
Defined.

(* ------------------------------------------------------------------ *)
(** ** The operator inbox *)

Lemma sort_insert_perm (x : InboxItem) (l : list InboxItem) :
  Permutation (sort_insert x l) (x :: l).
Proof.
  induction l as [|y l IH]; simpl; [reflexivity|].
  destruct (0 <? compare_lastAt x y); [|reflexivity].
  rewrite IH. apply perm_swap.
Qed.

Lemma sort_items_perm (l : list InboxItem) : Permutation (sort_items l) l.
Proof.
  induction l as [|x l IH]; simpl; [reflexivity|].
  rewrite sort_insert_perm. now constructor.
Qed.

Lemma sort_insert_descending (x : InboxItem) (l : list InboxItem) :
  descending l -> descending (sort_insert x l).
Proof.
  unfold descending. induction 1 as [|y l Hs IH Hy]; simpl.
  - constructor; constructor.
  - unfold compare_lastAt at 1. destruct (0 <? lastAt y - lastAt x) eqn:E.
    + apply Z.ltb_lt in E. constructor; [exact IH|].
      apply (Permutation_Forall (Permutation_sym (sort_insert_perm x l))).
      constructor; [lia | exact Hy].
    + apply Z.ltb_ge in E. constructor; [now constructor|].
      constructor; [lia|].
      eapply Forall_impl; [|exact Hy]. simpl. intros b Hb. lia.
Qed.

Lemma sort_items_descending (l : list InboxItem) : descending (sort_items l).
Proof.
  induction l as [|x l IH]; simpl; [constructor | now apply sort_insert_descending].
Qed.

Lemma inbox_loop_filter (ss : list Session) :
  Forall (fun s => s_awaitingOperator s = isAwaitingOperator s) ss ->
  inbox_loop ss = map inbox_item (filter pending ss).
Proof.
  induction 1 as [|s ss Hs _ IH]; simpl; [reflexivity|].
  unfold pending at 1. rewrite Hs, IH.
  destruct (s_condition s); [reflexivity|].
  destruct (isAwaitingOperator s); reflexivity.
Qed.

Lemma find_skip {A : Type} (f : A -> bool) (l1 l2 : list A) :
  Forall (fun x => f x = false) l1 -> find f (l1 ++ l2) = find f l2.
Proof.
  induction 1 as [|x l1 Hx _ IH]; simpl; [reflexivity | now rewrite Hx].
Qed.

Lemma lastUser_most_recent (s : Session) (m : Message) :
  most_recent_user s m -> lastUser s = Some m.
Proof.
  intros (before & after & E & Hm & Hafter). unfold lastUser.
  rewrite E, rev_app_distr. simpl. rewrite <- app_assoc. rewrite find_skip.
  - simpl. now rewrite Hm.
  - apply Forall_rev. eapply Forall_impl; [|exact Hafter].
    simpl. intros x Hx. destruct (m_role x); simpl; congruence.
Qed.

Lemma lastUser_none (s : Session) :
  Forall (fun m => m_role m <> user) (s_messages s) -> lastUser s = None.
Proof.
  intros H. unfold lastUser.
  rewrite <- (app_nil_r (rev (s_messages s))). rewrite find_skip; [reflexivity|].
  apply Forall_rev. eapply Forall_impl; [|exact H].
  simpl. intros x Hx. destruct (m_role x); simpl; congruence.
Qed.

Lemma inbox_item_most_recent (s : Session) (m : Message) :
  most_recent_user s m -> inbox_item s = mkInboxItem (s_id s) (m_text m) (m_t m).
Proof.
  intros H. unfold inbox_item. rewrite (lastUser_most_recent s m H).
  now destruct (m_text m).
Qed.

(** C9: in every store the server can be in, the inbox route of either
    revision returns the store it was given and answers a list that holds
    one entry for each session whose condition is Human and whose stored
    flag is true, and no other entry; the list is in descending order of
    [lastAt]; the entry of such a session carries the session id and the
    text and timestamp of the most recent message of role user in its log,
    and the entry built for a session with no such message would carry the
    empty text and the creation time. *)
Theorem operator_inbox_lists_pending (rev : Revision) (env : Env) (o : Oracle) (req : Req)
    (st : Store) :
  reachable rev env st ->
  exists items,
    serve rev GET_api_operator_inbox env o req st = mkRun (RespInbox items) st [] /\
    Permutation items (map inbox_item (filter pending (Map_values (sessions st)))) /\
    descending items /\
    (forall s, In s (Map_values (sessions st)) -> pending s = true ->
       exists m, most_recent_user s m /\
                 inbox_item s = mkInboxItem (s_id s) (m_text m) (m_t m)) /\
    (forall s m, most_recent_user s m ->
       inbox_item s = mkInboxItem (s_id s) (m_text m) (m_t m)) /\
    (forall s, Forall (fun m => m_role m <> user) (s_messages s) ->
       inbox_item s = mkInboxItem (s_id s) [] (s_createdAt s)).
Proof.
  intros Hr. destruct (reachable_ok _ _ _ Hr) as [_ Hall].
  assert (Hflags : Forall (fun s => s_awaitingOperator s = isAwaitingOperator s)
                          (Map_values (sessions st))).
  { eapply Forall_impl; [|exact Hall]. now intros s [_ H]. }
  exists (sort_items (map inbox_item (filter pending (Map_values (sessions st))))).
  split; [|split; [|split; [|split; [|split]]]].
  - destruct rev; simpl; unfold get_operator_inbox; now rewrite inbox_loop_filter.
  - apply sort_items_perm.
  - apply sort_items_descending.
  - intros s Hs Hp. rewrite Forall_forall in Hflags.
    unfold pending in Hp. destruct (s_condition s) eqn:Hc; [discriminate|].
    rewrite (Hflags s Hs) in Hp. apply isAwaitingOperator_rule in Hp.
    destruct Hp as (_ & _ & earlier & last & E & Hlast).
    assert (Hm : most_recent_user s last) by (exists earlier, []; now repeat split).
    exists last. split; [exact Hm | now apply inbox_item_most_recent].
  - apply inbox_item_most_recent.
  - intros s H. unfold inbox_item. now rewrite (lastUser_none s H).
Qed.

Lemma operator_inbox_lists_pending_witness :
  reachable backend_server_js env0 (store_3 backend_server_js) /\
  exists items,
    serve backend_server_js GET_api_operator_inbox env0 (world "" 120)
      (req_session "") (store_3 backend_server_js)
    = mkRun (RespInbox items) (store_3 backend_server_js) [] /\
    Permutation items [mkInboxItem (lit "h1") (lit "hola") 102].
Proof.
  split; [apply store_3_reachable|].
  destruct (operator_inbox_lists_pending backend_server_js env0 (world "" 120)
              (req_session "") (store_3 backend_server_js)
              (store_3_reachable backend_server_js))
    as (items & Hrun & Hperm & _).
  exists items. split; [exact Hrun|].
  rewrite store_3_sessions in Hperm. exact Hperm.
Defined.

(* ------------------------------------------------------------------ *)
(** ** The access gate: [split] and the credentials *)

Lemma split_without (sep : code_unit) (str : jsstring) :
  ~ In sep str -> split sep str = [str].
Proof.
  induction str as [|c r IH]; simpl; [reflexivity|]. intros H.
  destruct (N.eqb_spec c sep) as [E|N]; [exfalso; apply H; now left|].
  rewrite IH; [reflexivity | intros Hin; apply H; now right].
Qed.

Lemma split_at (sep : code_unit) (a r : jsstring) :
  ~ In sep a -> split sep (a ++ sep :: r) = a :: split sep r.
Proof.
  induction a as [|c a IH]; simpl; intros H.
  - now rewrite N.eqb_refl.
  - destruct (N.eqb_spec c sep) as [E|N]; [exfalso; apply H; now left|].
    rewrite IH; [reflexivity | intros Hin; apply H; now right].
Qed.

Lemma split_cases (sep : code_unit) (str : jsstring) :
  ~ In sep str \/ exists a r, str = a ++ sep :: r /\ ~ In sep a.
Proof.
  induction str as [|c s IH]; [left; intros []|].
  destruct (N.eqb_spec c sep) as [E|N].
  - right. exists [], s. subst c. split; [reflexivity | intros []].
  - destruct IH as [H|(a & r & E & Ha)].
    + left. intros [Hc|Hin]; [now apply N | now apply H].
    + right. exists (c :: a), r. split; [simpl; now rewrite E|].
      intros [Hc|Hin]; [now apply N | now apply Ha].
Qed.

Lemma app_sep_inj (sep : code_unit) (a a' r r' : jsstring) :
  ~ In sep a -> ~ In sep a' -> a ++ sep :: r = a' ++ sep :: r' -> a = a' /\ r = r'.
Proof.
  revert a'. induction a as [|c a IH]; intros [|c' a'] Ha Ha' E; simpl in E.
  - injection E as E. now split.
  - injection E as Ec E. exfalso. apply Ha'. now left.
  - injection E as Ec E. exfalso. apply Ha. now left.
  - injection E as Ec E. destruct (IH a') as [-> ->]; try assumption.
    + intros H; apply Ha; now right.
    + intros H; apply Ha'; now right.
    + subst c'. now split.
Qed.

(** The first two pieces of a split, read back on the text. *)
Lemma split_first_two (sep : code_unit) (str a b : jsstring) :
  nth_error (split sep str) 0 = Some a /\ nth_error (split sep str) 1 = Some b
  <-> first_two sep str a b.
Proof.
  split.
  - intros [H0 H1].
    destruct (split_cases sep str) as [Hno|(a' & r & E & Ha')].
    + rewrite (split_without _ _ Hno) in H1. discriminate.
    + rewrite E, (split_at _ _ _ Ha') in H0, H1. simpl in H0, H1.
      injection H0 as <-.
      destruct (split_cases sep r) as [Hno|(b' & t & Er & Hb')].
      * rewrite (split_without _ _ Hno) in H1. injection H1 as <-.
        exists []. rewrite app_nil_r. repeat split; auto.
      * rewrite Er, (split_at _ _ _ Hb') in H1. injection H1 as <-.
        exists (sep :: t). rewrite E, Er. repeat split; eauto.
  - intros (tail & E & Ha & Hb & Htail). rewrite E, (split_at _ _ _ Ha). simpl.
    split; [reflexivity|].
    destruct Htail as [->|(t & ->)].
    + rewrite app_nil_r, (split_without _ _ Hb). reflexivity.
    + now rewrite (split_at _ _ _ Hb).
Qed.

Lemma split_first (sep : code_unit) (str : jsstring) :
  exists a, nth_error (split sep str) 0 = Some a.
Proof.
  destruct (split_cases sep str) as [Hno|(a & r & E & Ha)].
  - rewrite (split_without _ _ Hno). now exists str.
  - rewrite E, (split_at _ _ _ Ha). now exists a.
Qed.

Lemma str_eqb_eq (a b : jsstring) : str_eqb a b = true <-> a = b.
Proof. unfold str_eqb. destruct (jsstring_eq_dec a b); split; congruence. Qed.

Lemma gate_next_iff (decode : jsstring -> jsstring) (aenv : AuthEnv)
    (authorization : option jsstring) :
  requireBasicAuth decode aenv authorization = next <->
  or_null (BASIC_AUTH_USER aenv) = None \/
  or_null (BASIC_AUTH_PASS aenv) = None \/
  exists user pass header b64,
    or_null (BASIC_AUTH_USER aenv) = Some user /\
    or_null (BASIC_AUTH_PASS aenv) = Some pass /\
    authorization = Some header /\
    first_two space header (lit "Basic") b64 /\
    b64 <> [] /\
    first_two colon (decode b64) user pass.
Proof.
  unfold requireBasicAuth.
  destruct (or_null (BASIC_AUTH_USER aenv)) as [user|]; [|split; auto].
  destruct (or_null (BASIC_AUTH_PASS aenv)) as [pass|]; [|split; auto].
  set (header := match authorization with Some h => h | None => [] end).
  split.
  - intros H. right. right.
    destruct (nth_error (split space header) 0) as [ty|] eqn:H0; [|discriminate].
    destruct (nth_error (split space header) 1) as [[|c r]|] eqn:H1; try discriminate.
    destruct (str_eqb ty (lit "Basic")) eqn:Ety; [|discriminate].
    apply str_eqb_eq in Ety. subst ty.
    destruct (nth_error (split colon (decode (c :: r))) 0) as [u|] eqn:F0; [|discriminate].
    destruct (nth_error (split colon (decode (c :: r))) 1) as [p|] eqn:F1; [|discriminate].
    destruct (str_eqb u user && str_eqb p pass) eqn:Eup; [|discriminate].
    apply andb_true_iff in Eup. destruct Eup as [Eu Ep].
    apply str_eqb_eq in Eu, Ep. subst u p.
    assert (Hh : first_two space header (lit "Basic") (c :: r))
      by (apply split_first_two; now split).
    destruct authorization as [h|].
    + exists user, pass, h, (c :: r). repeat split; try assumption; try discriminate.
      apply split_first_two. now split.
    + exfalso. destruct Hh as (tail & E & _). unfold header in E. discriminate.
  - intros [H|[H|(u & p & h & b64 & Hu & Hp & Ha & Hh & Hb & Hf)]]; try discriminate.
    injection Hu as <-. injection Hp as <-. subst authorization. unfold header.
    apply split_first_two in Hh, Hf. destruct Hh as [H0 H1]. destruct Hf as [F0 F1].
    rewrite H0, H1. destruct b64 as [|c r]; [contradiction|].
    rewrite (proj2 (str_eqb_eq _ _) eq_refl), F0, F1.
    now rewrite !(proj2 (str_eqb_eq _ _) eq_refl).
Qed.

(** X1: the gate lets a request through exactly when a credential is unset
    or empty, or the authorization header is, in this order, the word Basic,
    a space, a non-empty piece without a space, and then nothing or a space
    and anything; and the decoding of that piece is the user, a colon, the
    password, and then nothing or a colon and anything, where neither the
    user nor the password holds a colon. *)
Theorem requireBasicAuth_next_iff (decode : jsstring -> jsstring) (aenv : AuthEnv)
    (authorization : option jsstring) :
  requireBasicAuth decode aenv authorization = next <->
  or_null (BASIC_AUTH_USER aenv) = None \/
  or_null (BASIC_AUTH_PASS aenv) = None \/
  exists user pass b64 words fields,
    or_null (BASIC_AUTH_USER aenv) = Some user /\
    or_null (BASIC_AUTH_PASS aenv) = Some pass /\
    authorization = Some (lit "Basic" ++ space :: b64 ++ words) /\
    b64 <> [] /\ ~ In space b64 /\
    (words = [] \/ exists w, words = space :: w) /\
    decode b64 = user ++ colon :: pass ++ fields /\
    ~ In colon user /\ ~ In colon pass /\
    (fields = [] \/ exists f, fields = colon :: f).
Proof.
  rewrite gate_next_iff. split.
  - intros [H|[H|(user & pass & header & b64 & Hu & Hp & Ha & Hh & Hb & Hf)]]; auto.
    right. right. destruct Hh as (words & Eh & _ & Hsp & Hw).
    destruct Hf as (fields & Ef & Hnu & Hnp & Hfs).
    exists user, pass, b64, words, fields. subst header. now repeat split.
  - intros [H|[H|(user & pass & b64 & words & fields & Hu & Hp & Ha & Hb & Hsp & Hw & Hd
                  & Hnu & Hnp & Hfs)]]; auto.
    right. right. exists user, pass, (lit "Basic" ++ space :: b64 ++ words), b64.
    repeat split; try assumption.
    + exists words. repeat split; try assumption. vm_compute. intuition discriminate.
    + exists fields. now repeat split.
Qed.

Lemma requireBasicAuth_next_iff_witness :
  plain (lit "ana:clave") = lit "ana" ++ colon :: lit "clave" ++ [] /\
  requireBasicAuth plain auth0 (Some (lit "Basic ana:clave")) = next.
Proof.
  split; [reflexivity|].
  apply (proj2 (requireBasicAuth_next_iff plain auth0 (Some (lit "Basic ana:clave")))).
  right. right. exists (lit "ana"), (lit "clave"), (lit "ana:clave"), [], [].
  repeat split; try reflexivity; try discriminate; try (now left);
    vm_compute; intuition discriminate.
Defined.


(** X2: when both credentials are set and not empty, and the user or the
    password contains a colon, the gate lets no request through, whatever
    the header and whatever the decoder.  (With a credential unset or empty
    the gate is open, as X1 says.) *)
Theorem colon_in_credentials_locks_out (decode : jsstring -> jsstring) (aenv : AuthEnv)
    (user pass : jsstring) (authorization : option jsstring) :
  or_null (BASIC_AUTH_USER aenv) = Some user ->
  or_null (BASIC_AUTH_PASS aenv) = Some pass ->
  In colon user \/ In colon pass ->
  requireBasicAuth decode aenv authorization <> next.
Proof.
  intros Hu Hp Hcolon H. apply gate_next_iff in H.
  destruct H as [H|[H|(u & p & h & b64 & Hu' & Hp' & _ & _ & _ & Hf)]]; try congruence.
  rewrite Hu in Hu'. rewrite Hp in Hp'. injection Hu' as <-. injection Hp' as <-.
  destruct Hf as (tail & _ & Hnu & Hnp & _). tauto.
Qed.

Lemma colon_in_credentials_locks_out_witness :
  In colon (lit "cla:ve") /\
  requireBasicAuth plain auth_colon (Some (lit "Basic ana:cla:ve")) <> next.
Proof.
  assert (H : In colon (lit "cla:ve")) by (vm_compute; tauto).
  split; [exact H|].
  apply (colon_in_credentials_locks_out plain auth_colon (lit "ana") (lit "cla:ve")
           (Some (lit "Basic ana:cla:ve")) eq_refl eq_refl (or_intror H)).
Defined.

(** X3: the gate reads only the first two pieces: a header that carries
    more words after the second, and credentials that carry more
    colon-separated fields after the password, are let through. *)
Theorem gate_ignores_what_follows (decode : jsstring -> jsstring) (aenv : AuthEnv)
    (user pass b64 words fields : jsstring) :
  or_null (BASIC_AUTH_USER aenv) = Some user ->
  or_null (BASIC_AUTH_PASS aenv) = Some pass ->
  ~ In colon user -> ~ In colon pass ->
  b64 <> [] -> ~ In space b64 ->
  decode b64 = user ++ colon :: pass ++ colon :: fields ->
  requireBasicAuth decode aenv (Some (lit "Basic" ++ space :: b64 ++ space :: words)) = next.
Proof.
  intros Hu Hp Hnu Hnp Hb Hsp Hdec. apply gate_next_iff.
  right. right. exists user, pass, (lit "Basic" ++ space :: b64 ++ space :: words), b64.
  repeat split; try assumption.
  - exists (space :: words). repeat split; eauto.
    vm_compute. intuition discriminate.
  - exists (colon :: fields). repeat split; eauto.
Qed.

Lemma gate_ignores_what_follows_witness :
  plain (lit "ana:clave:x") = lit "ana" ++ colon :: lit "clave" ++ colon :: lit "x" /\
  requireBasicAuth plain auth0 (Some (lit "Basic" ++ space :: lit "ana:clave:x" ++ space :: lit "y"))
  = next.
Proof.
  split; [reflexivity|].
  apply (gate_ignores_what_follows plain auth0 (lit "ana") (lit "clave") (lit "ana:clave:x")
           (lit "y") (lit "x")); try reflexivity;
    try discriminate; vm_compute; intuition discriminate.
Defined.

(* ------------------------------------------------------------------ *)
(** ** Sessions in the Map *)

Lemma Map_get_In_pair (k : jsstring) (m : list (jsstring * Session)) (v : Session) :
  Map_get k m = Some v -> In (k, v) m.
Proof.
  induction m as [|[k' v'] m IH]; simpl; [discriminate|].
  destruct (jsstring_eq_dec k k') as [->|N]; intros H.
  - injection H as ->. now left.
  - right. now apply IH.
Qed.

Lemma Map_get_None (k : jsstring) (m : list (jsstring * Session)) :
  Map_get k m = None <-> ~ In k (map fst m).
Proof.
  induction m as [|[k' v'] m IH]; simpl; [tauto|].
  destruct (jsstring_eq_dec k k') as [->|N].
  - split; [discriminate | intros H; exfalso; apply H; now left].
  - rewrite IH. split; [intros H [E|Hin]; [congruence | tauto] | tauto].
Qed.

Lemma In_pair_Map_get (k : jsstring) (m : list (jsstring * Session)) (v : Session) :
  NoDup (map fst m) -> In (k, v) m -> Map_get k m = Some v.
Proof.
  induction m as [|[k' v'] m IH]; simpl; [intros _ []|].
  intros Hnd [E|Hin]; inversion Hnd as [|? ? Hnot Hnd']; subst.
  - injection E as -> ->. destruct (jsstring_eq_dec k k); congruence.
  - destruct (jsstring_eq_dec k k') as [->|N]; [|now apply IH].
    exfalso. apply Hnot. change k' with (fst (k', v)). now apply in_map.
Qed.

Lemma Map_set_keys (k : jsstring) (v : Session) (m : list (jsstring * Session)) :
  map fst (Map_set k v m) =
  match Map_get k m with
  | Some _ => map fst m
  | None => map fst m ++ [k]
  end.
Proof.
  induction m as [|[k' v'] m IH]; simpl; [reflexivity|].
  destruct (jsstring_eq_dec k k') as [->|N]; simpl; [reflexivity|].
  rewrite IH. now destruct (Map_get k m).
Qed.

Lemma In_Map_set (k : jsstring) (v : Session) (m : list (jsstring * Session))
    (x : jsstring * Session) :
  In x (Map_set k v m) -> x = (k, v) \/ In x m.
Proof.
  induction m as [|[k' v'] m IH]; simpl.
  - intros [H|[]]. now left.
  - destruct (jsstring_eq_dec k k'); simpl.
    + intros [H|H]; [now left | right; now right].
    + intros [H|H]; [right; now left|].
      destruct (IH H); [now left | right; now right].
Qed.

Lemma keys_ok_set (st : Store) (k : jsstring) (v : Session) (g : Z) :
  keys_ok st -> s_id v = k ->
  keys_ok {| sessions := Map_set k v (sessions st); globalIndex := g |}.
Proof.
  intros [Hnd Hids] Hv. split; simpl.
  - rewrite Map_set_keys. destruct (Map_get k (sessions st)) eqn:E; [assumption|].
    apply NoDup_app; [assumption | repeat constructor; intros [] |].
    intros x Hx [<-|[]]. now apply Map_get_None in E.
  - apply Forall_forall. intros x Hx. apply In_Map_set in Hx.
    destruct Hx as [->|Hx]; [assumption|].
    rewrite Forall_forall in Hids. now apply Hids.
Qed.

Lemma stored_id (st : Store) (k : jsstring) (s : Session) :
  keys_ok st -> Map_get k (sessions st) = Some s -> s_id s = k.
Proof.
  intros [_ Hids] Hk. apply Map_get_In_pair in Hk.
  rewrite Forall_forall in Hids. exact (Hids _ Hk).
Qed.

Lemma mutation_keys (st st' : Store) : keys_ok st -> mutation st st' -> keys_ok st'.
Proof.
  intros Hok [s Hmsgs Hflag | k s role text t b Hk Hlen Hw].
  - now apply keys_ok_set.
  - apply keys_ok_set; [assumption|]. simpl. eapply stored_id; eassumption.
Qed.

Lemma reachable_keys (rev : Revision) (env : Env) (st : Store) :
  reachable rev env st -> keys_ok st.
Proof.
  induction 1 as [|st r o req _ IH].
  - split; simpl; constructor.
  - pose proof (serve_mutations rev r env o req st) as Hm.
    induction Hm as [|a mid b H1 _ IHm]; [assumption|].
    apply IHm. eapply mutation_keys; eassumption.
Qed.

(** The session route, run. *)
Lemma session_run (rev : Revision) (env : Env) (o : Oracle) (req : Req) (st : Store)
    (mode : jsstring) :
  mode_of env req = Some mode ->
  serve rev POST_api_session env o req st =
  mkRun (RespSession (nanoid o) (pick env mode (random o)))
    {| sessions := Map_set (nanoid o) (fresh_session rev env o mode) (sessions st);
       globalIndex := globalIndex st |}
    [].
Proof.
  intros H. destruct rev; simpl; unfold Backend.post_session, Part000.post_session;
    rewrite H; reflexivity.
Qed.

Lemma session_refused (rev : Revision) (env : Env) (o : Oracle) (req : Req) (st : Store) :
  mode_of env req = None ->
  serve rev POST_api_session env o req st = mkRun (Uncaught TypeError) st [].
Proof.
  intros H. destruct rev; simpl; unfold Backend.post_session, Part000.post_session;
    rewrite H; reflexivity.
Qed.

(** X4: after the session route has answered, the id it returned names, in
    the Map, a session with that id, the condition it returned, an empty log
    and the flag false - also when the id was already in use, in which case
    the session stored before is gone; every other key holds what it held,
    the counter is the same, and polling the new id with any cursor answers
    no items and [awaitingOperator] false. *)
Theorem session_created_and_found (rev : Revision) (env : Env) (o o' : Oracle)
    (req poll : Req) (st : Store) (mode : jsstring) :
  mode_of env req = Some mode ->
  getSid poll = JString (nanoid o) ->
  let run := serve rev POST_api_session env o req st in
  response run = RespSession (nanoid o) (pick env mode (random o)) /\
  Map_get (nanoid o) (sessions (store run)) = Some (fresh_session rev env o mode) /\
  (forall k, k <> nanoid o ->
     Map_get k (sessions (store run)) = Map_get k (sessions st)) /\
  globalIndex (store run) = globalIndex st /\
  response (serve rev GET_api_messages env o' poll (store run)) = RespItems [] false.
Proof.
  intros Hmode Hpoll run. unfold run. rewrite (session_run rev env o req st mode Hmode).
  simpl. split; [reflexivity|]. split; [apply Map_get_set_same|].
  split; [intros k Hk; now apply Map_get_set_other|]. split; [reflexivity|].
  destruct rev; simpl; unfold get_messages, sessions_get; rewrite Hpoll; simpl;
    rewrite Map_get_set_same; simpl; unfold since, isAwaitingOperator; simpl;
    now destruct (pick env mode (random o)).
Qed.

Lemma session_created_and_found_witness :
  let run := serve backend_server_js POST_api_session env0 (world "h1" 300)
               (req_session "ai") (store_3 backend_server_js) in
  response run = RespSession (lit "h1") CondAI /\
  Map_get (lit "h1") (sessions (store run))
  = Some (mkSession (lit "h1") CondAI 300 None [] false) /\
  response (serve backend_server_js GET_api_messages env0 (world "" 301)
              (req_poll "h1" (JNum 0)) (store run)) = RespItems [] false.
Proof.
  intros run.
  destruct (session_created_and_found backend_server_js env0 (world "h1" 300) (world "" 301)
              (req_session "ai") (req_poll "h1" (JNum 0)) (store_3 backend_server_js)
              (lit "ai") eq_refl eq_refl) as (H1 & H2 & _ & _ & H5).
  split; [exact H1|]. split; [exact H2 | exact H5].
Defined.

(** X5: the session route takes the mode from the query when the query
    gives a non-empty text, otherwise from SESSION_MODE when that is set and
    not empty, otherwise it is the text mixed; and with the mode text in
    hand, the condition it answers is AI when the upper-cased mode is AI,
    Human when it is HUMAN, whatever the random source says, and otherwise AI
    exactly when the random number is below one half. *)
Theorem session_condition_from_mode (rev : Revision) (env : Env) (o : Oracle) (req : Req)
    (st : Store) :
  (forall m, q_mode (query req) = JString m -> m <> [] -> mode_of env req = Some m) /\
  (forall m, truthy (q_mode (query req)) = false -> or_null (SESSION_MODE env) = Some m ->
     mode_of env req = Some m) /\
  (truthy (q_mode (query req)) = false -> or_null (SESSION_MODE env) = None ->
     mode_of env req = Some (lit "mixed")) /\
  (forall mode, mode_of env req = Some mode ->
     let answer := response (serve rev POST_api_session env o req st) in
     (toUpperCase env mode = lit "AI" -> answer = RespSession (nanoid o) CondAI) /\
     (toUpperCase env mode <> lit "AI" -> toUpperCase env mode = lit "HUMAN" ->
        answer = RespSession (nanoid o) CondHuman) /\
     (toUpperCase env mode <> lit "AI" -> toUpperCase env mode <> lit "HUMAN" ->
        ((random o < 1 # 2)%Q -> answer = RespSession (nanoid o) CondAI) /\
        ((1 # 2 <= random o)%Q -> answer = RespSession (nanoid o) CondHuman))).
Proof.
  split; [|split; [|split]].
  - intros m Hq Hm. unfold mode_of, js_or. rewrite Hq. destruct m; [contradiction | reflexivity].
  - intros m Hq Hm. unfold mode_of, js_or. rewrite Hq.
    destruct (SESSION_MODE env) as [[|c r]|]; try discriminate.
    simpl in *. injection Hm as <-. reflexivity.
  - intros Hq Hm. unfold mode_of, js_or. rewrite Hq.
    destruct (SESSION_MODE env) as [[|c r]|]; try discriminate; reflexivity.
  - intros mode Hmode answer. unfold answer.
    rewrite (session_run rev env o req st mode Hmode). simpl. unfold pick.
    split; [|split].
    + intros E. now rewrite (proj2 (str_eqb_eq _ _) E).
    + intros N E. destruct (str_eqb (toUpperCase env mode) (lit "AI")) eqn:EA;
        [apply str_eqb_eq in EA; contradiction|].
      now rewrite (proj2 (str_eqb_eq _ _) E).
    + intros N1 N2.
      destruct (str_eqb (toUpperCase env mode) (lit "AI")) eqn:EA;
        [apply str_eqb_eq in EA; contradiction|].
      destruct (str_eqb (toUpperCase env mode) (lit "HUMAN")) eqn:EH;
        [apply str_eqb_eq in EH; contradiction|].
      unfold Qlt_bool. split; intros H.
      * destruct (Qle_bool (1 # 2) (random o)) eqn:E; [|reflexivity].
        apply Qle_bool_iff in E. exfalso. exact (Qlt_not_le _ _ H E).
      * now rewrite (proj2 (Qle_bool_iff _ _) H).
Qed.

Lemma session_condition_from_mode_witness :
  mode_of env0 (req_session "ai") = Some (lit "ai") /\
  toUpperCase env0 (lit "ai") = lit "AI" /\
  response (serve backend_server_js POST_api_session env0 (world "a1" 101) (req_session "ai")
              initial_store) = RespSession (lit "a1") CondAI.
Proof.
  split; [reflexivity|]. split; [reflexivity|].
  destruct (session_condition_from_mode backend_server_js env0 (world "a1" 101)
              (req_session "ai") initial_store) as (_ & _ & _ & H).
  exact (proj1 (H (lit "ai") eq_refl) eq_refl).
Defined.


(* ------------------------------------------------------------------ *)
(** ** More about the chat route *)

(** X6: the chat route of either revision answers 400 (MissingFields) when
    no session id is found in the request or the text is falsy, 404
    (NotFound) when id and text are there but the id names no session, and
    500 (Internal) when the text of a stored session's request cannot be
    converted to a string; each time the store is as it was and the adapter
    has not been called. *)
Theorem chat_error_cases (rev : Revision) (env : Env) (o : Oracle) (req : Req) (st : Store) :
  let run := serve rev POST_api_chat env o req st in
  (truthy (getSid req) = false \/ truthy (body_text req) = false ->
     spec_error (response run) = Some MissingFields /\ store run = st /\ calls run = []) /\
  (truthy (getSid req) = true -> truthy (body_text req) = true ->
   sessions_get st (getSid req) = None ->
     spec_error (response run) = Some NotFound /\ store run = st /\ calls run = []) /\
  (truthy (getSid req) = true -> truthy (body_text req) = true ->
   sessions_get st (getSid req) <> None -> to_String (body_text req) = None ->
     spec_error (response run) = Some Internal /\ store run = st /\ calls run = []).
Proof.
  intros run. unfold run. split; [|split].
  - intros H. destruct rev; simpl; unfold Backend.post_chat, Part000.post_chat,
      Backend.post_chat_begin, Part000.post_chat_begin;
      destruct H as [-> | ->]; simpl; rewrite ?orb_true_r; auto.
  - intros H1 H2 H3. destruct rev; simpl; unfold Backend.post_chat, Part000.post_chat,
      Backend.post_chat_begin, Part000.post_chat_begin;
      rewrite H1, H2, H3; simpl; auto.
  - intros H1 H2 H3 H4. destruct rev; simpl; unfold Backend.post_chat, Part000.post_chat,
      Backend.post_chat_begin, Part000.post_chat_begin;
      rewrite H1, H2, H4; simpl;
      destruct (sessions_get st (getSid req)) as [[k s]|]; simpl; auto; contradiction.
Qed.

Lemma chat_error_cases_witness :
  let req := req_text "zz" (JString (lit "hola")) in
  let run := serve backend_server_js POST_api_chat env0 (world "" 103) req
               (store_3 backend_server_js) in
  sessions_get (store_3 backend_server_js) (getSid req) = None /\
  spec_error (response run) = Some NotFound /\
  store run = store_3 backend_server_js.
Proof.
  intros req run.
  assert (H : sessions_get (store_3 backend_server_js) (getSid req) = None)
    by (vm_compute; reflexivity).
  split; [exact H|].
  destruct (chat_error_cases backend_server_js env0 (world "" 103) req
              (store_3 backend_server_js)) as (_ & Hnf & _).
  destruct (Hnf eq_refl eq_refl H) as (H1 & H2 & _).
  split; [exact H1 | exact H2].
Defined.


Lemma slice_short (str : jsstring) (n : nat) :
  (length str <= n)%nat -> slice str 0 n = str.
Proof. intros H. unfold slice. rewrite Nat.sub_0_r. simpl. now apply firstn_all2. Qed.

(** X7: when the chat route handles a text for a Human-conditioned session,
    in either revision, it answers [{ queued: true }] without calling the
    adapter; the session has the one user message pushed, stamped with the
    counter plus one and the clock, whose text is the first 2000 code units
    of the text (the whole text when it is no longer than that); the flag is
    true afterwards, stored and recomputed; every other key holds what it
    held and the counter has moved by one. *)
Theorem chat_human_queued (rev : Revision) (env : Env) (o : Oracle) (req : Req)
    (st : Store) (k : jsstring) (s : Session) (str : jsstring) :
  chat_accepts st req k s str ->
  s_condition s = CondHuman ->
  let run := serve rev POST_api_chat env o req st in
  let turn := mkMessage (globalIndex st + 1) user (slice str 0 2000) (now o) in
  response run = RespQueued true /\
  calls run = [] /\
  (exists s',
     Map_get k (sessions (store run)) = Some s' /\
     extends s s' [turn] /\
     s_awaitingOperator s' = true /\ isAwaitingOperator s' = true) /\
  ((length str <= 2000)%nat -> m_text turn = str) /\
  (forall k', k' <> k -> Map_get k' (sessions (store run)) = Map_get k' (sessions st)) /\
  globalIndex (store run) = globalIndex st + 1.
Proof.
  intros (Hsid & Htext & Hget & Hstr) Hc run turn. unfold run.
  rewrite (chat_run rev env o req st k s str Hsid Htext Hget Hstr), Hc. simpl.
  split; [reflexivity|]. split; [reflexivity|]. split; [|split; [|split]].
  - eexists. split; [apply Map_get_set_same|]. split; [|split].
    + unfold extends. simpl. now repeat split.
    + reflexivity.
    + rewrite isAwaitingOperator_push. now rewrite Hc.
  - intros H. unfold turn. cbn [m_text]. now apply slice_short.
  - intros k' Hk'. now apply Map_get_set_other.
  - reflexivity.
Qed.

Lemma chat_human_queued_witness :
  let req := req_text "h1" (JString (lit "sigues ahi")) in
  let st := store_3 backend_server_js in
  chat_accepts st req (lit "h1") session_h1 (lit "sigues ahi") /\
  response (serve backend_server_js POST_api_chat env0 (world "" 130) req st)
  = RespQueued true.
Proof.
  intros req st.
  assert (H : chat_accepts st req (lit "h1") session_h1 (lit "sigues ahi")).
  { unfold chat_accepts, sessions_get, st. rewrite store_3_sessions. repeat split. }
  split; [exact H|].
  exact (proj1 (chat_human_queued backend_server_js env0 (world "" 130) req st
                  (lit "h1") session_h1 (lit "sigues ahi") H eq_refl)).
Defined.

Lemma num_gt_Z (i c : Z) : num_gt i (JNum (inject_Z c)) = (c <? i).
Proof.
  simpl. unfold Qlt_bool.
  destruct (c <? i) eqn:E.
  - apply Z.ltb_lt in E. apply negb_true_iff, not_true_iff_false.
    rewrite Qle_bool_iff, <- Zle_Qle. lia.
  - apply Z.ltb_ge in E. apply negb_false_iff.
    rewrite Qle_bool_iff, <- Zle_Qle. lia.
Qed.

Lemma filter_none {A : Type} (f : A -> bool) (l : list A) :
  Forall (fun x => f x = false) l -> filter f l = [].
Proof. induction 1 as [|x l Hx _ IH]; simpl; [reflexivity | now rewrite Hx]. Qed.

Lemma filter_all {A : Type} (f : A -> bool) (l : list A) :
  Forall (fun x => f x = true) l -> filter f l = l.
Proof. induction 1 as [|x l Hx _ IH]; simpl; [reflexivity | now rewrite Hx, IH]. Qed.

Lemma poll_run (rev : Revision) (env : Env) (o : Oracle) (req : Req) (st : Store)
    (k : jsstring) (s : Session) :
  getSid req = JString k -> Map_get k (sessions st) = Some s ->
  serve rev GET_api_messages env o req st
  = mkRun (RespItems (since s (q_after (query req))) (isAwaitingOperator s)) st [].
Proof.
  intros Hsid Hk. destruct rev; simpl; unfold get_messages, sessions_get;
    rewrite Hsid, Hk; reflexivity.
Qed.

(* ------------------------------------------------------------------ *)
(** ** The responder adapter *)

Lemma adapter_stub (rev : Revision) (env : Env) (o : Oracle) (prompt : jsval)
    (history : list Message) (systemPrompt : option jsstring) (p : jsstring) :
  api_key env = None -> to_String prompt = Some p ->
  adapter rev env o prompt history systemPrompt =
  inr (match rev with
       | backend_server_js => Backend.stub p
       | unnamed_part_000 => Part000.stub systemPrompt p
       end).
Proof.
  intros Hkey Hp. destruct rev; simpl; unfold Backend.askGemini, Part000.askGemini;
    now rewrite Hkey, Hp.
Qed.

Lemma adapter_remote (rev : Revision) (env : Env) (o : Oracle) (prompt : jsval)
    (history : list Message) (systemPrompt : option jsstring) (apiKey : jsstring) :
  api_key env = Some apiKey ->
  adapter rev env o prompt history systemPrompt =
  match fetch o (remote_request rev apiKey prompt history systemPrompt) with
  | FetchThrows => inl FetchFailure
  | FetchNotOk status txt => inl (GeminiHTTP status txt)
  | FetchOk extracted => inr (reply_or_fallback extracted)
  end.
Proof.
  intros Hkey. destruct rev; simpl; unfold Backend.askGemini, Part000.askGemini;
    now rewrite Hkey.
Qed.

Lemma adapter_reply_nonempty (rev : Revision) (env : Env) (o : Oracle) (prompt : jsval)
    (history : list Message) (systemPrompt : option jsstring) (reply : jsstring) :
  adapter rev env o prompt history systemPrompt = inr reply -> reply <> [].
Proof.
  destruct (api_key env) as [apiKey|] eqn:Hkey.
  - rewrite (adapter_remote rev env o prompt history systemPrompt apiKey Hkey).
    destruct (fetch o _) as [| |[[|c r]|]]; try discriminate;
      intros H; injection H as <-; discriminate.
  - destruct (to_String prompt) as [p|] eqn:Hp.
    + rewrite (adapter_stub rev env o prompt history systemPrompt p Hkey Hp).
      intros H. injection H as <-. destruct rev; discriminate.
    + destruct rev; simpl; unfold Backend.askGemini, Part000.askGemini;
        rewrite Hkey, Hp; discriminate.
Qed.

(** X9: with no API key configured (unset or empty), the chat route of
    either revision answers an accepted text for an AI-conditioned session
    with a reply that starts with the stub marker and contains the whole
    text of the request, not only its first 2000 code units; the remote
    model is not consulted: the run is the same whatever [fetch] would
    answer. *)
Theorem stub_reply_embeds_prompt (rev : Revision) (env : Env) (o : Oracle) (req : Req)
    (st : Store) (k : jsstring) (s : Session) (str : jsstring) :
  api_key env = None ->
  chat_accepts st req k s str ->
  s_condition s = CondAI ->
  let run := serve rev POST_api_chat env o req st in
  (exists reply rest,
     response run = RespReply reply (index_returned rev (globalIndex st + 1 + 1)) false /\
     reply = stub_marker ++ rest /\
     occurs_in str rest) /\
  (forall f, serve rev POST_api_chat env
               (mkOracle (nanoid o) (random o) (now o) (later o) f) req st = run).
Proof.
  intros Hkey (Hsid & Htext & Hget & Hstr) Hc run.
  assert (Hrun : forall o2, now o2 = now o -> later o2 = later o ->
            serve rev POST_api_chat env o2 req st =
            mkRun (RespReply (match rev with
                              | backend_server_js => Backend.stub str
                              | unnamed_part_000 => Part000.stub (s_systemPrompt s) str
                              end) (index_returned rev (globalIndex st + 1 + 1)) false)
              (commit st k
                 (push (push s (mkMessage (globalIndex st + 1) user (slice str 0 2000) (now o)))
                    (mkMessage (globalIndex st + 1 + 1) ai
                       (match rev with
                        | backend_server_js => Backend.stub str
                        | unnamed_part_000 => Part000.stub (s_systemPrompt s) str
                        end) (later o)))
                 (globalIndex st + 1 + 1))
              [mkCall (body_text req)
                 (filter (fun m => negb (Role_eqb (m_role m) ai))
                    (s_messages s ++
                     [mkMessage (globalIndex st + 1) user (slice str 0 2000) (now o)]))
                 (prompt_passed rev s)]).
  { intros o2 Hn Hl.
    rewrite (chat_run rev env o2 req st k s str Hsid Htext Hget Hstr), Hc.
    cbn [s_messages push]. rewrite (adapter_stub rev env o2 _ _ _ str Hkey Hstr).
    now rewrite Hn, Hl. }
  split.
  - unfold run. rewrite (Hrun o eq_refl eq_refl). cbn [response].
    destruct rev; eexists; eexists; (split; [reflexivity|]); (split; [reflexivity|]).
    + exists (lit "Me pediste: " ++ quote),
             (quote ++ lit ". Configura GEMINI_API_KEY para usar Gemini.").
      now rewrite <- !app_assoc.
    + exists (lit "[system=" ++ quote
              ++ match Part000.nonempty (s_systemPrompt s) with
                 | Some sp => sp
                 | None => [8212%N]
                 end ++ quote ++ lit "] "), [].
      now rewrite app_nil_r, <- !app_assoc.
  - intros f. unfold run. rewrite (Hrun o eq_refl eq_refl).
    now rewrite (Hrun (mkOracle (nanoid o) (random o) (now o) (later o) f) eq_refl eq_refl).
Qed.

Lemma stub_reply_embeds_prompt_witness :
  let req := req_text "a1" (JString long_text) in
  api_key env0 = None /\
  chat_accepts (store_3 backend_server_js) req (lit "a1") session_a1 long_text /\
  exists reply rest,
    response (serve backend_server_js POST_api_chat env0 (world "" 104) req
                (store_3 backend_server_js))
    = RespReply reply None false /\
    reply = stub_marker ++ rest /\ occurs_in long_text rest.
Proof.
  intros req.
  assert (H : chat_accepts (store_3 backend_server_js) req (lit "a1") session_a1 long_text).
  { unfold chat_accepts, sessions_get. rewrite store_3_sessions. repeat split. }
  split; [reflexivity|]. split; [exact H|].
  exact (proj1 (stub_reply_embeds_prompt backend_server_js env0 (world "" 104) req
                  (store_3 backend_server_js) (lit "a1") session_a1 long_text
                  eq_refl H eq_refl)).
Defined.

(** The messages a run leaves in the store were there before, or are
    messages of role user or human, or carry a reply of the adapter. *)
Lemma In_all_messages_commit (st : Store) (k : jsstring) (s' : Session) (g : Z) (m : Message) :
  In m (all_messages (commit st k s' g)) -> In m (s_messages s') \/ In m (all_messages st).
Proof.
  intros H. apply In_all_messages in H. destruct H as (x & Hx & Hm).
  simpl in Hx. apply Map_values_set in Hx. destruct Hx as [->|Hx]; [now left|].
  right. apply In_all_messages. now exists x.
Qed.

Lemma run_messages (rev : Revision) (r : Route) (env : Env) (o : Oracle) (req : Req)
    (st : Store) (m : Message) :
  In m (all_messages (store (serve rev r env o req st))) ->
  In m (all_messages st) \/ m_role m <> ai \/
  exists prompt history systemPrompt,
    adapter rev env o prompt history systemPrompt = inr (m_text m).
Proof.
  destruct r.
  - destruct (mode_of env req) as [mode|] eqn:Hmode.
    + rewrite (session_run rev env o req st mode Hmode). intros H.
      apply In_all_messages in H. destruct H as (x & Hx & Hm). simpl in Hx.
      apply Map_values_set in Hx. destruct Hx as [->|Hx]; [destruct Hm|].
      left. apply In_all_messages. now exists x.
    + rewrite (session_refused rev env o req st Hmode). now left.
  - destruct (truthy (getSid req)) eqn:Hsid;
      [|rewrite (proj1 (chat_refused rev env o req st (or_introl Hsid))); now left].
    destruct (truthy (body_text req)) eqn:Htext;
      [|rewrite (proj1 (chat_refused rev env o req st (or_intror (or_introl Htext)))); now left].
    destruct (sessions_get st (getSid req)) as [[k s]|] eqn:Hget;
      [|rewrite (proj1 (chat_refused rev env o req st (or_intror (or_intror (or_introl Hget)))));
        now left].
    destruct (to_String (body_text req)) as [str|] eqn:Hstr;
      [|rewrite (proj1 (chat_refused rev env o req st (or_intror (or_intror (or_intror Hstr)))));
        now left].
    rewrite (chat_run rev env o req st k s str Hsid Htext Hget Hstr).
    apply sessions_get_Some in Hget. destruct Hget as [_ Hk].
    assert (Hold : forall x, In x (s_messages s) -> In x (all_messages st)).
    { intros x Hx. apply In_all_messages. exists s. split; [|assumption].
      eapply Map_get_In; eassumption. }
    destruct (s_condition s).
    + destruct (adapter rev env o _ _ _) as [e|reply] eqn:Had; cbn [store]; intros H;
        apply In_all_messages_commit in H; destruct H as [H|H]; auto;
        cbn [s_messages push set_awaitingOperator] in H;
        repeat (apply in_app_or in H; destruct H as [H|H]); auto;
        destruct H as [<-|[]]; try (right; left; discriminate).
      right. right. eauto.
    + cbn [store]. intros H. apply In_all_messages_commit in H. destruct H as [H|H]; auto.
      cbn [s_messages push set_awaitingOperator] in H.
      apply in_app_or in H. destruct H as [H|[<-|[]]]; auto.
      right. left. discriminate.
  - destruct rev; simpl; rewrite get_messages_store; now left.
  - destruct rev; simpl; now left.
  - assert (E : serve rev POST_api_operator_reply env o req st = post_operator_reply o req st)
      by now destruct rev.
    rewrite E. unfold post_operator_reply.
    destruct (sessions_get st _) as [[k s]|] eqn:Hget; [|now left].
    apply sessions_get_Some in Hget. destruct Hget as [_ Hk].
    destruct (s_condition s); [now left|].
    destruct (negb (truthy (body_text req))); [now left|].
    destruct (to_String (body_text req)) as [str|]; [|now left].
    cbn [store pushMessage]. intros H. apply In_all_messages_commit in H.
    destruct H as [H|H]; auto.
    cbn [s_messages push set_awaitingOperator] in H.
    apply in_app_or in H. destruct H as [H|[<-|[]]].
    + left. apply In_all_messages. exists s. split; [|assumption].
      eapply Map_get_In; eassumption.
    + right. left. discriminate.
Qed.

(** X10: in every store the server can be in, in either revision, no
    message of role ai has an empty text: the adapter answers the stub, the
    text the model returned, or the fixed text for no answer. *)
Theorem ai_text_never_empty (rev : Revision) (env : Env) (st : Store) :
  reachable rev env st ->
  forall m, In m (all_messages st) -> m_role m = ai -> m_text m <> [].
Proof.
  induction 1 as [|st r o req _ IH]; [intros m []|].
  intros m Hm Hrole.
  destruct (run_messages rev r env o req st m Hm) as [H|[H|(p & h & sp & H)]].
  - now apply IH.
  - contradiction.
  - eapply adapter_reply_nonempty; eassumption.
Qed.

Lemma ai_text_never_empty_witness :
  reachable backend_server_js env0 (store_4 backend_server_js) /\
  m_text (mkMessage 3 ai (Backend.stub long_text) 105) <> [].
Proof.
  split; [apply store_4_reachable|].
  apply (ai_text_never_empty backend_server_js env0 (store_4 backend_server_js)
           (store_4_reachable backend_server_js)); [|reflexivity].
  rewrite store_4_backend_messages. simpl. auto.
Defined.

(** X11: with an API key configured, the chat route of either revision
    decides its run for an AI-conditioned session by what [fetch] answers to
    one request: its contents are the user and human messages the log held,
    in order, with role user for user messages and model for human ones,
    then the new user message as stored (truncated), then the text of the
    request once more as the prompt.  A text of at most 2000 code units is
    therefore in the contents twice, as the last two parts. *)
Theorem remote_request_repeats_prompt (rev : Revision) (env : Env) (o : Oracle) (req : Req)
    (st : Store) (k : jsstring) (s : Session) (str apiKey : jsstring) :
  api_key env = Some apiKey ->
  chat_accepts st req k s str ->
  s_condition s = CondAI ->
  let turn := mkMessage (globalIndex st + 1) user (slice str 0 2000) (now o) in
  let sent := remote_request rev apiKey (body_text req)
                (filter (fun m => negb (Role_eqb (m_role m) ai)) (s_messages s ++ [turn]))
                (s_systemPrompt s) in
  (forall o2, now o2 = now o -> later o2 = later o -> fetch o2 sent = fetch o sent ->
     serve rev POST_api_chat env o2 req st = serve rev POST_api_chat env o req st) /\
  g_key sent = apiKey /\
  g_contents sent =
    map (fun h => (if Role_eqb (m_role h) user then g_user else g_model, JString (m_text h)))
        (filter (fun m => negb (Role_eqb (m_role m) ai)) (s_messages s))
    ++ [(g_user, JString (slice str 0 2000)); (g_user, body_text req)] /\
  (forall text, body_text req = JString text -> (length text <= 2000)%nat ->
     exists earlier,
       g_contents sent = earlier ++ [(g_user, JString text); (g_user, JString text)]).
Proof.
  intros Hkey (Hsid & Htext & Hget & Hstr) Hc turn sent.
  assert (Hcontents : g_contents sent =
    map (fun h => (if Role_eqb (m_role h) user then g_user else g_model, JString (m_text h)))
        (filter (fun m => negb (Role_eqb (m_role m) ai)) (s_messages s))
    ++ [(g_user, JString (slice str 0 2000)); (g_user, body_text req)]).
  { unfold sent, remote_request, contents_of. cbn [g_contents].
    rewrite filter_app. cbn [filter turn m_role Role_eqb negb].
    rewrite map_app, <- app_assoc. reflexivity. }
  split; [|split; [reflexivity|split; [exact Hcontents|]]].
  - intros o2 Hn Hl Hf.
    rewrite !(chat_run rev env _ req st k s str Hsid Htext Hget Hstr), Hc.
    cbn [s_messages push]. rewrite Hn. fold turn.
    rewrite !(adapter_remote rev env _ _ _ _ apiKey Hkey). fold sent. rewrite Hf, Hl.
    reflexivity.
  - intros text Hbody Hlen. rewrite Hcontents. eexists.
    rewrite Hbody in Hstr. simpl in Hstr. injection Hstr as <-.
    rewrite Hbody, (slice_short text 2000 Hlen). reflexivity.
Qed.

Lemma remote_request_repeats_prompt_witness :
  let req := req_text "a1" (JString (lit "hola")) in
  api_key env_remote = Some (lit "key") /\
  g_contents (remote_request backend_server_js (lit "key") (body_text req)
                [mkMessage 2 user (lit "hola") 200] None)
  = [(g_user, JString (lit "hola")); (g_user, JString (lit "hola"))].
Proof.
  intros req. split; [reflexivity|].
  destruct (remote_request_repeats_prompt backend_server_js env_remote world_503 req
              (store_3 backend_server_js) (lit "a1") session_a1 (lit "hola") (lit "key")
              eq_refl (chat_accepts_witness_a1 backend_server_js) eq_refl)
    as (_ & _ & H & _).
  exact H.
Defined.

(** X12: with an API key configured, when the response of the remote model
    is ok but yields no text (nothing to extract, or an empty text after
    trimming), the chat route of either revision answers, and stores as the
    message of role ai, the fixed text 'No obtuve respuesta del modelo.',
    for an accepted text of an AI-conditioned session. *)
Theorem empty_model_answer_falls_back (rev : Revision) (env : Env) (o : Oracle) (req : Req)
    (st : Store) (k : jsstring) (s : Session) (str apiKey : jsstring)
    (extracted : option jsstring) :
  api_key env = Some apiKey ->
  chat_accepts st req k s str ->
  s_condition s = CondAI ->
  let turn := mkMessage (globalIndex st + 1) user (slice str 0 2000) (now o) in
  fetch o (remote_request rev apiKey (body_text req)
             (filter (fun m => negb (Role_eqb (m_role m) ai)) (s_messages s ++ [turn]))
             (s_systemPrompt s)) = FetchOk extracted ->
  extracted = None \/ extracted = Some [] ->
  let run := serve rev POST_api_chat env o req st in
  let fallback := lit "No obtuve respuesta del modelo." in
  response run = RespReply fallback (index_returned rev (globalIndex st + 1 + 1)) false /\
  exists s',
    Map_get k (sessions (store run)) = Some s' /\
    extends s s' [turn; mkMessage (globalIndex st + 1 + 1) ai fallback (later o)].
Proof.
  intros Hkey (Hsid & Htext & Hget & Hstr) Hc turn Hfetch Hex run fallback. unfold run.
  rewrite (chat_run rev env o req st k s str Hsid Htext Hget Hstr), Hc.
  cbn [s_messages push]. fold turn.
  rewrite (adapter_remote rev env o _ _ _ apiKey Hkey), Hfetch.
  assert (E : reply_or_fallback extracted = fallback) by (destruct Hex as [-> | ->]; reflexivity).
  rewrite E. split; [reflexivity|].
  eexists. split; [apply Map_get_set_same|].
  unfold extends. cbn [s_id s_condition s_createdAt s_systemPrompt s_messages push].
  rewrite <- app_assoc. now repeat split.
Qed.

Lemma empty_model_answer_falls_back_witness :
  let req := req_text "a1" (JString (lit "hola")) in
  let o := mkOracle [] 0 200 201 (fun _ => FetchOk None) in
  response (serve unnamed_part_000 POST_api_chat env_remote o req (store_3 unnamed_part_000))
  = RespReply (lit "No obtuve respuesta del modelo.") (Some 3) false.
Proof.
  intros req o.
  exact (proj1 (empty_model_answer_falls_back unnamed_part_000 env_remote o req
                  (store_3 unnamed_part_000) (lit "a1") session_a1 (lit "hola") (lit "key")
                  None eq_refl (chat_accepts_witness_a1 unnamed_part_000) eq_refl eq_refl
                  (or_introl eq_refl))).
Defined.

(* ------------------------------------------------------------------ *)
(** ** More about polling *)

Lemma num_gt_mono (i j : Z) (a : jsnum) : i < j -> num_gt i a = true -> num_gt j a = true.
Proof.
  intros Hij H. apply num_gt_above in H. apply num_gt_above.
  destruct a as [q| | |]; simpl in *; try assumption.
  eapply Qlt_trans; [exact H|]. rewrite <- Zlt_Qlt. exact Hij.
Qed.

Lemma filter_sorted_suffix {A : Type} (R : A -> A -> Prop) (f : A -> bool) (l : list A) :
  StronglySorted R l ->
  (forall x y, R x y -> f x = true -> f y = true) ->
  exists seen, l = seen ++ filter f l /\ Forall (fun x => f x = false) seen.
Proof.
  intros Hs Hmono. induction Hs as [|x l Hs IH Hx].
  - now exists [].
  - simpl. destruct (f x) eqn:E.
    + exists []. split; [|constructor]. simpl. f_equal. symmetry. apply filter_all.
      eapply Forall_impl; [|exact Hx]. intros y Hy. now apply (Hmono x).
    + destruct IH as (seen & E1 & E2). exists (x :: seen). split.
      * simpl. now rewrite <- E1.
      * now constructor.
Qed.

Lemma StronglySorted_middle {A : Type} (R : A -> A -> Prop) (pre post : list A) (m : A) :
  StronglySorted R (pre ++ m :: post) ->
  Forall (fun x => R x m) pre /\ Forall (R m) post.
Proof.
  induction pre as [|x pre IH]; simpl; intros H; inversion H as [|? ? Hs Hx]; subst.
  - split; [constructor | assumption].
  - destruct (IH Hs) as [H1 H2]. split; [|assumption].
    constructor; [|assumption].
    rewrite Forall_forall in Hx. apply Hx. apply in_or_app. right. now left.
Qed.

Lemma reachable_log (rev : Revision) (env : Env) (st : Store) (k : jsstring) (s : Session) :
  reachable rev env st -> Map_get k (sessions st) = Some s ->
  log_ok (globalIndex st) (s_messages s).
Proof.
  intros Hr Hk. exact (proj1 (stored_ok _ _ _ (reachable_ok _ _ _ Hr) Hk)).
Qed.

(** X13: in every store the server can be in, what the polling route
    answers for a stored session is an end piece of its log: the log is the
    messages at or below the cursor followed by the items, so no message
    above the cursor is left out and none is answered out of place. *)
Theorem poll_is_suffix (rev : Revision) (env : Env) (o : Oracle) (req : Req) (st : Store)
    (k : jsstring) (s : Session) :
  reachable rev env st ->
  getSid req = JString k ->
  Map_get k (sessions st) = Some s ->
  exists seen items,
    response (serve rev GET_api_messages env o req st)
      = RespItems items (isAwaitingOperator s) /\
    s_messages s = seen ++ items /\
    Forall (fun m => num_gt (m_i m) (q_after (query req)) = false) seen /\
    Forall (fun m => num_gt (m_i m) (q_after (query req)) = true) items.
Proof.
  intros Hr Hsid Hk. destruct (reachable_log _ _ _ _ _ Hr Hk) as (_ & Hsorted & _).
  destruct (filter_sorted_suffix _ (fun m => num_gt (m_i m) (q_after (query req))) _ Hsorted)
    as (seen & E & Hseen).
  { intros x y Hxy. now apply num_gt_mono. }
  exists seen, (since s (q_after (query req))).
  rewrite (poll_run rev env o req st k s Hsid Hk). split; [reflexivity|].
  split; [exact E|]. split; [exact Hseen|].
  apply Forall_forall. intros m Hm. unfold since in Hm. now apply filter_In in Hm.
Qed.

Lemma poll_is_suffix_witness :
  reachable backend_server_js env0 (store_4 backend_server_js) /\
  exists seen items,
    response (serve backend_server_js GET_api_messages env0 (world "" 140)
                (req_poll "a1" (JNum (inject_Z 2))) (store_4 backend_server_js))
      = RespItems items false /\
    [mkMessage 2 user long_text 104; mkMessage 3 ai (Backend.stub long_text) 105]
      = seen ++ items.
Proof.
  split; [apply store_4_reachable|].
  destruct (poll_is_suffix backend_server_js env0 (world "" 140)
              (req_poll "a1" (JNum (inject_Z 2))) (store_4 backend_server_js) (lit "a1")
              (mkSession (lit "a1") CondAI 101 None
                 [mkMessage 2 user long_text 104;
                  mkMessage 3 ai (Backend.stub long_text) 105] false)
              (store_4_reachable backend_server_js) eq_refl)
    as (seen & items & H1 & H2 & _).
  - vm_compute. reflexivity.
  - exists seen, items. split; [exact H1 | exact H2].
Defined.

(** X14: in every store the server can be in, polling a stored session with
    the number of one of its messages as the cursor answers exactly the
    messages that come after that message in the log. *)
Theorem poll_after_message (rev : Revision) (env : Env) (o : Oracle) (req : Req) (st : Store)
    (k : jsstring) (s : Session) (pre post : list Message) (m : Message) :
  reachable rev env st ->
  getSid req = JString k ->
  Map_get k (sessions st) = Some s ->
  s_messages s = pre ++ m :: post ->
  q_after (query req) = JNum (inject_Z (m_i m)) ->
  response (serve rev GET_api_messages env o req st) = RespItems post (isAwaitingOperator s).
Proof.
  intros Hr Hsid Hk Hlog Hq. destruct (reachable_log _ _ _ _ _ Hr Hk) as (_ & Hsorted & _).
  rewrite Hlog in Hsorted. destruct (StronglySorted_middle _ _ _ _ Hsorted) as [Hpre Hpost].
  rewrite (poll_run rev env o req st k s Hsid Hk). cbn [response]. f_equal.
  unfold since. rewrite Hq, Hlog, filter_app. cbn [filter].
  rewrite num_gt_Z, Z.ltb_irrefl.
  rewrite filter_none, filter_all; [reflexivity | |].
  - eapply Forall_impl; [|exact Hpost]. cbv beta. intros x Hx. rewrite num_gt_Z.
    now apply Z.ltb_lt.
  - eapply Forall_impl; [|exact Hpre]. cbv beta. intros x Hx. rewrite num_gt_Z.
    apply Z.ltb_ge. lia.
Qed.

Lemma poll_after_message_witness :
  reachable backend_server_js env0 (store_4 backend_server_js) /\
  response (serve backend_server_js GET_api_messages env0 (world "" 140)
              (req_poll "a1" (JNum (inject_Z 2))) (store_4 backend_server_js))
  = RespItems [mkMessage 3 ai (Backend.stub long_text) 105] false.
Proof.
  split; [apply store_4_reachable|].
  apply (poll_after_message backend_server_js env0 (world "" 140)
           (req_poll "a1" (JNum (inject_Z 2))) (store_4 backend_server_js) (lit "a1")
           (mkSession (lit "a1") CondAI 101 None
              [mkMessage 2 user long_text 104;
               mkMessage 3 ai (Backend.stub long_text) 105] false)
           [] [mkMessage 3 ai (Backend.stub long_text) 105] (mkMessage 2 user long_text 104)
           (store_4_reachable backend_server_js) eq_refl).
  - vm_compute. reflexivity.
  - reflexivity.
  - reflexivity.
Defined.

(** X15: in every store the server can be in, a poll of a stored session
    answers its whole log when the cursor is a number below 1 (0 is what the
    route takes when the request gives none) or minus infinity, and answers
    no items when the cursor is not a number, is plus infinity, or is a
    number at or above the counter. *)
Theorem poll_cursor_extremes (rev : Revision) (env : Env) (o : Oracle) (req : Req)
    (st : Store) (k : jsstring) (s : Session) :
  reachable rev env st ->
  getSid req = JString k ->
  Map_get k (sessions st) = Some s ->
  let a := q_after (query req) in
  let answer := response (serve rev GET_api_messages env o req st) in
  ((a = JNegInf \/ exists q, a = JNum q /\ (q < 1)%Q) ->
     answer = RespItems (s_messages s) (isAwaitingOperator s)) /\
  ((a = JNaN \/ a = JPosInf \/ exists q, a = JNum q /\ (inject_Z (globalIndex st) <= q)%Q) ->
     answer = RespItems [] (isAwaitingOperator s)).
Proof.
  intros Hr Hsid Hk a answer. destruct (reachable_log _ _ _ _ _ Hr Hk) as (Hb & _ & _).
  unfold answer. rewrite (poll_run rev env o req st k s Hsid Hk). simpl. fold a.
  unfold since. split; intros H; f_equal.
  - apply filter_all. eapply Forall_impl; [|exact Hb]. simpl. intros m Hm.
    apply num_gt_above. destruct H as [-> | (q & -> & Hq)]; simpl; [exact I|].
    eapply Qlt_le_trans; [exact Hq|]. change 1%Q with (inject_Z 1). rewrite <- Zle_Qle. lia.
  - apply filter_none. eapply Forall_impl; [|exact Hb]. simpl. intros m Hm.
    destruct H as [-> | [-> | (q & -> & Hq)]]; try reflexivity.
    simpl. unfold Qlt_bool. apply negb_false_iff, Qle_bool_iff.
    eapply Qle_trans; [|exact Hq]. rewrite <- Zle_Qle. lia.
Qed.

Lemma poll_cursor_extremes_witness :
  reachable backend_server_js env0 (store_3 backend_server_js) /\
  response (serve backend_server_js GET_api_messages env0 (world "" 140)
              (req_poll "h1" (JNum 0)) (store_3 backend_server_js))
  = RespItems [mkMessage 1 user (lit "hola") 102] true /\
  response (serve backend_server_js GET_api_messages env0 (world "" 140)
              (req_poll "h1" JNaN) (store_3 backend_server_js))
  = RespItems [] true.
Proof.
  split; [apply store_3_reachable|].
  assert (Hk : Map_get (lit "h1") (sessions (store_3 backend_server_js)) = Some session_h1)
    by (rewrite store_3_sessions; reflexivity).
  split.
  - refine (proj1 (poll_cursor_extremes backend_server_js env0 (world "" 140)
                     (req_poll "h1" (JNum 0)) (store_3 backend_server_js) (lit "h1")
                     session_h1 (store_3_reachable backend_server_js) eq_refl Hk) _).
    right. exists 0%Q. split; [reflexivity | reflexivity].
  - refine (proj2 (poll_cursor_extremes backend_server_js env0 (world "" 140)
                     (req_poll "h1" JNaN) (store_3 backend_server_js) (lit "h1")
                     session_h1 (store_3_reachable backend_server_js) eq_refl Hk) _).
    now left.
Defined.

(* ------------------------------------------------------------------ *)
(** ** The read-only views *)

Lemma getSid_query (req : Req) (k : jsstring) :
  q_sessionId (query req) = JString k -> k <> [] -> getSid req = JString k.
Proof. intros H Hk. unfold getSid, js_or. rewrite H. now destruct k. Qed.

(** X16: in every store the server can be in, for a stored session named by
    the query, the debrief route, the operator's transcript route and a poll
    with cursor 0 give the same messages, the whole log in order; the
    debrief also tells the condition; and for an id that names no session
    the debrief and the transcript route answer not found. *)
Theorem transcript_views_agree (rev : Revision) (env : Env) (o : Oracle) (req : Req)
    (st : Store) (k : jsstring) :
  reachable rev env st ->
  q_sessionId (query req) = JString k -> k <> [] ->
  q_after (query req) = JNum 0 ->
  (forall s, Map_get k (sessions st) = Some s ->
     get_debrief k st = ViewDebrief k (s_condition s) (s_createdAt s) (s_messages s) /\
     get_operator_messages req st = ViewMessages k (s_messages s) (s_condition s) /\
     response (serve rev GET_api_messages env o req st)
       = RespItems (s_messages s) (isAwaitingOperator s)) /\
  (Map_get k (sessions st) = None ->
     get_debrief k st = ViewNotFound /\
     get_operator_messages req st = ViewNotFound /\
     response (serve rev GET_api_messages env o req st) = RespError 404 Sesion_no_encontrada).
Proof.
  intros Hr Hq Hk Ha. pose proof (getSid_query req k Hq Hk) as Hsid. split.
  - intros s Hs. pose proof (stored_id _ _ _ (reachable_keys _ _ _ Hr) Hs) as Hid.
    destruct (reachable_log _ _ _ _ _ Hr Hs) as (Hb & _ & _).
    unfold get_debrief, get_operator_messages, sessions_get. rewrite Hq, Hs.
    cbn [option_map]. rewrite Hid.
    split; [reflexivity|]. split; [reflexivity|].
    rewrite (poll_run rev env o req st k s Hsid Hs). cbn [response]. f_equal.
    unfold since. rewrite Ha. apply filter_all.
    eapply Forall_impl; [|exact Hb]. cbv beta. intros m Hm.
    change (JNum 0) with (JNum (inject_Z 0)). rewrite num_gt_Z. apply Z.ltb_lt. lia.
  - intros Hnone. unfold get_debrief, get_operator_messages, sessions_get.
    rewrite Hq, Hnone. split; [reflexivity|]. split; [reflexivity|].
    destruct rev; simpl; unfold get_messages, sessions_get; rewrite Hsid, Hnone; reflexivity.
Qed.

Lemma transcript_views_agree_witness :
  reachable backend_server_js env0 (store_3 backend_server_js) /\
  get_debrief (lit "h1") (store_3 backend_server_js)
  = ViewDebrief (lit "h1") CondHuman 100 [mkMessage 1 user (lit "hola") 102] /\
  get_debrief (lit "zz") (store_3 backend_server_js) = ViewNotFound.
Proof.
  split; [apply store_3_reachable|].
  split.
  - refine (proj1 (proj1 (transcript_views_agree backend_server_js env0 (world "" 150)
                            (req_poll "h1" (JNum 0)) (store_3 backend_server_js) (lit "h1")
                            (store_3_reachable backend_server_js) eq_refl _ eq_refl)
                     session_h1 _)).
    + discriminate.
    + rewrite store_3_sessions. reflexivity.
  - refine (proj1 (proj2 (transcript_views_agree backend_server_js env0 (world "" 150)
                            (req_poll "zz" (JNum 0)) (store_3 backend_server_js) (lit "zz")
                            (store_3_reachable backend_server_js) eq_refl _ eq_refl) _)).
    + discriminate.
    + rewrite store_3_sessions. reflexivity.
Defined.

Lemma In_values_pair (m : list (jsstring * Session)) (s : Session) :
  In s (Map_values m) -> exists k, In (k, s) m.
Proof.
  unfold Map_values. intros H. apply in_map_iff in H. destruct H as ([k x] & E & H).
  simpl in E. subst x. now exists k.
Qed.

Lemma keys_are_ids (st : Store) :
  keys_ok st -> map s_id (Map_values (sessions st)) = map fst (sessions st).
Proof.
  intros [_ Hids]. unfold Map_values. rewrite map_map.
  induction Hids as [|x l Hx _ IH]; simpl; [reflexivity | now rewrite Hx, IH].
Qed.

Lemma value_stored (st : Store) (s : Session) :
  keys_ok st -> In s (Map_values (sessions st)) -> Map_get (s_id s) (sessions st) = Some s.
Proof.
  intros Hok Hs. destruct (In_values_pair _ _ Hs) as (k & Hk).
  pose proof Hok as [Hnd Hids]. rewrite Forall_forall in Hids.
  pose proof (Hids _ Hk) as E. simpl in E. rewrite E. now apply In_pair_Map_get.
Qed.

(** X17: in every store the server can be in, the debug route lists one row
    for each key of the Map, in the order of the Map and with no id twice;
    each row's id names a stored session, and the row carries the length of
    its log and, as [awaitingOperator], the value a poll of that session
    reports. *)
Theorem debug_rows_match_sessions (rev : Revision) (env : Env) (st : Store) :
  reachable rev env st ->
  exists rows,
    get_debug_sessions st = ViewDebug rows /\
    map d_id rows = map fst (sessions st) /\
    NoDup (map d_id rows) /\
    forall row, In row rows ->
      exists s,
        Map_get (d_id row) (sessions st) = Some s /\
        d_condition row = s_condition s /\
        d_msgs row = length (s_messages s) /\
        d_awaitingOperator row = isAwaitingOperator s.
Proof.
  intros Hr. pose proof (reachable_keys _ _ _ Hr) as Hkeys.
  pose proof (reachable_ok _ _ _ Hr) as [_ Hall]. rewrite Forall_forall in Hall.
  eexists. split; [reflexivity|].
  assert (E : map d_id
                (map (fun s => {| d_id := s_id s; d_condition := s_condition s;
                                  d_msgs := length (s_messages s);
                                  d_awaitingOperator := s_awaitingOperator s |})
                   (Map_values (sessions st))) = map fst (sessions st)).
  { rewrite map_map. simpl. now apply keys_are_ids. }
  split; [exact E|]. split; [rewrite E; apply Hkeys|].
  intros row Hrow. apply in_map_iff in Hrow. destruct Hrow as (s & <- & Hs).
  exists s. simpl. split; [now apply value_stored|].
  split; [reflexivity|]. split; [reflexivity|]. now destruct (Hall s Hs).
Qed.

Lemma debug_rows_match_sessions_witness :
  reachable backend_server_js env0 (store_3 backend_server_js) /\
  exists rows,
    get_debug_sessions (store_3 backend_server_js) = ViewDebug rows /\
    map d_id rows = [lit "h1"; lit "a1"].
Proof.
  split; [apply store_3_reachable|].
  destruct (debug_rows_match_sessions backend_server_js env0 (store_3 backend_server_js)
              (store_3_reachable backend_server_js)) as (rows & H1 & H2 & _).
  exists rows. split; [exact H1|]. rewrite H2, store_3_sessions. reflexivity.
Defined.

(* ------------------------------------------------------------------ *)
(** ** The log only grows *)

Lemma extends_refl (s : Session) : extends s s [].
Proof. unfold extends. now rewrite app_nil_r. Qed.

Lemma commit_extends (st : Store) (k0 : jsstring) (s0 s0' : Session) (news0 : list Message)
    (g : Z) (k : jsstring) (s : Session) :
  Map_get k0 (sessions st) = Some s0 -> extends s0 s0' news0 ->
  Map_get k (sessions st) = Some s ->
  exists s' news,
    Map_get k (sessions (commit st k0 s0' g)) = Some s' /\
    extends s s' news /\
    (news = [] \/ news = news0).
Proof.
  intros H0 Hext Hk. simpl. destruct (jsstring_eq_dec k k0) as [->|N].
  - rewrite H0 in Hk. injection Hk as <-. exists s0', news0.
    split; [apply Map_get_set_same | split; [assumption | now right]].
  - exists s, []. rewrite (Map_get_set_other _ _ _ _ N).
    split; [assumption | split; [apply extends_refl | now left]].
Qed.

(** What [serve] does to a stored session: a run that no other request
    overlaps pushes at most two messages. *)
Lemma route_extends (rev : Revision) (r : Route) (env : Env) (o : Oracle) (req : Req)
    (st : Store) (k : jsstring) (s : Session) :
  Map_get k (sessions st) = Some s ->
  (r = POST_api_session -> nanoid o <> k) ->
  exists s' news,
    Map_get k (sessions (store (serve rev r env o req st))) = Some s' /\
    extends s s' news /\
    (length news <= 2)%nat /\
    Forall (fun m => globalIndex st < m_i m) news.
Proof.
  intros Hk Hfresh.
  assert (Hsame : exists s' news,
            Map_get k (sessions st) = Some s' /\ extends s s' news /\
            (length news <= 2)%nat /\ Forall (fun m => globalIndex st < m_i m) news).
  { exists s, []. split; [assumption|]. split; [apply extends_refl|].
    split; [simpl; lia | constructor]. }
  assert (Hcommit : forall k0 s0 s0' news0 g,
            Map_get k0 (sessions st) = Some s0 -> extends s0 s0' news0 ->
            (length news0 <= 2)%nat -> Forall (fun m => globalIndex st < m_i m) news0 ->
            exists s' news,
              Map_get k (sessions (commit st k0 s0' g)) = Some s' /\ extends s s' news /\
              (length news <= 2)%nat /\ Forall (fun m => globalIndex st < m_i m) news).
  { intros k0 s0 s0' news0 g H0 Hext Hlen Hnum.
    destruct (commit_extends st k0 s0 s0' news0 g k s H0 Hext Hk) as (s' & news & H1 & H2 & H3).
    exists s', news. split; [assumption|]. split; [assumption|].
    destruct H3 as [-> | ->]; [split; [simpl; lia | constructor] | now split]. }
  destruct r.
  - destruct (mode_of env req) as [mode|] eqn:Hmode.
    + rewrite (session_run rev env o req st mode Hmode). cbn [store sessions].
      rewrite Map_get_set_other; [exact Hsame|].
      intros E. apply (Hfresh eq_refl). now symmetry.
    + rewrite (session_refused rev env o req st Hmode). exact Hsame.
  - destruct (truthy (getSid req)) eqn:Hsid;
      [|rewrite (proj1 (chat_refused rev env o req st (or_introl Hsid))); exact Hsame].
    destruct (truthy (body_text req)) eqn:Htext;
      [|rewrite (proj1 (chat_refused rev env o req st (or_intror (or_introl Htext))));
        exact Hsame].
    destruct (sessions_get st (getSid req)) as [[k0 s0]|] eqn:Hget;
      [|rewrite (proj1 (chat_refused rev env o req st (or_intror (or_intror (or_introl Hget)))));
        exact Hsame].
    destruct (to_String (body_text req)) as [str|] eqn:Hstr;
      [|rewrite (proj1 (chat_refused rev env o req st (or_intror (or_intror (or_intror Hstr)))));
        exact Hsame].
    rewrite (chat_run rev env o req st k0 s0 str Hsid Htext Hget Hstr).
    apply sessions_get_Some in Hget. destruct Hget as [_ Hk0].
    destruct (s_condition s0).
    + destruct (adapter rev env o _ _ _) as [e|reply]; cbn [store].
      * eapply Hcommit; [exact Hk0 | | |].
        -- unfold extends. cbn [s_id s_condition s_createdAt s_systemPrompt s_messages push].
           repeat split; reflexivity.
        -- simpl. lia.
        -- repeat constructor. simpl. lia.
      * eapply Hcommit; [exact Hk0 | | |].
        -- unfold extends. cbn [s_id s_condition s_createdAt s_systemPrompt s_messages push].
           rewrite <- app_assoc. repeat split; reflexivity.
        -- simpl. lia.
        -- repeat constructor; simpl; lia.
    + cbn [store]. eapply Hcommit; [exact Hk0 | | |].
      * unfold extends.
        cbn [s_id s_condition s_createdAt s_systemPrompt s_messages push set_awaitingOperator].
        repeat split; reflexivity.
      * simpl. lia.
      * repeat constructor. simpl. lia.
  - assert (E : store (serve rev GET_api_messages env o req st) = st)
      by (destruct rev; apply get_messages_store).
    rewrite E. exact Hsame.
  - assert (E : store (serve rev GET_api_operator_inbox env o req st) = st)
      by now destruct rev.
    rewrite E. exact Hsame.
  - assert (E : serve rev POST_api_operator_reply env o req st = post_operator_reply o req st)
      by now destruct rev.
    rewrite E. unfold post_operator_reply.
    destruct (sessions_get st _) as [[k0 s0]|] eqn:Hget; [|exact Hsame].
    apply sessions_get_Some in Hget. destruct Hget as [_ Hk0].
    destruct (s_condition s0); [exact Hsame|].
    destruct (negb (truthy (body_text req))); [exact Hsame|].
    destruct (to_String (body_text req)) as [str|]; [|exact Hsame].
    cbn [store pushMessage]. eapply Hcommit; [exact Hk0 | | |].
    + unfold extends.
      cbn [s_id s_condition s_createdAt s_systemPrompt s_messages push set_awaitingOperator].
      repeat split; reflexivity.
    + simpl. lia.
    + repeat constructor. simpl. lia.
Qed.

(* ------------------------------------------------------------------ *)
(** ** More about the operator inbox *)

Lemma inbox_run (rev : Revision) (env : Env) (o : Oracle) (req : Req) (st : Store) :
  serve rev GET_api_operator_inbox env o req st
  = mkRun (RespInbox (sort_items (inbox_loop (Map_values (sessions st))))) st [].
Proof. now destruct rev. Qed.

Lemma inbox_loop_pending (st : Store) :
  store_ok st ->
  inbox_loop (Map_values (sessions st))
  = map inbox_item (filter pending (Map_values (sessions st))).
Proof.
  intros [_ Hall]. apply inbox_loop_filter.
  eapply Forall_impl; [|exact Hall]. now intros s [_ H].
Qed.

Lemma inbox_In (st : Store) (it : InboxItem) :
  store_ok st -> keys_ok st ->
  (In it (sort_items (inbox_loop (Map_values (sessions st)))) <->
   exists s, Map_get (s_id s) (sessions st) = Some s /\ pending s = true /\ it = inbox_item s).
Proof.
  intros Hok Hkeys. rewrite (inbox_loop_pending st Hok). split.
  - intros H. apply (Permutation_in _ (sort_items_perm _)) in H.
    apply in_map_iff in H. destruct H as (s & <- & Hs). apply filter_In in Hs.
    destruct Hs as [Hs Hp]. exists s. split; [now apply value_stored | now split].
  - intros (s & Hs & Hp & ->).
    apply (Permutation_in _ (Permutation_sym (sort_items_perm _))).
    apply in_map. apply filter_In. split; [|assumption]. eapply Map_get_In; eassumption.
Qed.

Lemma pending_ids_distinct (ss : list Session) :
  NoDup (map s_id ss) -> NoDup (map s_id (filter pending ss)).
Proof.
  induction ss as [|s ss IH]; intros Hnd; [exact Hnd|].
  inversion Hnd as [|? ? Hfresh Hrest]; subst. cbn [filter].
  destruct (pending s); [|exact (IH Hrest)].
  cbn [map]. constructor; [|exact (IH Hrest)].
  intros Hin. apply Hfresh. apply in_map_iff in Hin.
  destruct Hin as (other & Eid & Hother). apply filter_In in Hother.
  apply in_map_iff. exists other. split; [exact Eid | exact (proj1 Hother)].
Qed.

(** X19: in every store the server can be in, the inbox lists no session id
    twice; every id it lists names a stored Human-conditioned session whose
    flag is true, and the entry is the one built from that session; and an
    operator reply that names a listed id and carries a truthy text (a
    string that is not empty, for one) that converts to a string answers
    [{ ok: true }]. *)
Theorem inbox_entries_resolve (rev : Revision) (env : Env) (o o' : Oracle) (req : Req)
    (st : Store) :
  reachable rev env st ->
  exists items,
    response (serve rev GET_api_operator_inbox env o req st) = RespInbox items /\
    NoDup (map sessionId items) /\
    forall it, In it items ->
      (exists s,
         Map_get (sessionId it) (sessions st) = Some s /\
         s_condition s = CondHuman /\ s_awaitingOperator s = true /\
         it = inbox_item s) /\
      (forall reply str,
         body_sessionId reply = JString (sessionId it) ->
         truthy (body_text reply) = true -> to_String (body_text reply) = Some str ->
         response (serve rev POST_api_operator_reply env o' reply st) = RespOk true).
Proof.
  intros Hr. pose proof (reachable_ok _ _ _ Hr) as Hok.
  pose proof (reachable_keys _ _ _ Hr) as Hkeys.
  rewrite inbox_run. eexists. split; [reflexivity|]. split.
  - rewrite (inbox_loop_pending st Hok).
    apply (Permutation_NoDup (Permutation_map sessionId (Permutation_sym (sort_items_perm _)))).
    rewrite map_map.
    change (NoDup (map s_id (filter pending (Map_values (sessions st))))).
    apply pending_ids_distinct. rewrite (keys_are_ids st Hkeys). apply Hkeys.
  - intros it Hit. apply (inbox_In st it Hok Hkeys) in Hit.
    destruct Hit as (s & Hs & Hp & ->). cbn [inbox_item sessionId].
    assert (Hc : s_condition s = CondHuman /\ s_awaitingOperator s = true).
    { unfold pending in Hp. destruct (s_condition s); [discriminate | now split]. }
    destruct Hc as [Hc Hf]. split.
    + exists s. now repeat split.
    + intros reply str Hsid Htext Hstr.
      rewrite (reply_run rev env o' reply st (s_id s) s str); [reflexivity | | | |];
        try assumption.
      unfold sessions_get. rewrite Hsid, Hs. reflexivity.
Qed.

Lemma inbox_entries_resolve_witness :
  let reply := req_text "h2" (JString (lit "ya voy")) in
  reachable backend_server_js env0 (store_6 backend_server_js) /\
  exists items,
    response (serve backend_server_js GET_api_operator_inbox env0 (world "" 210)
                (req_session "") (store_6 backend_server_js)) = RespInbox items /\
    map sessionId items = [lit "h3"; lit "h1"; lit "h2"] /\
    NoDup (map sessionId items) /\
    response (serve backend_server_js POST_api_operator_reply env0 (world "" 211) reply
                (store_6 backend_server_js)) = RespOk true.
Proof.
  intros reply. split; [apply store_6_reachable|].
  destruct (inbox_entries_resolve backend_server_js env0 (world "" 210) (world "" 211)
              (req_session "") (store_6 backend_server_js)
              (store_6_reachable backend_server_js)) as (items & H1 & H2 & H3).
  exists items. split; [exact H1|].
  assert (E : items = [mkInboxItem (lit "h3") (lit "urgente") 200;
                       mkInboxItem (lit "h1") (lit "hola") 102;
                       mkInboxItem (lit "h2") (lit "buenas") 102]).
  { rewrite inbox_run in H1. injection H1 as <-. vm_compute. reflexivity. }
  split; [rewrite E; reflexivity|]. split; [exact H2|].
  refine (proj2 (H3 (mkInboxItem (lit "h2") (lit "buenas") 102) _)
            reply (lit "ya voy") eq_refl eq_refl eq_refl).
  rewrite E. simpl. auto.
Defined.

(** X20: after the chat route has queued a text for a Human-conditioned
    session of a store the server can be in, the inbox lists that session,
    with the stored text of the new message and the time of its push. *)
Theorem chat_then_inbox (rev : Revision) (env : Env) (o o' : Oracle) (req req' : Req)
    (st : Store) (k : jsstring) (s : Session) (str : jsstring) :
  reachable rev env st ->
  chat_accepts st req k s str ->
  s_condition s = CondHuman ->
  let st' := store (serve rev POST_api_chat env o req st) in
  exists items,
    response (serve rev GET_api_operator_inbox env o' req' st') = RespInbox items /\
    In (mkInboxItem k (slice str 0 2000) (now o)) items.
Proof.
  intros Hr Hacc Hc st'. pose proof Hacc as (Hsid & Htext & Hget & Hstr).
  assert (Hr' : reachable rev env st') by apply reach_route, Hr.
  pose proof (reachable_ok _ _ _ Hr') as Hok'.
  pose proof (reachable_keys _ _ _ Hr') as Hkeys'.
  pose proof Hget as Hget'. apply sessions_get_Some in Hget'. destruct Hget' as [_ Hk].
  pose proof (stored_id _ _ _ (reachable_keys _ _ _ Hr) Hk) as Hid.
  set (turn := mkMessage (globalIndex st + 1) user (slice str 0 2000) (now o)).
  set (s' := set_awaitingOperator (push s turn) true).
  assert (Hk' : Map_get k (sessions st') = Some s').
  { unfold st'. rewrite (chat_run rev env o req st k s str Hsid Htext Hget Hstr), Hc.
    cbn [store]. apply Map_get_set_same. }
  rewrite inbox_run. eexists. split; [reflexivity|].
  apply (inbox_In st' _ Hok' Hkeys'). exists s'.
  assert (Hid' : s_id s' = k) by exact Hid.
  rewrite Hid'. split; [exact Hk'|]. split.
  - unfold pending. cbn [s' s_condition set_awaitingOperator push s_awaitingOperator].
    now rewrite Hc.
  - rewrite (inbox_item_most_recent s' turn); [now rewrite Hid'|].
    exists (s_messages s), []. repeat split. constructor.
Qed.

Lemma chat_then_inbox_witness :
  let req := req_text "h1" (JString (lit "hola")) in
  let st := store_2 backend_server_js in
  reachable backend_server_js env0 st /\
  chat_accepts st req (lit "h1") session_h1_idle (lit "hola") /\
  exists items,
    response (serve backend_server_js GET_api_operator_inbox env0 (world "" 120) req
                (store (serve backend_server_js POST_api_chat env0 (world "" 102) req st)))
    = RespInbox items /\
    In (mkInboxItem (lit "h1") (lit "hola") 102) items.
Proof.
  intros req st.
  assert (Hr : reachable backend_server_js env0 st).
  { unfold st, store_2, store_1. repeat apply reach_route. apply reach_start. }
  assert (H : chat_accepts st req (lit "h1") session_h1_idle (lit "hola")).
  { vm_compute. repeat split. }
  split; [exact Hr|]. split; [exact H|].
  exact (chat_then_inbox backend_server_js env0 (world "" 102) (world "" 120) req req st
           (lit "h1") session_h1_idle (lit "hola") Hr H eq_refl).
Defined.

(** X21: after the operator reply route has answered [{ ok: true }] for a
    session of a store the server can be in, the inbox no longer lists that
    session. *)
Theorem reply_then_inbox (rev : Revision) (env : Env) (o o' : Oracle) (req req' : Req)
    (st : Store) (k : jsstring) (s : Session) (str : jsstring) :
  reachable rev env st ->
  sessions_get st (body_sessionId req) = Some (k, s) ->
  s_condition s = CondHuman ->
  truthy (body_text req) = true ->
  to_String (body_text req) = Some str ->
  let st' := store (serve rev POST_api_operator_reply env o req st) in
  exists items,
    response (serve rev GET_api_operator_inbox env o' req' st') = RespInbox items /\
    forall it, In it items -> sessionId it <> k.
Proof.
  intros Hr Hget Hc Htext Hstr st'.
  assert (Hr' : reachable rev env st') by apply reach_route, Hr.
  pose proof (reachable_ok _ _ _ Hr') as Hok'.
  pose proof (reachable_keys _ _ _ Hr') as Hkeys'.
  assert (Hk' : exists s', Map_get k (sessions st') = Some s' /\ s_awaitingOperator s' = false).
  { unfold st'. rewrite (reply_run rev env o req st k s str Hget Hc Htext Hstr).
    cbn [store]. eexists. split; [apply Map_get_set_same | reflexivity]. }
  destruct Hk' as (s' & Hk' & Hf').
  rewrite inbox_run. eexists. split; [reflexivity|].
  intros it Hit E. apply (inbox_In st' it Hok' Hkeys') in Hit.
  destruct Hit as (x & Hx & Hp & ->). cbn [inbox_item sessionId] in E.
  rewrite E, Hk' in Hx. injection Hx as <-.
  unfold pending in Hp. rewrite Hf' in Hp. destruct (s_condition s'); discriminate.
Qed.

Lemma reply_then_inbox_witness :
  let req := req_text "h1" (JString (lit "aqui estoy")) in
  let st := store_3 backend_server_js in
  sessions_get st (body_sessionId req) = Some (lit "h1", session_h1) /\
  exists items,
    response (serve backend_server_js GET_api_operator_inbox env0 (world "" 120) req
                (store (serve backend_server_js POST_api_operator_reply env0 (world "" 110)
                          req st)))
    = RespInbox items /\
    forall it, In it items -> sessionId it <> lit "h1".
Proof.
  intros req st.
  assert (H : sessions_get st (body_sessionId req) = Some (lit "h1", session_h1)).
  { vm_compute. reflexivity. }
  split; [exact H|].
  exact (reply_then_inbox backend_server_js env0 (world "" 110) (world "" 120) req req st
           (lit "h1") session_h1 (lit "aqui estoy") (store_3_reachable backend_server_js)
           H eq_refl eq_refl eq_refl).
Defined.

Lemma filter_sort_insert (t : isotime) (x : InboxItem) (l : list InboxItem) :
  filter (fun it => lastAt it =? t) (sort_insert x l)
  = filter (fun it => lastAt it =? t) (x :: l).
Proof.
  induction l as [|y l IH]; [reflexivity|].
  cbn [sort_insert]. unfold compare_lastAt.
  destruct (0 <? lastAt y - lastAt x) eqn:E; [|reflexivity].
  apply Z.ltb_lt in E. cbn [filter] in *. rewrite IH.
  destruct (lastAt x =? t) eqn:Ex; destruct (lastAt y =? t) eqn:Ey; try reflexivity.
  apply Z.eqb_eq in Ex, Ey. lia.
Qed.

Lemma sort_items_ties (t : isotime) (l : list InboxItem) :
  filter (fun it => lastAt it =? t) (sort_items l) = filter (fun it => lastAt it =? t) l.
Proof.
  induction l as [|x l IH]; [reflexivity|].
  cbn [sort_items fold_right]. fold (sort_items l).
  rewrite filter_sort_insert. cbn [filter]. now rewrite IH.
Qed.

(** Descending order of [lastAt] and the order of the entries of each
    timestamp leave one list only: what a stable sort returns does not
    depend on how it sorts. *)
Lemma stable_order_unique (l1 l2 : list InboxItem) :
  descending l1 -> descending l2 ->
  (forall t, filter (fun it => lastAt it =? t) l1 = filter (fun it => lastAt it =? t) l2) ->
  l1 = l2.
Proof.
  revert l2. induction l1 as [|x l1 IH]; intros l2 H1 H2 Hf.
  - destruct l2 as [|y l2]; [reflexivity|].
    specialize (Hf (lastAt y)). cbn [filter] in Hf. rewrite Z.eqb_refl in Hf. discriminate.
  - destruct l2 as [|y l2].
    { specialize (Hf (lastAt x)). cbn [filter] in Hf. rewrite Z.eqb_refl in Hf.
      discriminate. }
    inversion H1 as [|? ? H1' Hx]; subst. inversion H2 as [|? ? H2' Hy]; subst.
    assert (E : lastAt y = lastAt x).
    { destruct (Z.eq_dec (lastAt y) (lastAt x)) as [E|N]; [exact E|].
      assert (Hxin : In x l2).
      { pose proof (Hf (lastAt x)) as F. cbn [filter] in F.
        rewrite Z.eqb_refl, (proj2 (Z.eqb_neq _ _) N) in F.
        assert (Hin : In x (filter (fun it => lastAt it =? lastAt x) l2))
          by (rewrite <- F; now left).
        apply filter_In in Hin. tauto. }
      assert (Hyin : In y l1).
      { assert (N' : lastAt x <> lastAt y) by congruence.
        pose proof (Hf (lastAt y)) as F. cbn [filter] in F.
        rewrite Z.eqb_refl, (proj2 (Z.eqb_neq _ _) N') in F.
        assert (Hin : In y (filter (fun it => lastAt it =? lastAt y) l1))
          by (rewrite F; now left).
        apply filter_In in Hin. tauto. }
      rewrite Forall_forall in Hx, Hy.
      specialize (Hx y Hyin). specialize (Hy x Hxin). lia. }
    pose proof (Hf (lastAt x)) as F. cbn [filter] in F.
    rewrite E, Z.eqb_refl in F. injection F as <- _.
    f_equal. apply IH; [assumption | assumption |].
    intros t. specialize (Hf t). cbn [filter] in Hf.
    destruct (lastAt x =? t); [now injection Hf | exact Hf].
Qed.

(** X22: in every store the server can be in, entries of the inbox that
    carry the same [lastAt] stand in the order their sessions have in the
    Map, that is, in the order the sessions were created: the entries with
    any one timestamp are, in order, those of the pending sessions with that
    timestamp as the loop over the Map meets them.  This rests on
    [items.sort] being stable, as ECMAScript 2019 requires of
    [Array.prototype.sort], and on nothing else about how it sorts: any list
    in descending order of [lastAt] that keeps, for every timestamp, the
    entries the loop pushed in the order it pushed them, is the list the
    route answers. *)
Theorem inbox_ties_keep_map_order (rev : Revision) (env : Env) (o : Oracle) (req : Req)
    (st : Store) (t : isotime) :
  reachable rev env st ->
  let pushed := map inbox_item (filter pending (Map_values (sessions st))) in
  exists items,
    response (serve rev GET_api_operator_inbox env o req st) = RespInbox items /\
    filter (fun it => lastAt it =? t) items = filter (fun it => lastAt it =? t) pushed /\
    (forall sorted,
       descending sorted ->
       (forall u, filter (fun it => lastAt it =? u) sorted
                  = filter (fun it => lastAt it =? u) pushed) ->
       sorted = items).
Proof.
  intros Hr pushed. rewrite inbox_run. eexists. split; [reflexivity|].
  rewrite (inbox_loop_pending st (reachable_ok _ _ _ Hr)). fold pushed.
  split; [apply sort_items_ties|].
  intros sorted Hd Hsame. apply stable_order_unique;
    [exact Hd | apply sort_items_descending |].
  intros u. rewrite Hsame. symmetry. apply sort_items_ties.
Qed.

Lemma inbox_ties_keep_map_order_witness :
  reachable backend_server_js env0 (store_6 backend_server_js) /\
  map fst (sessions (store_6 backend_server_js)) = [lit "h1"; lit "a1"; lit "h2"; lit "h3"] /\
  exists items,
    response (serve backend_server_js GET_api_operator_inbox env0 (world "" 210)
                (req_session "") (store_6 backend_server_js)) = RespInbox items /\
    items = [mkInboxItem (lit "h3") (lit "urgente") 200;
             mkInboxItem (lit "h1") (lit "hola") 102;
             mkInboxItem (lit "h2") (lit "buenas") 102] /\
    filter (fun it => lastAt it =? 102) items
    = [mkInboxItem (lit "h1") (lit "hola") 102; mkInboxItem (lit "h2") (lit "buenas") 102].
Proof.
  split; [apply store_6_reachable|]. split; [vm_compute; reflexivity|].
  destruct (inbox_ties_keep_map_order backend_server_js env0 (world "" 210) (req_session "")
              (store_6 backend_server_js) 102 (store_6_reachable backend_server_js))
    as (items & H1 & H2 & _).
  exists items. split; [exact H1|]. split.
  - rewrite inbox_run in H1. injection H1 as <-. vm_compute. reflexivity.
  - rewrite H2. vm_compute. reflexivity.
Defined.

(* ------------------------------------------------------------------ *)
(** ** Where the routes read the session id *)

(** X23: the chat and polling routes take the session id from the query
    before the body: with a truthy [sessionId] or [session] in the query,
    what the body holds as [sessionId] or [session] makes no difference to
    the run.  The operator reply route reads the body only: two requests
    whose bodies hold the same [sessionId] and [text] run alike whatever
    their queries hold, and a request without a body is answered 404 with
    the store as it was. *)
Theorem session_id_sources (rev : Revision) (env : Env) (o : Oracle) (st : Store) :
  (forall req1 req2,
     query req1 = query req2 -> body_text req1 = body_text req2 ->
     truthy (q_sessionId (query req1)) = true \/ truthy (q_session (query req1)) = true ->
     serve rev POST_api_chat env o req1 st = serve rev POST_api_chat env o req2 st /\
     serve rev GET_api_messages env o req1 st = serve rev GET_api_messages env o req2 st) /\
  (forall req1 req2,
     body_sessionId req1 = body_sessionId req2 -> body_text req1 = body_text req2 ->
     serve rev POST_api_operator_reply env o req1 st
     = serve rev POST_api_operator_reply env o req2 st) /\
  (forall req, body req = None ->
     serve rev POST_api_operator_reply env o req st
     = mkRun (RespError 404 Sesion_no_encontrada) st []).
Proof.
  split; [|split].
  - intros req1 req2 Hq Hb Ht.
    assert (Hsid : getSid req1 = getSid req2).
    { unfold getSid, js_or. rewrite <- Hq.
      destruct (truthy (q_sessionId (query req1))); [reflexivity|].
      destruct Ht as [Ht|Ht]; [discriminate | now rewrite Ht]. }
    split.
    + destruct rev; simpl; unfold Backend.post_chat, Part000.post_chat,
      Backend.post_chat_begin, Part000.post_chat_begin;
        now rewrite Hsid, Hb.
    + destruct rev; simpl; unfold get_messages; now rewrite Hsid, Hq.
  - intros req1 req2 Hs Hb. destruct rev; simpl; unfold post_operator_reply;
      now rewrite Hs, Hb.
  - intros req Hb. destruct rev; simpl; unfold post_operator_reply, body_sessionId;
      now rewrite Hb.
Qed.

Lemma session_id_sources_witness :
  let req := req_poll "h1" (JNum 0) in
  body req = None /\
  serve backend_server_js POST_api_operator_reply env0 (world "" 110) req
    (store_3 backend_server_js)
  = mkRun (RespError 404 Sesion_no_encontrada) (store_3 backend_server_js) [].
Proof.
  intros req. split; [reflexivity|].
  destruct (session_id_sources backend_server_js env0 (world "" 110)
              (store_3 backend_server_js)) as (_ & _ & H).
  exact (H req eq_refl).
Defined.

(* ------------------------------------------------------------------ *)
(** ** The two segments of the chat route *)

Lemma chat_atomic (rev : Revision) (env : Env) (o : Oracle) (req : Req) (st : Store) :
  serve rev POST_api_chat env o req st =
  match chat_begin rev env o req st with
  | Answered run => run
  | Suspended st1 held => chat_resume rev env o held (Map_get (aw_key held) (sessions st1)) st1
  end.
Proof. now destruct rev. Qed.

Lemma chat_begin_run (rev : Revision) (env : Env) (o : Oracle) (req : Req) (st : Store)
    (k : jsstring) (s : Session) (str : jsstring) :
  truthy (getSid req) = true ->
  truthy (body_text req) = true ->
  sessions_get st (getSid req) = Some (k, s) ->
  to_String (body_text req) = Some str ->
  let g := globalIndex st in
  let s1 := push s (mkMessage (g + 1) user (slice str 0 2000) (now o)) in
  let history := filter (fun m => negb (Role_eqb (m_role m) ai)) (s_messages s1) in
  chat_begin rev env o req st =
  match s_condition s with
  | CondHuman =>
      Answered (mkRun (RespQueued true) (commit st k (set_awaitingOperator s1 true) (g + 1)) [])
  | CondAI =>
      Suspended (commit st k s1 (g + 1))
        (mkAwaiting k (mkCall (body_text req) history (prompt_passed rev s)))
  end.
Proof.
  intros Hsid Htext Hget Hstr g s1 history. subst history s1 g.
  destruct rev; simpl; unfold Backend.post_chat_begin, Part000.post_chat_begin;
    rewrite Hsid, Htext, Hget, Hstr; simpl; destruct (s_condition s); reflexivity.
Qed.

Lemma chat_begin_refused (rev : Revision) (env : Env) (o : Oracle) (req : Req) (st : Store) :
  truthy (getSid req) = false \/ truthy (body_text req) = false \/
  sessions_get st (getSid req) = None \/ to_String (body_text req) = None ->
  exists run, chat_begin rev env o req st = Answered run /\ store run = st.
Proof.
  intros H.
  destruct rev; simpl; unfold Backend.post_chat_begin, Part000.post_chat_begin;
    destruct (truthy (getSid req)); simpl; try (eexists; split; reflexivity);
    destruct (truthy (body_text req)); simpl; try (eexists; split; reflexivity);
    destruct (sessions_get st (getSid req)) as [[k s]|]; simpl;
      try (eexists; split; reflexivity);
    destruct (to_String (body_text req)); simpl; try (eexists; split; reflexivity);
    intuition discriminate.
Qed.

Lemma chat_resume_run (rev : Revision) (env : Env) (o : Oracle) (held : Awaiting)
    (s : option Session) (st : Store) :
  chat_resume rev env o held s st =
  match adapter rev env o (call_prompt (aw_call held)) (call_history (aw_call held))
          (call_systemPrompt (aw_call held)) with
  | inl _ => mkRun (RespError 500 Error_procesando_el_mensaje) st [aw_call held]
  | inr reply =>
      mkRun (RespReply reply (index_returned rev (globalIndex st + 1)) false)
        (match s with
         | Some s =>
             commit st (aw_key held)
               (push s (mkMessage (globalIndex st + 1) ai reply (later o)))
               (globalIndex st + 1)
         | None => {| sessions := sessions st; globalIndex := globalIndex st + 1 |}
         end)
        [aw_call held]
  end.
Proof.
  destruct rev; simpl; unfold Backend.post_chat_resume, Part000.post_chat_resume;
    match goal with |- context [match ?a with inl _ => _ | inr _ => _ end] => destruct a end;
    destruct s; reflexivity.
Qed.

(** What the first segment does to the store: nothing, or one push of a
    user message to a stored session; and when it suspends, the session is
    AI-conditioned and stored under the key the run holds. *)
Lemma chat_begin_shape (rev : Revision) (env : Env) (o : Oracle) (req : Req) (st : Store) :
  (exists run, chat_begin rev env o req st = Answered run /\
     (store run = st \/
      exists k s s1 m,
        Map_get k (sessions st) = Some s /\ extends s s1 [m] /\
        m_i m = globalIndex st + 1 /\
        store run = commit st k s1 (globalIndex st + 1) /\ mutation st (store run))) \/
  (exists st1 held s s1 m,
     chat_begin rev env o req st = Suspended st1 held /\
     Map_get (aw_key held) (sessions st) = Some s /\ s_condition s = CondAI /\
     extends s s1 [m] /\ m_i m = globalIndex st + 1 /\
     st1 = commit st (aw_key held) s1 (globalIndex st + 1) /\ mutation st st1).
Proof.
  destruct (truthy (getSid req)) eqn:Hsid;
    [|left; destruct (chat_begin_refused rev env o req st (or_introl Hsid)) as (run & E & H);
      exists run; auto].
  destruct (truthy (body_text req)) eqn:Htext;
    [|left; destruct (chat_begin_refused rev env o req st (or_intror (or_introl Htext)))
        as (run & E & H); exists run; auto].
  destruct (sessions_get st (getSid req)) as [[k s]|] eqn:Hget;
    [|left; destruct (chat_begin_refused rev env o req st
                        (or_intror (or_intror (or_introl Hget)))) as (run & E & H);
      exists run; auto].
  destruct (to_String (body_text req)) as [str|] eqn:Hstr;
    [|left; destruct (chat_begin_refused rev env o req st
                        (or_intror (or_intror (or_intror Hstr)))) as (run & E & H);
      exists run; auto].
  rewrite (chat_begin_run rev env o req st k s str Hsid Htext Hget Hstr).
  apply sessions_get_Some in Hget. destruct Hget as [_ Hk].
  set (m := mkMessage (globalIndex st + 1) user (slice str 0 2000) (now o)).
  destruct (s_condition s) eqn:Hc.
  - right. exists (commit st k (push s m) (globalIndex st + 1)),
      (mkAwaiting k (mkCall (body_text req)
                       (filter (fun x => negb (Role_eqb (m_role x) ai)) (s_messages (push s m)))
                       (prompt_passed rev s))), s, (push s m), m.
    split; [reflexivity|]. split; [exact Hk|]. split; [exact Hc|].
    split; [unfold extends; simpl; now repeat split|]. split; [reflexivity|].
    split; [reflexivity|].
    apply (mut_push st k s user (slice str 0 2000) (now o) (s_awaitingOperator s));
      [exact Hk | intros _; apply slice_length | unfold flag_written; now rewrite Hc].
  - left. eexists. split; [reflexivity|]. right.
    exists k, s, (set_awaitingOperator (push s m) true), m.
    split; [exact Hk|]. split; [unfold extends; simpl; now repeat split|].
    split; [reflexivity|]. split; [reflexivity|].
    apply (mut_push st k s user (slice str 0 2000) (now o) true);
      [exact Hk | intros _; apply slice_length | unfold flag_written; now rewrite Hc].
Qed.

(** What the reply route does to the store: nothing, or one push of a human
    message to a stored session. *)
Lemma reply_shape (rev : Revision) (env : Env) (o : Oracle) (req : Req) (st : Store) :
  store (serve rev POST_api_operator_reply env o req st) = st \/
  exists k s s1 m,
    Map_get k (sessions st) = Some s /\ extends s s1 [m] /\
    m_i m = globalIndex st + 1 /\
    store (serve rev POST_api_operator_reply env o req st)
    = commit st k s1 (globalIndex st + 1).
Proof.
  assert (E : serve rev POST_api_operator_reply env o req st = post_operator_reply o req st)
    by now destruct rev.
  rewrite E. unfold post_operator_reply.
  destruct (sessions_get st _) as [[k s]|] eqn:Hget; [|now left].
  apply sessions_get_Some in Hget. destruct Hget as [_ Hk].
  destruct (s_condition s); [now left|].
  destruct (negb (truthy (body_text req))); [now left|].
  destruct (to_String (body_text req)) as [str|]; [|now left].
  right. cbn [store pushMessage].
  eexists k, s, _, (mkMessage (globalIndex st + 1) human (slice str 0 2000) (now o)).
  split; [exact Hk|]. split; [|split; reflexivity].
  unfold extends. cbn [s_id s_condition s_createdAt s_systemPrompt s_messages push
                         set_awaitingOperator]. now repeat split.
Qed.

(* ------------------------------------------------------------------ *)
(** ** The invariants hold when requests overlap *)

Lemma mutations_keys (st st' : Store) : keys_ok st -> mutations st st' -> keys_ok st'.
Proof.
  intros Hok Hm. induction Hm as [|st mid st' H1 _ IH]; [assumption|].
  apply IH. eapply mutation_keys; eassumption.
Qed.

Lemma extends_condition (s s' : Session) (news : list Message) :
  extends s s' news -> s_condition s' = s_condition s.
Proof. now intros (_ & H & _). Qed.

Lemma extends_trans (s s1 s2 : Session) (n1 n2 : list Message) :
  extends s s1 n1 -> extends s1 s2 n2 -> extends s s2 (n1 ++ n2).
Proof.
  intros (A1 & A2 & A3 & A4 & A5) (B1 & B2 & B3 & B4 & B5). unfold extends.
  rewrite B1, B2, B3, B4, B5, A5, app_assoc. now repeat split.
Qed.

Lemma In_remove_nth {A : Type} (n : nat) (l : list A) (x : A) :
  In x (remove_nth n l) -> In x l.
Proof.
  unfold remove_nth. intros H. apply in_app_or in H. destruct H as [H|H].
  - rewrite <- (firstn_skipn n l). apply in_or_app. now left.
  - rewrite <- (firstn_skipn (S n) l). apply in_or_app. now right.
Qed.

(** The suspended runs keep their sessions when the store moves to one in
    which every AI-conditioned session is still stored and AI-conditioned. *)
Lemma waiting_kept (st st' : Store) (ws : list Waiting) :
  (forall k s, Map_get k (sessions st) = Some s -> s_condition s = CondAI ->
     exists s', Map_get k (sessions st') = Some s' /\ s_condition s' = CondAI) ->
  Forall (fun wt => wt_attached wt = true ->
            exists s, Map_get (aw_key (wt_held wt)) (sessions st) = Some s /\
                      s_condition s = CondAI) ws ->
  Forall (fun wt => wt_attached wt = true ->
            exists s, Map_get (aw_key (wt_held wt)) (sessions st') = Some s /\
                      s_condition s = CondAI) ws.
Proof.
  intros Hkeep H. eapply Forall_impl; [|exact H]. cbv beta.
  intros wt Hwt Ha. destruct (Hwt Ha) as (s & Hs & Hc). eauto.
Qed.

Lemma commit_keeps_AI (st : Store) (k0 : jsstring) (s0 s0' : Session) (news : list Message)
    (g : Z) (k : jsstring) (s : Session) :
  Map_get k0 (sessions st) = Some s0 -> extends s0 s0' news ->
  Map_get k (sessions st) = Some s -> s_condition s = CondAI ->
  exists s', Map_get k (sessions (commit st k0 s0' g)) = Some s' /\ s_condition s' = CondAI.
Proof.
  intros H0 Hext Hk Hc.
  destruct (commit_extends st k0 s0 s0' news g k s H0 Hext Hk) as (s' & n & H1 & H2 & _).
  exists s'. split; [exact H1|]. now rewrite (extends_condition _ _ _ H2).
Qed.

Lemma step_ok (rev : Revision) (env : Env) (e : Event) (w : World) :
  world_ok w -> world_ok (step rev env e w).
Proof.
  intros (Hok & Hkeys & Hw). destruct w as [st ws]. cbn [w_store w_waiting] in *.
  assert (Hserve : forall r o req,
            r <> POST_api_session -> r <> POST_api_chat ->
            world_ok (mkWorld (store (serve rev r env o req st)) ws)).
  { intros r o req N1 N2. split; [|split]; cbn [w_store w_waiting].
    - eapply mutations_ok; [exact Hok | apply serve_mutations].
    - eapply mutations_keys; [exact Hkeys | apply serve_mutations].
    - eapply waiting_kept; [|exact Hw]. intros k s Hk Hc.
      destruct (route_extends rev r env o req st k s Hk) as (s' & news & H1 & H2 & _);
        [intros E; contradiction|].
      exists s'. split; [exact H1|]. now rewrite (extends_condition _ _ _ H2). }
  destruct e as [r o req | n]; [destruct r|].
  - (* the session route *)
    cbn [step w_store w_waiting].
    assert (Hok' : store_ok (store (serve rev POST_api_session env o req st)))
      by (eapply mutations_ok; [exact Hok | apply serve_mutations]).
    assert (Hkeys' : keys_ok (store (serve rev POST_api_session env o req st)))
      by (eapply mutations_keys; [exact Hkeys | apply serve_mutations]).
    split; [exact Hok'|]. split; [exact Hkeys'|]. cbn [w_store w_waiting].
    destruct (mode_of env req) as [mode|] eqn:Hmode.
    + rewrite (session_run rev env o req st mode Hmode). cbn [response store].
      unfold detach. apply Forall_map. eapply Forall_impl; [|exact Hw]. cbv beta.
      intros wt Hwt. destruct (jsstring_eq_dec (aw_key (wt_held wt)) (nanoid o)) as [E|N];
        cbn [wt_attached wt_held]; [discriminate|].
      intros Ha. destruct (Hwt Ha) as (s & Hs & Hc). exists s.
      cbn [sessions]. rewrite Map_get_set_other; [now split | exact N].
    + rewrite (session_refused rev env o req st Hmode). cbn [response store]. exact Hw.
  - (* the chat route, to its end or to its await *)
    cbn [step w_store w_waiting].
    destruct (chat_begin_shape rev env o req st)
      as [(run & E & [Hsame | (k & s & s1 & m & Hk & Hext & _ & Hst & Hmut)])
         | (st1 & held & s & s1 & m & E & Hk & Hc & Hext & _ & Hst & Hmut)];
      rewrite E; cbn [w_store w_waiting].
    + rewrite Hsame. split; [exact Hok | split; [exact Hkeys | exact Hw]].
    + split; [eapply mutation_ok; eassumption|].
      split; [eapply mutation_keys; eassumption|]. cbn [w_store w_waiting].
      eapply waiting_kept; [|exact Hw]. intros k' s' Hk' Hc'. rewrite Hst.
      eapply commit_keeps_AI; eassumption.
    + split; [eapply mutation_ok; eassumption|].
      split; [eapply mutation_keys; eassumption|]. cbn [w_store w_waiting].
      constructor.
      * intros _. cbn [wt_held]. rewrite Hst. exists s1.
        split; [apply Map_get_set_same|]. now rewrite (extends_condition _ _ _ Hext).
      * eapply waiting_kept; [|exact Hw]. intros k' s' Hk' Hc'. rewrite Hst.
        eapply commit_keeps_AI; eassumption.
  - apply Hserve; discriminate.
  - apply Hserve; discriminate.
  - apply Hserve; discriminate.
  - (* a suspended run resumes *)
    cbn [step w_store w_waiting].
    destruct (nth_error ws n) as [wt|] eqn:Hn;
      [|split; [exact Hok | split; [exact Hkeys | exact Hw]]].
    assert (Hrest : forall st',
              (forall k s, Map_get k (sessions st) = Some s -> s_condition s = CondAI ->
                 exists s', Map_get k (sessions st') = Some s' /\ s_condition s' = CondAI) ->
              Forall (fun wt => wt_attached wt = true ->
                        exists s, Map_get (aw_key (wt_held wt)) (sessions st') = Some s /\
                                  s_condition s = CondAI) (remove_nth n ws)).
    { intros st' Hkeep. apply Forall_forall. intros x Hx. apply In_remove_nth in Hx.
      pose proof (waiting_kept st st' ws Hkeep Hw) as H. rewrite Forall_forall in H.
      now apply H. }
    rewrite chat_resume_run.
    destruct (adapter rev env (wt_oracle wt) _ _ _) as [err|reply]; cbn [store].
    + split; [exact Hok|]. split; [exact Hkeys|]. cbn [w_store w_waiting].
      apply Hrest. eauto.
    + unfold held_now. destruct (wt_attached wt) eqn:Ha.
      * pose proof Hw as Hw'. rewrite Forall_forall in Hw'.
        destruct (Hw' wt (nth_error_In _ _ Hn) Ha) as (s & Hs & Hc). rewrite Hs.
        assert (Hmut : mutation st
                  (commit st (aw_key (wt_held wt))
                     (push s (mkMessage (globalIndex st + 1) ai reply (later (wt_oracle wt))))
                     (globalIndex st + 1))).
        { apply (mut_push st (aw_key (wt_held wt)) s ai reply (later (wt_oracle wt))
                   (s_awaitingOperator s));
            [exact Hs | intros H; now destruct H | unfold flag_written; now rewrite Hc]. }
        split; [eapply mutation_ok; eassumption|].
        split; [eapply mutation_keys; eassumption|]. cbn [w_store w_waiting].
        apply Hrest. intros k' s' Hk' Hc'.
        eapply (commit_keeps_AI st _ s _ [_]); try eassumption.
        unfold extends. simpl. now repeat split.
      * split; [|split]; cbn [w_store w_waiting].
        -- destruct Hok as [Hg Hall]. split; cbn [globalIndex sessions]; [lia|].
           eapply Forall_impl; [|exact Hall]. intros x. apply session_ok_mono. lia.
        -- exact Hkeys.
        -- apply Hrest. eauto.
Qed.

Lemma overlapping_ok (rev : Revision) (env : Env) (w : World) :
  overlapping rev env w -> world_ok w.
Proof.
  induction 1 as [|e w _ IH].
  - split; [apply initial_store_ok|]. split; [split; simpl; constructor | constructor].
  - now apply step_ok.
Qed.

(** A run that nothing overlaps is two turns: the request, and the
    resumption of the run it suspended. *)
Lemma atomic_turns (rev : Revision) (env : Env) (r : Route) (o : Oracle) (req : Req)
    (st : Store) :
  step rev env (Resume 0) (step rev env (Request r o req) (mkWorld st []))
  = mkWorld (store (serve rev r env o req st)) [].
Proof.
  destruct r; cbn [step w_store w_waiting]; try reflexivity.
  - now destruct (response (serve rev POST_api_session env o req st)).
  - rewrite chat_atomic. destruct (chat_begin rev env o req st) as [run|st1 held];
      cbn [w_store w_waiting nth_error]; [reflexivity|].
    cbn [step w_store w_waiting nth_error wt_oracle wt_held]. unfold held_now, remove_nth.
    reflexivity.
Qed.

Lemma reachable_overlapping (rev : Revision) (env : Env) (st : Store) :
  reachable rev env st -> overlapping rev env (mkWorld st []).
Proof.
  induction 1 as [|st r o req _ IH]; [apply over_start|].
  rewrite <- atomic_turns. now repeat apply over_step.
Qed.

Lemma world_two_chats_overlapping (rev : Revision) :
  overlapping rev env_remote (world_two_chats rev).
Proof.
  unfold world_two_chats, steps. cbn [fold_left]. do 3 apply over_step. apply over_start.
Qed.

(** What one turn does to a stored session: it stays stored under its key
    and its log gains at most one message, numbered with the counter the
    turn leaves. *)
Lemma step_extends (rev : Revision) (env : Env) (e : Event) (w : World) (k : jsstring)
    (s : Session) :
  Map_get k (sessions (w_store w)) = Some s ->
  (forall o req, e = Request POST_api_session o req -> nanoid o <> k) ->
  exists s' news,
    Map_get k (sessions (w_store (step rev env e w))) = Some s' /\
    extends s s' news /\
    (length news <= 1)%nat /\
    Forall (fun m => globalIndex (w_store w) < m_i m
                     <= globalIndex (w_store (step rev env e w))) news /\
    globalIndex (w_store w) <= globalIndex (w_store (step rev env e w)).
Proof.
  intros Hk Hfresh. destruct w as [st ws]. cbn [w_store] in *.
  assert (Hsame : forall st',
            sessions st' = sessions st -> globalIndex st <= globalIndex st' ->
            exists s' news,
              Map_get k (sessions st') = Some s' /\ extends s s' news /\
              (length news <= 1)%nat /\
              Forall (fun m => globalIndex st < m_i m <= globalIndex st') news /\
              globalIndex st <= globalIndex st').
  { intros st' Es Hg. exists s, []. rewrite Es. split; [exact Hk|].
    split; [apply extends_refl|]. split; [simpl; lia|]. split; [constructor | exact Hg]. }
  assert (Hcommit : forall k0 s0 s0' m,
            Map_get k0 (sessions st) = Some s0 -> extends s0 s0' [m] ->
            m_i m = globalIndex st + 1 ->
            exists s' news,
              Map_get k (sessions (commit st k0 s0' (globalIndex st + 1))) = Some s' /\
              extends s s' news /\ (length news <= 1)%nat /\
              Forall (fun x => globalIndex st < m_i x
                               <= globalIndex (commit st k0 s0' (globalIndex st + 1))) news /\
              globalIndex st <= globalIndex (commit st k0 s0' (globalIndex st + 1))).
  { intros k0 s0 s0' m H0 Hext Hm.
    destruct (commit_extends st k0 s0 s0' [m] (globalIndex st + 1) k s H0 Hext Hk)
      as (s' & news & H1 & H2 & H3).
    exists s', news. split; [exact H1|]. split; [exact H2|]. cbn [commit globalIndex].
    destruct H3 as [-> | ->].
    - split; [simpl; lia|]. split; [constructor | lia].
    - split; [simpl; lia|]. split; [|lia]. constructor; [rewrite Hm; lia | constructor]. }
  destruct e as [r o req | n]; [destruct r|].
  - cbn [step w_store]. destruct (mode_of env req) as [mode|] eqn:Hmode.
    + rewrite (session_run rev env o req st mode Hmode). cbn [store sessions globalIndex].
      exists s, []. rewrite Map_get_set_other;
        [|intros E; apply (Hfresh o req eq_refl); now symmetry].
      split; [exact Hk|]. split; [apply extends_refl|]. split; [simpl; lia|].
      split; [constructor | lia].
    + rewrite (session_refused rev env o req st Hmode). cbn [store].
      apply Hsame; [reflexivity | lia].
  - cbn [step w_store].
    destruct (chat_begin_shape rev env o req st)
      as [(run & E & [Hst | (k0 & s0 & s1 & m & Hk0 & Hext & Hm & Hst & _)])
         | (st1 & held & s0 & s1 & m & E & Hk0 & _ & Hext & Hm & Hst & _)];
      rewrite E; cbn [w_store]; rewrite Hst.
    + apply Hsame; [reflexivity | lia].
    + eapply Hcommit; eassumption.
    + eapply Hcommit; eassumption.
  - cbn [step w_store].
    assert (E : store (serve rev GET_api_messages env o req st) = st)
      by (destruct rev; apply get_messages_store).
    rewrite E. apply Hsame; [reflexivity | lia].
  - cbn [step w_store].
    assert (E : store (serve rev GET_api_operator_inbox env o req st) = st)
      by now destruct rev.
    rewrite E. apply Hsame; [reflexivity | lia].
  - cbn [step w_store].
    destruct (reply_shape rev env o req st)
      as [E | (k0 & s0 & s1 & m & Hk0 & Hext & Hm & E)]; rewrite E.
    + apply Hsame; [reflexivity | lia].
    + eapply Hcommit; eassumption.
  - cbn [step w_store w_waiting].
    destruct (nth_error ws n) as [wt|]; cbn [w_store]; [|apply Hsame; [reflexivity | lia]].
    rewrite chat_resume_run.
    destruct (adapter rev env (wt_oracle wt) _ _ _) as [err|reply]; cbn [store];
      [apply Hsame; [reflexivity | lia]|].
    destruct (held_now st wt) as [s0|] eqn:Hheld.
    + unfold held_now in Hheld. destruct (wt_attached wt); [|discriminate].
      apply (Hcommit _ s0 _ (mkMessage (globalIndex st + 1) ai reply (later (wt_oracle wt)))
               Hheld); [|reflexivity].
      unfold extends. cbn [s_id s_condition s_createdAt s_systemPrompt s_messages push].
      now repeat split.
    + apply Hsame; [reflexivity | simpl; lia].
Qed.

(* ------------------------------------------------------------------ *)
(** ** The claims and properties that depend on the await *)

(** C2: when the chat route handles a text for an AI-conditioned session,
    in either revision, it pushes the user message and suspends at one call
    of the responder adapter, whose prompt is the text of the request and
    whose history is the log (the new user message included) without its
    messages of role ai; the answer and the store of the run are those
    the adapter's outcome on that history gives; with an API key set, that
    outcome is the outcome of one request to the remote model, whose
    contents are the messages of that history, in order, and then the
    prompt.  Every message of the history has role user or human, none has
    role ai, and every user or human message of the log is in it. *)
Theorem chat_history_excludes_ai (rev : Revision) (env : Env) (o : Oracle) (req : Req)
    (st : Store) (k : jsstring) (s : Session) (str : jsstring) :
  chat_accepts st req k s str ->
  s_condition s = CondAI ->
  let g := globalIndex st in
  let turn := mkMessage (g + 1) user (slice str 0 2000) (now o) in
  let log := s_messages s ++ [turn] in
  let history := filter (fun m => negb (Role_eqb (m_role m) ai)) log in
  let call := mkCall (body_text req) history (prompt_passed rev s) in
  let st1 := commit st k (push s turn) (g + 1) in
  chat_begin rev env o req st = Suspended st1 (mkAwaiting k call) /\
  serve rev POST_api_chat env o req st =
    match adapter rev env o (body_text req) history (prompt_passed rev s) with
    | inl _ => mkRun (RespError 500 Error_procesando_el_mensaje) st1 [call]
    | inr reply =>
        mkRun (RespReply reply (index_returned rev (g + 1 + 1)) false)
          (commit st k (push (push s turn) (mkMessage (g + 1 + 1) ai reply (later o)))
             (g + 1 + 1))
          [call]
    end /\
  calls (serve rev POST_api_chat env o req st) = [call] /\
  (forall apiKey, api_key env = Some apiKey ->
     let sent := remote_request rev apiKey (body_text req) history (prompt_passed rev s) in
     adapter rev env o (body_text req) history (prompt_passed rev s) =
       match fetch o sent with
       | FetchThrows => inl FetchFailure
       | FetchNotOk status txt => inl (GeminiHTTP status txt)
       | FetchOk extracted => inr (reply_or_fallback extracted)
       end /\
     g_contents sent =
       map (fun h => (if Role_eqb (m_role h) user then g_user else g_model,
                      JString (m_text h))) history
       ++ [(g_user, body_text req)]) /\
  Forall (fun m => m_role m = user \/ m_role m = human) history /\
  (forall m, In m history -> m_role m <> ai) /\
  (forall m, In m log -> m_role m <> ai -> In m history).
Proof.
  intros (Hsid & Htext & Hget & Hstr) Hc g turn log history call st1.
  assert (Hserve : serve rev POST_api_chat env o req st =
    match adapter rev env o (body_text req) history (prompt_passed rev s) with
    | inl _ => mkRun (RespError 500 Error_procesando_el_mensaje) st1 [call]
    | inr reply =>
        mkRun (RespReply reply (index_returned rev (g + 1 + 1)) false)
          (commit st k (push (push s turn) (mkMessage (g + 1 + 1) ai reply (later o)))
             (g + 1 + 1))
          [call]
    end).
  { rewrite (chat_run rev env o req st k s str Hsid Htext Hget Hstr), Hc.
    destruct rev; reflexivity. }
  split; [|split; [exact Hserve|split; [|split; [|split; [|split]]]]].
  - rewrite (chat_begin_run rev env o req st k s str Hsid Htext Hget Hstr), Hc. reflexivity.
  - rewrite Hserve. destruct (adapter rev env o _ _ _); reflexivity.
  - intros apiKey Hkey sent. split; [now apply adapter_remote | reflexivity].
  - apply replayed_roles.
  - intros m Hm. apply filter_In in Hm. destruct Hm as [_ Hm].
    intros E. rewrite E in Hm. discriminate.
  - intros m Hm Hr. apply filter_In. split; [assumption|].
    destruct (m_role m); simpl; congruence.
Qed.

Lemma chat_history_excludes_ai_witness :
  let req := req_text "a1" (JString (lit "otra")) in
  let o := answering 106 "claro" in
  let st := store_5 backend_server_js in
  let history := [mkMessage 2 user (lit "hola") 104; mkMessage 4 user (lit "otra") 106] in
  chat_accepts st req (lit "a1") session_a1_answered (lit "otra") /\
  s_condition session_a1_answered = CondAI /\
  In (mkMessage 3 ai (Backend.stub (lit "hola")) 105) (s_messages session_a1_answered) /\
  calls (serve backend_server_js POST_api_chat env_remote o req st)
    = [mkCall (JString (lit "otra")) history None] /\
  g_contents (remote_request backend_server_js (lit "key") (JString (lit "otra")) history None)
    = [(g_user, JString (lit "hola")); (g_user, JString (lit "otra"));
       (g_user, JString (lit "otra"))] /\
  response (serve backend_server_js POST_api_chat env_remote o req st)
    = RespReply (lit "claro") None false.
Proof.
  intros req o st history.
  assert (Hacc : chat_accepts st req (lit "a1") session_a1_answered (lit "otra")).
  { split; [reflexivity|]. split; [reflexivity|]. split; [vm_compute|]; reflexivity. }
  split; [exact Hacc|]. split; [reflexivity|]. split; [simpl; tauto|].
  destruct (chat_history_excludes_ai backend_server_js env_remote o req st (lit "a1")
              session_a1_answered (lit "otra") Hacc eq_refl)
    as (_ & Hserve & Hcalls & Hsent & _).
  split; [exact Hcalls|].
  destruct (Hsent (lit "key") eq_refl) as [Hadapter Hcontents].
  split; [exact Hcontents|].
  rewrite Hserve, Hadapter. reflexivity.
Defined.

(** X8: however the requests overlap, when a suspended run of the chat
    route resumes with an answer of the adapter while the session object it
    holds is still in the Map, the route answers that reply with
    [queued: false] (part_000 adds, as its index, the counter at that moment
    plus one: two above the number of the run's user message only when
    nothing was pushed in between); the session stored under the run's key is
    AI-conditioned and its log, as it is then, gains the reply as a message
    of role ai with that number; a poll of the session with that number as
    the cursor answers no items, and a poll with the counter before the
    resumption as the cursor answers exactly the reply. *)
Theorem chat_reply_then_poll (rev : Revision) (env : Env) (w : World) (n : nat)
    (wt : Waiting) (reply : jsstring) (o' : Oracle) (poll : Req) :
  overlapping rev env w ->
  nth_error (w_waiting w) n = Some wt ->
  wt_attached wt = true ->
  adapter rev env (wt_oracle wt) (call_prompt (aw_call (wt_held wt)))
    (call_history (aw_call (wt_held wt))) (call_systemPrompt (aw_call (wt_held wt)))
    = inr reply ->
  getSid poll = JString (aw_key (wt_held wt)) ->
  let st := w_store w in
  let g := globalIndex st in
  let answer := mkMessage (g + 1) ai reply (later (wt_oracle wt)) in
  let run := chat_resume rev env (wt_oracle wt) (wt_held wt) (held_now st wt) st in
  let st' := w_store (step rev env (Resume n) w) in
  exists s,
    Map_get (aw_key (wt_held wt)) (sessions st) = Some s /\
    s_condition s = CondAI /\
    response run = RespReply reply (index_returned rev (g + 1)) false /\
    calls run = [aw_call (wt_held wt)] /\
    st' = store run /\
    globalIndex st' = g + 1 /\
    Map_get (aw_key (wt_held wt)) (sessions st') = Some (push s answer) /\
    s_awaitingOperator (push s answer) = false /\
    (q_after (query poll) = JNum (inject_Z (g + 1)) ->
       response (serve rev GET_api_messages env o' poll st') = RespItems [] false) /\
    (q_after (query poll) = JNum (inject_Z g) ->
       response (serve rev GET_api_messages env o' poll st') = RespItems [answer] false).
Proof.
  intros Hover Hn Ha Hreply Hpoll st g answer run st'.
  destruct (overlapping_ok rev env w Hover) as (Hok & _ & Hw).
  rewrite Forall_forall in Hw.
  destruct (Hw wt (nth_error_In _ _ Hn) Ha) as (s & Hs & Hc). fold st in Hs.
  destruct (stored_ok _ _ _ Hok Hs) as [(Hb & _ & _) Hflag].
  assert (Hrun : run = mkRun (RespReply reply (index_returned rev (g + 1)) false)
                         (commit st (aw_key (wt_held wt)) (push s answer) (g + 1))
                         [aw_call (wt_held wt)]).
  { unfold run. rewrite chat_resume_run, Hreply. unfold held_now. rewrite Ha, Hs.
    reflexivity. }
  assert (Hst' : st' = store run).
  { unfold st', run, st. cbn [step]. rewrite Hn. reflexivity. }
  assert (Hk' : Map_get (aw_key (wt_held wt)) (sessions st') = Some (push s answer)).
  { rewrite Hst', Hrun. simpl. apply Map_get_set_same. }
  assert (Hpolled : forall c,
            q_after (query poll) = JNum (inject_Z c) ->
            response (serve rev GET_api_messages env o' poll st')
            = RespItems (filter (fun m => c <? m_i m) (s_messages s ++ [answer])) false).
  { intros c Hc'. rewrite (poll_run rev env o' poll st' _ _ Hpoll Hk').
    cbn [response]. unfold since. rewrite Hc'. cbn [s_messages push]. f_equal.
    - apply filter_ext. intros m. apply num_gt_Z.
    - unfold isAwaitingOperator. cbn [s_condition push]. now rewrite Hc. }
  exists s. split; [exact Hs|]. split; [exact Hc|].
  split; [now rewrite Hrun|]. split; [now rewrite Hrun|]. split; [exact Hst'|].
  split; [now rewrite Hst', Hrun|]. split; [exact Hk'|].
  split; [|split].
  - cbn [s_awaitingOperator push]. rewrite Hflag. unfold isAwaitingOperator. now rewrite Hc.
  - intros Hq. rewrite (Hpolled _ Hq). f_equal. subst answer g st.
    apply filter_none. apply Forall_app. split.
    + eapply Forall_impl; [|exact Hb]. cbv beta. intros m Hm. apply Z.ltb_ge. lia.
    + repeat constructor. cbn [m_i]. apply Z.ltb_ge. lia.
  - intros Hq. rewrite (Hpolled _ Hq). f_equal. subst answer g st.
    rewrite filter_app, filter_none.
    + cbn [filter app m_i]. rewrite (proj2 (Z.ltb_lt _ _)) by lia. reflexivity.
    + eapply Forall_impl; [|exact Hb]. cbv beta. intros m Hm. apply Z.ltb_ge. lia.
Qed.

Lemma chat_reply_then_poll_witness :
  let w := world_two_chats unnamed_part_000 in
  let first :=
    mkWaiting (answering 101 "uno")
      (mkAwaiting (lit "a1")
         (mkCall (JString (lit "A")) [mkMessage 1 user (lit "A") 101] None)) true in
  let st' := w_store (step unnamed_part_000 env_remote (Resume 1) w) in
  overlapping unnamed_part_000 env_remote w /\
  nth_error (w_waiting w) 1 = Some first /\
  Map_get (lit "a1") (sessions (w_store w))
    = Some (mkSession (lit "a1") CondAI 100 None
              [mkMessage 1 user (lit "A") 101; mkMessage 2 user (lit "B") 102] false) /\
  response (chat_resume unnamed_part_000 env_remote (wt_oracle first) (wt_held first)
              (held_now (w_store w) first) (w_store w))
    = RespReply (lit "uno") (Some 3) false /\
  Map_get (lit "a1") (sessions st')
    = Some (mkSession (lit "a1") CondAI 100 None
              [mkMessage 1 user (lit "A") 101; mkMessage 2 user (lit "B") 102;
               mkMessage 3 ai (lit "uno") 111] false) /\
  response (serve unnamed_part_000 GET_api_messages env_remote (world "" 120)
              (req_poll "a1" (JNum (inject_Z 3))) st') = RespItems [] false.
Proof.
  intros w first st'.
  assert (Hn : nth_error (w_waiting w) 1 = Some first) by (vm_compute; reflexivity).
  assert (Hs : Map_get (lit "a1") (sessions (w_store w))
               = Some (mkSession (lit "a1") CondAI 100 None
                         [mkMessage 1 user (lit "A") 101; mkMessage 2 user (lit "B") 102]
                         false)) by (vm_compute; reflexivity).
  split; [apply world_two_chats_overlapping|]. split; [exact Hn|]. split; [exact Hs|].
  destruct (chat_reply_then_poll unnamed_part_000 env_remote w 1 first (lit "uno")
              (world "" 120) (req_poll "a1" (JNum (inject_Z 3)))
              (world_two_chats_overlapping unnamed_part_000) Hn eq_refl eq_refl eq_refl)
    as (s & Hs' & _ & Hresp & _ & _ & Hg & Hk & _ & Hnone & _).
  pose proof (eq_trans (eq_sym Hs') Hs) as Es. injection Es as ->.
  split; [exact Hresp|]. split; [exact Hk|].
  apply Hnone. reflexivity.
Defined.

(** X18: however the requests overlap, a list of turns of the event loop -
    requests of any route and resumptions of suspended runs of the chat
    route, with no session creation whose generated id is already the key
    of the session - leaves a stored session stored under its key with the
    same id, condition, creation time and system prompt, and with its old
    log followed by at most one new message per turn, each numbered above
    the counter before the turns and at most the counter after them: no
    message is removed, changed or moved. *)
Theorem log_append_only (rev : Revision) (env : Env) (es : list Event) (w : World)
    (k : jsstring) (s : Session) :
  Map_get k (sessions (w_store w)) = Some s ->
  (forall o req, In (Request POST_api_session o req) es -> nanoid o <> k) ->
  exists s' news,
    Map_get k (sessions (w_store (steps rev env es w))) = Some s' /\
    extends s s' news /\
    (length news <= length es)%nat /\
    Forall (fun m => globalIndex (w_store w) < m_i m
                     <= globalIndex (w_store (steps rev env es w))) news /\
    globalIndex (w_store w) <= globalIndex (w_store (steps rev env es w)).
Proof.
  revert w s. induction es as [|e es IH]; intros w s Hk Hfresh.
  - exists s, []. split; [exact Hk|]. split; [apply extends_refl|].
    split; [simpl; lia|]. split; [constructor | simpl; lia].
  - destruct (step_extends rev env e w k s Hk) as (s1 & n1 & H1 & E1 & L1 & F1 & G1).
    { intros o req ->. apply (Hfresh o req). now left. }
    destruct (IH (step rev env e w) s1 H1) as (s2 & n2 & H2 & E2 & L2 & F2 & G2).
    { intros o req Hin. apply (Hfresh o req). now right. }
    change (steps rev env (e :: es) w) with (steps rev env es (step rev env e w)).
    exists s2, (n1 ++ n2). split; [exact H2|].
    split; [exact (extends_trans _ _ _ _ _ E1 E2)|].
    split; [rewrite length_app; simpl; lia|].
    split; [|lia]. apply Forall_app. split.
    + eapply Forall_impl; [|exact F1]. cbv beta. intros m Hm. lia.
    + eapply Forall_impl; [|exact F2]. cbv beta. intros m Hm. lia.
Qed.

Lemma log_append_only_witness :
  let created := mkSession (lit "a1") CondAI 100 None [] false in
  let w := steps unnamed_part_000 env_remote
             [Request POST_api_session (world "a1" 100) (req_session "ai")] initial_world in
  let es := [Request POST_api_chat (answering 101 "uno") (req_text "a1" (JString (lit "A")));
             Request POST_api_chat (answering 102 "dos") (req_text "a1" (JString (lit "B")));
             Resume 1; Resume 0] in
  Map_get (lit "a1") (sessions (w_store w)) = Some created /\
  exists s' news,
    Map_get (lit "a1") (sessions (w_store (steps unnamed_part_000 env_remote es w)))
      = Some s' /\
    extends created s' news /\
    news = [mkMessage 1 user (lit "A") 101; mkMessage 2 user (lit "B") 102;
            mkMessage 3 ai (lit "uno") 111; mkMessage 4 ai (lit "dos") 112].
Proof.
  intros created w es.
  assert (Hk : Map_get (lit "a1") (sessions (w_store w)) = Some created)
    by (vm_compute; reflexivity).
  split; [exact Hk|].
  destruct (log_append_only unnamed_part_000 env_remote es w (lit "a1") created Hk)
    as (s' & news & H1 & H2 & _).
  - intros o req [H|[H|[H|[H|[]]]]]; discriminate.
  - exists s', news. split; [exact H1|]. split; [exact H2|].
    assert (E : Map_get (lit "a1")
                  (sessions (w_store (steps unnamed_part_000 env_remote es w)))
                = Some (mkSession (lit "a1") CondAI 100 None
                          [mkMessage 1 user (lit "A") 101; mkMessage 2 user (lit "B") 102;
                           mkMessage 3 ai (lit "uno") 111; mkMessage 4 ai (lit "dos") 112]
                          false)) by (vm_compute; reflexivity).
    rewrite E in H1. injection H1 as <-.
    destruct H2 as (_ & _ & _ & _ & Hm). symmetry. exact Hm.
Defined.

(** X24: the rules of the store hold however the requests overlap: in every
    world the server can be in, a stored session carries its key as its id,
    its flag is what [isAwaitingOperator] computes from its condition and
    its log - false on an AI-conditioned session, also while a run of the
    chat route awaits the adapter for it -, and the messages of its log are
    numbered from 1 to the counter at most, in strictly increasing order. *)
Theorem overlapping_flag_rule (rev : Revision) (env : Env) (w : World) (k : jsstring)
    (s : Session) :
  overlapping rev env w ->
  Map_get k (sessions (w_store w)) = Some s ->
  s_id s = k /\
  s_awaitingOperator s = isAwaitingOperator s /\
  (s_condition s = CondAI -> s_awaitingOperator s = false) /\
  Forall (fun m => 0 < m_i m <= globalIndex (w_store w)) (s_messages s) /\
  StronglySorted (fun a b => m_i a < m_i b) (s_messages s).
Proof.
  intros Hover Hk. destruct (overlapping_ok rev env w Hover) as (Hok & Hkeys & _).
  destruct (stored_ok _ _ _ Hok Hk) as [(Hb & Hsorted & _) Hflag].
  split; [exact (stored_id _ _ _ Hkeys Hk)|]. split; [exact Hflag|].
  split; [|split; assumption].
  intros Hc. rewrite Hflag. unfold isAwaitingOperator. now rewrite Hc.
Qed.

Lemma overlapping_flag_rule_witness :
  let w := world_two_chats backend_server_js in
  let s := mkSession (lit "a1") CondAI 100 None
             [mkMessage 1 user (lit "A") 101; mkMessage 2 user (lit "B") 102] false in
  overlapping backend_server_js env_remote w /\
  length (w_waiting w) = 2%nat /\
  Map_get (lit "a1") (sessions (w_store w)) = Some s /\
  s_awaitingOperator s = isAwaitingOperator s /\
  StronglySorted (fun a b => m_i a < m_i b) (s_messages s).
Proof.
  intros w s.
  assert (Hk : Map_get (lit "a1") (sessions (w_store w)) = Some s) by (vm_compute; reflexivity).
  split; [apply world_two_chats_overlapping|]. split; [reflexivity|]. split; [exact Hk|].
  destruct (overlapping_flag_rule backend_server_js env_remote w (lit "a1") s
              (world_two_chats_overlapping backend_server_js) Hk) as (_ & H2 & _ & _ & H5).
  split; [exact H2 | exact H5].
Defined.
